(** * Cybersecurity Templates & Dashboards Exporter

    A shallow embedding of [generate_cybersecurity_templates.py] and the
    properties its specification states about it.

    The script is a straight-line pipeline over a file system:
    [create_phase_folders], [generate_phase_files],
    [generate_summary_report], [create_zip_archive].  The embedding keeps
    that shape: the file system is a tree of directories and files, the
    four stages are computations in a state-and-exception monad over it,
    and the library calls the script makes ([csv.writer], [pandas]'
    [value_counts], [openpyxl]'s workbook builder, [os.walk], [zipfile])
    are modelled by executable functions. *)

From Stdlib Require Import ZArith NArith Lia Ascii String List Bool Permutation Sorted.
From stdpp Require Import base list strings pretty.

Import ListNotations.
Local Open Scope string_scope.
Local Open Scope Z_scope.
Local Open Scope list_scope.

Set Warnings "-register-all".

(** ** Configuration *)

Module Config.

Definition BASE_FOLDER : string := "Cybersecurity_Templates_&_Dashboards".

Definition PHASES : list string :=
  [ "Phase_1_Governance_Risk_SOC";
    "Phase_2_Technical_Controls_Monitoring";
    "Phase_3_Threat_Intel_Automation";
    "Phase_4_Compliance_Audit";
    "Phase_5_Awareness_Reporting" ].

(** Every entry of [SAMPLE_DATA] is a Python [str]. *)
Definition SAMPLE_DATA : list (list string) :=
  [ ["Control ID"; "Description"; "Owner"; "Status"; "Last Reviewed"];
    ["CTRL-001"; "Firewall configuration and rule audit"; "Network Team"; "Active"; "2025-10-01"];
    ["CTRL-002"; "User Access Review (Quarterly)"; "IT Security"; "In Progress"; "2025-09-15"];
    ["CTRL-003"; "Database Encryption Validation"; "DBA"; "Completed"; "2025-10-20"];
    ["CTRL-004"; "Vulnerability Scan Report"; "SOC Team"; "Completed"; "2025-10-22"];
    ["CTRL-005"; "Incident Response Plan Drill"; "CISO Office"; "Planned"; "2025-11-01"] ].

(** A spreadsheet cell value: [TREND_DATA] mixes [str] and [int]. *)
Inductive cell : Type :=
  | CStr (s : string)
  | CInt (n : Z).

Definition TREND_DATA : list (list cell) :=
  [ [CStr "Month"; CStr "Compliance %"];
    [CStr "June"; CInt 72];
    [CStr "July"; CInt 76];
    [CStr "August"; CInt 81];
    [CStr "September"; CInt 85];
    [CStr "October"; CInt 88];
    [CStr "November"; CInt 92] ].

End Config.
Export Config.

(** ** The [csv] module: writer and reader of the default dialect

    [csv.writer(f)] uses the [excel] dialect: delimiter [,], quote
    character code 34, [doublequote], line terminator CR LF and
    [QUOTE_MINIMAL].  The file is opened with [newline=""], so the
    terminator reaches the file untranslated. *)

Module Csv.

Definition delimiter : ascii := ","%char.
Definition quotechar : ascii := "034"%char.
Definition CR : ascii := "013"%char.
Definition LF : ascii := "010"%char.

(** The line terminator of the [excel] dialect.  [pandas] writes with
    the platform's line separator instead, so the writer takes it as an
    argument. *)
Definition lineterminator : string := String CR (String LF EmptyString).

Definition in_string (c : ascii) (s : string) : bool :=
  existsb (Ascii.eqb c) (list_ascii_of_string s).

Definition is_special (term : string) (c : ascii) : bool :=
  Ascii.eqb c delimiter || Ascii.eqb c quotechar || in_string c term.

(** [QUOTE_MINIMAL]: a field is quoted when one of its characters is the
    delimiter, the quote character or a character of the terminator. *)
Definition needs_quote (term : string) (s : string) : bool :=
  existsb (is_special term) (list_ascii_of_string s).

(** [doublequote]: a quote character inside a field is written twice. *)
Fixpoint escape (s : string) : string :=
  match s with
  | EmptyString => EmptyString
  | String c s' =>
      if Ascii.eqb c quotechar then String c (String c (escape s'))
      else String c (escape s')
  end.

Definition write_field (quoted : bool) (s : string) : string :=
  if quoted then String quotechar (escape s +:+ String quotechar EmptyString)
  else s.

Fixpoint join_fields (term : string) (fs : list string) : string :=
  match fs with
  | [] => EmptyString
  | [f] => write_field (needs_quote term f) f
  | f :: fs' => write_field (needs_quote term f) f +:+ String delimiter (join_fields term fs')
  end.

(** [writerow]: a record made of one empty field is written quoted, so
    that it is not read back as an empty record. *)
Definition writerow_with (term : string) (row : list string) : string :=
  match row with
  | [f] => write_field (needs_quote term f || String.eqb f EmptyString) f +:+ term
  | _ => join_fields term row +:+ term
  end.

Fixpoint writerows_with (term : string) (rows : list (list string)) : string :=
  match rows with
  | [] => EmptyString
  | r :: rows' => writerow_with term r +:+ writerows_with term rows'
  end.

Definition writerow : list string -> string := writerow_with lineterminator.
Definition writerows : list (list string) -> string := writerows_with lineterminator.

(** *** Reader

    The states of the reader's automaton.  Reading a file opened with
    [newline=""] feeds the automaton the characters of each line, line
    end included, and an end-of-line event after every line. *)

Inductive rstate : Type :=
  | START_RECORD
  | START_FIELD
  | IN_FIELD
  | IN_QUOTED_FIELD
  | QUOTE_IN_QUOTED_FIELD
  | EAT_CRNL.

Record reader : Type := mkReader {
  state : rstate;
  field : list ascii;          (* characters of the current field, reversed *)
  fields : list string;        (* fields of the current record, reversed *)
  records : list (list string) (* finished records, reversed *)
}.

Definition reader0 : reader := mkReader START_RECORD [] [] [].

Definition add_char (c : ascii) (r : reader) : reader :=
  mkReader (state r) (c :: field r) (fields r) (records r).

Definition save_field (r : reader) : reader :=
  mkReader (state r) [] (string_of_list_ascii (rev (field r)) :: fields r) (records r).

Definition set_state (s : rstate) (r : reader) : reader :=
  mkReader s (field r) (fields r) (records r).

Definition is_nl (c : ascii) : bool := Ascii.eqb c CR || Ascii.eqb c LF.

(** One character of a line ([parse_process_char] on a character). *)
Definition step (r : reader) (c : ascii) : option reader :=
  match state r with
  | START_RECORD =>
      if is_nl c then Some (set_state EAT_CRNL r)
      else if Ascii.eqb c quotechar then Some (set_state IN_QUOTED_FIELD r)
      else if Ascii.eqb c delimiter then Some (set_state START_FIELD (save_field r))
      else Some (set_state IN_FIELD (add_char c r))
  | START_FIELD =>
      if is_nl c then Some (set_state EAT_CRNL (save_field r))
      else if Ascii.eqb c quotechar then Some (set_state IN_QUOTED_FIELD r)
      else if Ascii.eqb c delimiter then Some (save_field r)
      else Some (set_state IN_FIELD (add_char c r))
  | IN_FIELD =>
      if is_nl c then Some (set_state EAT_CRNL (save_field r))
      else if Ascii.eqb c delimiter then Some (set_state START_FIELD (save_field r))
      else Some (add_char c r)
  | IN_QUOTED_FIELD =>
      if Ascii.eqb c quotechar then Some (set_state QUOTE_IN_QUOTED_FIELD r)
      else Some (add_char c r)
  | QUOTE_IN_QUOTED_FIELD =>
      if Ascii.eqb c quotechar then Some (set_state IN_QUOTED_FIELD (add_char c r))
      else if Ascii.eqb c delimiter then Some (set_state START_FIELD (save_field r))
      else if is_nl c then Some (set_state EAT_CRNL (save_field r))
      else Some (set_state IN_FIELD (add_char c r))
  | EAT_CRNL =>
      if is_nl c then Some r
      else None (* new-line character seen in unquoted field *)
  end.

(** A finished record is handed to the caller and the automaton starts
    the next one. *)
Definition emit (r : reader) : reader :=
  mkReader START_RECORD [] [] (rev (fields r) :: records r).

(** The end-of-line event ([parse_process_char] on [EOL]).  Inside a
    quoted field the record goes on with the next line. *)
Definition step_eol (r : reader) : reader :=
  match state r with
  | START_RECORD => emit r
  | START_FIELD | IN_FIELD | QUOTE_IN_QUOTED_FIELD => emit (save_field r)
  | IN_QUOTED_FIELD => r
  | EAT_CRNL => emit r
  end.

(** A line ends after LF, after a CR that no LF follows, and at the end
    of the input. *)
Definition line_ends (c : ascii) (rest : list ascii) : bool :=
  if Ascii.eqb c LF then true
  else if Ascii.eqb c CR then
    match rest with
    | c' :: _ => negb (Ascii.eqb c' LF)
    | [] => true
    end
  else match rest with [] => true | _ => false end.

Fixpoint feed (r : reader) (cs : list ascii) : option reader :=
  match cs with
  | [] => Some r
  | c :: rest =>
      match step r c with
      | None => None
      | Some r' => feed (if line_ends c rest then step_eol r' else r') rest
      end
  end.

(** At the end of the input a record left open inside a quoted field is
    returned with what was read of it. *)
Definition finish (r : reader) : list (list string) :=
  match state r with
  | IN_QUOTED_FIELD => rev (records (emit (save_field r)))
  | _ => rev (records r)
  end.

Definition read (s : string) : option (list (list string)) :=
  match feed reader0 (list_ascii_of_string s) with
  | Some r => Some (finish r)
  | None => None
  end.

End Csv.

(** ** [pandas.Series.value_counts]

    The tally keeps the values in the order of their first occurrence
    and is then sorted by count, largest first; the sort is stable, so
    values of equal count stay in the order of their first occurrence. *)

Module Pandas.

Fixpoint bump (s : string) (t : list (string * nat)) : list (string * nat) :=
  match t with
  | [] => [(s, 1%nat)]
  | (k, n) :: t' => if String.eqb k s then (k, S n) :: t' else (k, n) :: bump s t'
  end.

Definition tally (l : list string) : list (string * nat) :=
  fold_left (fun t s => bump s t) l [].

Fixpoint insert_desc (x : string * nat) (t : list (string * nat)) : list (string * nat) :=
  match t with
  | [] => [x]
  | y :: t' => if (snd y <=? snd x)%nat then x :: y :: t' else y :: insert_desc x t'
  end.

Definition sort_desc (t : list (string * nat)) : list (string * nat) :=
  fold_right insert_desc [] t.

Definition value_counts (l : list string) : list (string * nat) :=
  sort_desc (tally l).

End Pandas.

(** ** [python-docx]: the documents the script builds *)

Module Docx.

Inductive block : Type :=
  | Heading (text : string) (level : nat)
  | Paragraph (text : string)
  | Table (rows : list (list string)).

(** A document is the list of its blocks, in the order they were added. *)
Definition document : Type := list block.

Definition Document : document := [].
Definition add_heading (text : string) (level : nat) (d : document) : document :=
  d ++ [Heading text level].
Definition add_paragraph (text : string) (d : document) : document :=
  d ++ [Paragraph text].
Definition add_table (rows : list (list string)) (d : document) : document :=
  d ++ [Table rows].

End Docx.

(** ** [openpyxl]: workbooks, sheets, references and charts

    The script holds the sheets [ws], [ws2], [ws3] as references into
    the workbook and mutates them in place; here a sheet is named by its
    position in the workbook, which is the store. *)

Module Openpyxl.

(** [Reference(ws, min_col, min_row, max_col, max_row)]: [max_col] and
    [max_row] default to [min_col] and [min_row]. *)
Record reference : Type := mkReference {
  ref_sheet : string;
  min_col : nat;
  min_row : nat;
  max_col : nat;
  max_row : nat
}.

Definition Reference (sheet : string) (min_col min_row : nat)
    (max_col max_row : option nat) : reference :=
  mkReference sheet min_col min_row (default min_col max_col) (default min_row max_row).

Inductive chart_kind : Type := PieChart | BarChart | LineChart.

Record chart : Type := mkChart {
  kind : chart_kind;
  chart_title : option string;
  y_axis_title : option string;
  data : list (reference * bool);   (* the range and [titles_from_data] *)
  categories : option reference
}.

Definition new_chart (k : chart_kind) : chart := mkChart k None None [] None.

Definition add_data (r : reference) (titles_from_data : bool) (c : chart) : chart :=
  mkChart (kind c) (chart_title c) (y_axis_title c)
          (data c ++ [(r, titles_from_data)]) (categories c).
Definition set_categories (r : reference) (c : chart) : chart :=
  mkChart (kind c) (chart_title c) (y_axis_title c) (data c) (Some r).
Definition set_title (t : string) (c : chart) : chart :=
  mkChart (kind c) (Some t) (y_axis_title c) (data c) (categories c).
Definition set_y_axis_title (t : string) (c : chart) : chart :=
  mkChart (kind c) (chart_title c) (Some t) (data c) (categories c).

Record worksheet : Type := mkSheet {
  title : string;
  rows : list (list cell);
  column_dimensions : list (string * nat);   (* column letter, width *)
  charts : list (chart * string)             (* chart, anchor cell *)
}.

(** A workbook is the list of its sheets in tab order. *)
Definition workbook : Type := list worksheet.

(** [Workbook()] comes with one sheet, the active one. *)
Definition Workbook : workbook := [mkSheet "Sheet" [] [] []].
Definition active : nat := 0%nat.

Definition create_sheet (t : string) (wb : workbook) : workbook * nat :=
  (wb ++ [mkSheet t [] [] []], length wb).

Definition on_sheet (i : nat) (f : worksheet -> worksheet) (wb : workbook) : workbook :=
  alter f i wb.

Definition set_sheet_title (t : string) (ws : worksheet) : worksheet :=
  mkSheet t (rows ws) (column_dimensions ws) (charts ws).

(** [ws.append(row)] writes the row below the last one. *)
Definition append (row : list cell) (ws : worksheet) : worksheet :=
  mkSheet (title ws) (rows ws ++ [row]) (column_dimensions ws) (charts ws).

Definition append_all (rs : list (list cell)) (ws : worksheet) : worksheet :=
  fold_left (fun w r => append r w) rs ws.

Definition add_chart (c : chart) (anchor : string) (ws : worksheet) : worksheet :=
  mkSheet (title ws) (rows ws) (column_dimensions ws) (charts ws ++ [(c, anchor)]).

Definition set_width (letter : string) (w : nat) (ws : worksheet) : worksheet :=
  mkSheet (title ws) (rows ws)
          ((letter, w) :: List.filter (fun e => negb (String.eqb (fst e) letter)) (column_dimensions ws))
          (charts ws).

(** [get_column_letter]: 1 is A, 26 is Z, 27 is AA. *)
Fixpoint column_letter_go (fuel : nat) (idx : nat) (acc : string) : string :=
  match fuel with
  | O => acc
  | S fuel' =>
      match idx with
      | O => acc
      | _ =>
          let r := ((idx - 1) mod 26)%nat in
          column_letter_go fuel' ((idx - 1) / 26)%nat
                           (String (ascii_of_nat (65 + r)) acc)
      end
  end.
Definition get_column_letter (idx : nat) : string := column_letter_go idx idx "".

Definition max_column (ws : worksheet) : nat :=
  fold_right Nat.max 0%nat (map (@length cell) (rows ws)).

(** [len(str(cell.value)) if cell.value else 0]: an absent cell, the
    empty string and the number zero are falsy. *)
Definition cell_len (c : option cell) : nat :=
  match c with
  | None => 0%nat
  | Some (CStr s) => String.length s
  | Some (CInt n) => if Z.eqb n 0 then 0%nat else String.length (pretty n)
  end.

(** One column of [ws.columns]: the cells of column [j] (from 0), one
    per row, absent where the row is shorter. *)
Definition column (j : nat) (ws : worksheet) : list (option cell) :=
  map (fun r => nth_error r j) (rows ws).

(** The auto-sizing loop over [ws.columns]. *)
Definition autosize (ws : worksheet) : worksheet :=
  fold_left
    (fun w j =>
       let max_len := fold_right Nat.max 0%nat (map cell_len (column j ws)) in
       set_width (get_column_letter (S j)) (max_len + 2)%nat w)
    (seq 0 (max_column ws)) ws.

End Openpyxl.

(** ** The file system

    A path is the list of its components, [os.path.join] appends a
    component, and the file system below the working directory is a tree.
    The entries of a directory are kept in the order in which
    [os.scandir] lists them, which the platform chooses; a new entry goes
    last. *)

Module Fs.

Definition path : Type := list string.

(** What a file holds.  Documents, workbooks and archives are kept as
    the values handed to [save] and [ZipFile.write]; a CSV file is kept
    as its text. *)
Inductive content : Type :=
  | Bytes (s : string)
  | DocxFile (d : Docx.document)
  | XlsxFile (w : Openpyxl.workbook)
  | ZipFile (members : list (path * content)).

Inductive node : Type :=
  | File (c : content)
  | Dir (es : list (string * node)).

Definition is_dir (n : node) : bool :=
  match n with Dir _ => true | File _ => false end.
Definition is_file (n : node) : bool := negb (is_dir n).

Fixpoint lookup1 (x : string) (es : list (string * node)) : option node :=
  match es with
  | [] => None
  | (y, n) :: es' => if String.eqb y x then Some n else lookup1 x es'
  end.

(** Replace the entry named [x], or add it after the others. *)
Fixpoint set_entry (x : string) (n : node) (es : list (string * node))
    : list (string * node) :=
  match es with
  | [] => [(x, n)]
  | (y, m) :: es' =>
      if String.eqb y x then (x, n) :: es' else (y, m) :: set_entry x n es'
  end.

Fixpoint lookup (p : path) (t : node) : option node :=
  match p with
  | [] => Some t
  | x :: p' =>
      match t with
      | Dir es =>
          match lookup1 x es with
          | Some n => lookup p' n
          | None => None
          end
      | File _ => None
      end
  end.

(** The content of the file at [p], if [p] names a file. *)
Definition read_file (p : path) (t : node) : option content :=
  match lookup p t with
  | Some (File c) => Some c
  | _ => None
  end.

(** Put [new] at [p]; every proper ancestor of [p] has to be a
    directory already. *)
Fixpoint put (p : path) (new : node) (t : node) : option node :=
  match t, p with
  | Dir es, [x] => Some (Dir (set_entry x new es))
  | Dir es, x :: p' =>
      match lookup1 x es with
      | Some n =>
          match put p' new n with
          | Some n' => Some (Dir (set_entry x n' es))
          | None => None
          end
      | None => None
      end
  | _, _ => None
  end.

(** [open(p, "w")] and the [save] methods: create or truncate the file;
    the call fails on a directory and below a missing directory. *)
Definition write_node (p : path) (c : content) (t : node) : option node :=
  match lookup p t with
  | Some (Dir _) => None
  | _ => put p (File c) t
  end.

(** [os.mkdir]: fails when the name is taken. *)
Definition mkdir_node (p : path) (t : node) : option node :=
  match lookup p t with
  | Some _ => None
  | None => put p (Dir []) t
  end.

Definition dirnames (es : list (string * node)) : list string :=
  map fst (List.filter (fun e => is_dir (snd e)) es).
Definition filenames (es : list (string * node)) : list string :=
  map fst (List.filter (fun e => is_file (snd e)) es).

(** [os.walk(top)], top down: the directory itself, then the walk of
    each of its subdirectories in listing order.  A [top] that is not a
    directory yields nothing. *)
Fixpoint walk (root : path) (t : node) : list (path * list string * list string) :=
  match t with
  | File _ => []
  | Dir es =>
      (root, dirnames es, filenames es) ::
      (fix walk_entries (l : list (string * node)) :=
         match l with
         | [] => []
         | (x, n) :: l' => walk (root ++ [x]) n ++ walk_entries l'
         end) es
  end.

Definition walk_from (top : path) (t : node) : list (path * list string * list string) :=
  match lookup top t with
  | Some n => walk top n
  | None => []
  end.

(** [os.path.join] of the components, [os.path.basename] and
    [os.path.relpath] on paths without [.] and [..] components. *)
Fixpoint join_path (p : path) : string :=
  match p with
  | [] => ""
  | [x] => x
  | x :: p' => x +:+ "/" +:+ join_path p'
  end.

Definition basename (p : path) : string := List.last p "".

Fixpoint relpath (p start : path) : path :=
  match p, start with
  | x :: p', y :: start' =>
      if String.eqb x y then relpath p' start'
      else repeat ".." (length start) ++ p
  | _, _ => repeat ".." (length start) ++ p
  end.

(** Names on a directory level are distinct, at every level. *)
Fixpoint wf (t : node) : bool :=
  match t with
  | File _ => true
  | Dir es =>
      (fix wf_entries (l : list (string * node)) : bool :=
         match l with
         | [] => true
         | (x, n) :: l' =>
             negb (existsb (String.eqb x) (map fst l')) && wf n && wf_entries l'
         end) es
  end.

(** [ZipFile.extract] of one member: the directories on the way are
    created as needed, an existing file is replaced. *)
Fixpoint extract (p : path) (c : content) (t : node) : option node :=
  match t, p with
  | Dir es, [x] =>
      match lookup1 x es with
      | Some (Dir _) => None
      | _ => Some (Dir (set_entry x (File c) es))
      end
  | Dir es, x :: p' =>
      match extract p' c (default (Dir []) (lookup1 x es)) with
      | Some n' => Some (Dir (set_entry x n' es))
      | None => None
      end
  | _, _ => None
  end.

Fixpoint extractall (members : list (path * content)) (t : node) : option node :=
  match members with
  | [] => Some t
  | (p, c) :: ms =>
      match extract p c t with
      | Some t' => extractall ms t'
      | None => None
      end
  end.

End Fs.

(** ** Running the script: state, clock and failing writes

    The world of a run is the tree below the working directory, the
    number of readings of the clock so far, and the history of the
    attempted file-system writes.  The environment gives what the run
    does not decide: the reading of the clock at each [datetime.now()],
    the size [os.path.getsize] reports for a file, and which write
    attempts the platform refuses (permission denied, disk full).

    A Python exception is the [Raise] outcome; the script has no
    [try], so [bind] hands a [Raise] on and runs nothing after it. *)

Module Run.
Import Fs.

Inductive exn : Type :=
  | OSError (p : path)
  | IndexError.

Inductive result (A : Type) : Type :=
  | Ok (a : A)
  | Raise (e : exn).
Arguments Ok {A} a.
Arguments Raise {A} e.

Inductive event : Type :=
  | Mkdir (p : path)
  | Wrote (p : path) (c : content)
  | Failed (p : path).

Record world : Type := mkWorld {
  cwd : node;
  ticks : nat;
  trace : list event   (* oldest first *)
}.

Record env : Type := mkEnv {
  clock : nat -> string;
  getsize : content -> N;
  fault : nat -> bool
}.

Definition M (A : Type) : Type := world -> world * result A.

Definition ret {A} (a : A) : M A := fun w => (w, Ok a).
Definition raise {A} (e : exn) : M A := fun w => (w, Raise e).
Definition bind {A B} (m : M A) (k : A -> M B) : M B :=
  fun w =>
    match m w with
    | (w', Ok a) => k a w'
    | (w', Raise e) => (w', Raise e)
    end.

Notation "x <- m ;; k" := (bind m (fun x => k))
  (at level 100, m at level 99, right associativity).
Notation "m ;;; k" := (bind m (fun _ => k))
  (at level 100, k at level 200, right associativity).

Fixpoint for_each {A} (l : list A) (body : A -> M unit) : M unit :=
  match l with
  | [] => ret tt
  | x :: l' => body x ;;; for_each l' body
  end.

Fixpoint map_m {A B} (l : list A) (f : A -> M B) : M (list B) :=
  match l with
  | [] => ret []
  | x :: l' => y <- f x ;; ys <- map_m l' f ;; ret (y :: ys)
  end.

(** [datetime.now().strftime(...)] *)
Definition now (e : env) : M string :=
  fun w => (mkWorld (cwd w) (S (ticks w)) (trace w), Ok (clock e (ticks w))).

(** A write attempt: refused by the platform, or refused by the shape of
    the tree, or done.  A refused attempt leaves the tree as it was and
    is recorded as [Failed]. *)
Definition attempt (e : env) (p : path) (ev : event) (f : node -> option node) : M unit :=
  fun w =>
    if fault e (length (trace w)) then
      (mkWorld (cwd w) (ticks w) (trace w ++ [Failed p]), Raise (OSError p))
    else
      match f (cwd w) with
      | Some t' => (mkWorld t' (ticks w) (trace w ++ [ev]), Ok tt)
      | None => (mkWorld (cwd w) (ticks w) (trace w ++ [Failed p]), Raise (OSError p))
      end.

Definition write_file (e : env) (p : path) (c : content) : M unit :=
  attempt e p (Wrote p c) (write_node p c).

Definition mkdir (e : env) (p : path) : M unit :=
  attempt e p (Mkdir p) (mkdir_node p).

Definition isdir (p : path) : M bool :=
  fun w => (w, Ok (match lookup p (cwd w) with Some (Dir _) => true | _ => false end)).

(** [os.makedirs(p, exist_ok=True)]: every missing directory on the way
    is made; one that is there is left alone. *)
Fixpoint makedirs_from (e : env) (done todo : path) : M unit :=
  match todo with
  | [] => ret tt
  | x :: todo' =>
      let d := done ++ [x] in
      there <- isdir d ;;
      (if there then ret tt else mkdir e d) ;;;
      makedirs_from e d todo'
  end.
Definition makedirs (e : env) (p : path) : M unit := makedirs_from e [] p.

(** [os.walk(top)], listed at once: the loops over it make no change
    below [top] while they run. *)
Definition os_walk (top : path) : M (list (path * list string * list string)) :=
  fun w => (w, Ok (Fs.walk_from top (cwd w))).

(** The content of the file at [p], as [os.path.getsize] and
    [ZipFile.write] get at it; a path that names no file raises. *)
Definition fetch (p : path) : M content :=
  fun w =>
    (w, match read_file p (cwd w) with
        | Some c => Ok c
        | None => Raise (OSError p)
        end).

Definition os_path_getsize (e : env) (p : path) : M N :=
  c <- fetch p ;; ret (getsize e c).

End Run.

(** ** The script *)

Module Script.
Import Fs Run Docx Openpyxl.

(** [str.replace(old, new)] for one-character [old] and [new]. *)
Fixpoint replace_char (old new : ascii) (s : string) : string :=
  match s with
  | EmptyString => EmptyString
  | String c s' => String (if Ascii.eqb c old then new else c) (replace_char old new s')
  end.

(** [needle in hay] *)
Fixpoint contains (needle hay : string) : bool :=
  String.prefix needle hay ||
  match hay with
  | EmptyString => false
  | String _ hay' => contains needle hay'
  end.

(** *** Step 1: the folder structure *)

Definition create_phase_folders (e : env) : M unit :=
  for_each PHASES (fun phase => makedirs e [BASE_FOLDER; phase]) ;;;
  makedirs e [BASE_FOLDER; "Supporting_Files"].

(** *** Step 2: the files of each phase *)

Definition phase_document (phase : string) (generated_on : string) : document :=
  add_paragraph ("Generated on: " +:+ generated_on)
    (add_paragraph ("Phase: " +:+ replace_char "_" " " phase)
       (add_paragraph
          ("This document provides a structured cybersecurity implementation template for this phase. "
           +:+ "It includes objectives, responsibilities, and key controls.")
          (add_heading "Cybersecurity Phase Template" 0 Document))).

(** [[r[3] for r in table[1:]]]; a row of fewer than four entries
    raises [IndexError]. *)
Definition statuses_of (table : list (list string)) : option (list string) :=
  mapM (fun r => nth_error r 3) (tl table).

(** The rows of the data frame [df], as they are appended to the sheet. *)
Definition status_rows (statuses : list string) : list (list cell) :=
  map (fun kv => [CStr (fst kv); CInt (Z.of_nat (snd kv))]) (Pandas.value_counts statuses).

Definition dashboard_of (table : list (list string)) (trend : list (list cell))
    : option workbook :=
  match statuses_of table with
  | None => None
  | Some statuses =>
      let wb := Workbook in
      (* Sheet 1: Controls *)
      let ws := active in
      let wb := on_sheet ws (set_sheet_title "Controls") wb in
      let wb := on_sheet ws (append_all (map (map CStr) table)) wb in
      let wb := on_sheet ws autosize wb in
      (* Sheet 2: Status Summary *)
      let df := status_rows statuses in
      let '(wb, ws2) := create_sheet "Status Summary" wb in
      let wb := on_sheet ws2 (append [CStr "Status"; CStr "Count"]) wb in
      let wb := on_sheet ws2 (append_all df) wb in
      let data_ref := Reference "Status Summary" 2 1 None (Some (length df + 1)%nat) in
      let labels_ref := Reference "Status Summary" 1 2 None (Some (length df + 1)%nat) in
      let pie := new_chart PieChart in
      let bar := new_chart BarChart in
      let pie := add_data data_ref true pie in
      let pie := set_categories labels_ref pie in
      let pie := set_title "Control Status Distribution" pie in
      let bar := add_data data_ref true bar in
      let bar := set_categories labels_ref bar in
      let bar := set_title "Control Status by Count" bar in
      let wb := on_sheet ws2 (add_chart pie "D2") wb in
      let wb := on_sheet ws2 (add_chart bar "D20") wb in
      (* Sheet 3: Compliance Trend *)
      let '(wb, ws3) := create_sheet "Compliance Trend" wb in
      let wb := on_sheet ws3 (append_all trend) wb in
      let data_ref_trend := Reference "Compliance Trend" 2 1 None (Some (length trend)) in
      let labels_ref_trend := Reference "Compliance Trend" 1 2 None (Some (length trend)) in
      let line := new_chart LineChart in
      let line := add_data data_ref_trend true line in
      let line := set_categories labels_ref_trend line in
      let line := set_title "Monthly Compliance Trend" line in
      let line := set_y_axis_title "Compliance (%)" line in
      let wb := on_sheet ws3 (add_chart line "D4") wb in
      Some wb
  end.

Definition dashboard : option workbook := dashboard_of SAMPLE_DATA TREND_DATA.

Definition doc_path (phase : string) : path :=
  [BASE_FOLDER; phase; phase +:+ "_Template.docx"].
Definition xlsx_path (phase : string) : path :=
  [BASE_FOLDER; phase; phase +:+ "_Dashboard.xlsx"].
Definition csv_path (phase : string) : path :=
  [BASE_FOLDER; phase; phase +:+ "_Data.csv"].

(** The body of the loop over [PHASES].  The progress bar and the
    pause at the end of each round touch neither the files nor the
    clock readings and are left out. *)
Definition generate_phase (e : env) (phase : string) : M unit :=
  (* DOCX *)
  generated_on <- now e ;;
  write_file e (doc_path phase) (DocxFile (phase_document phase generated_on)) ;;;
  (* XLSX *)
  wb <- match dashboard with Some wb => ret wb | None => raise IndexError end ;;
  write_file e (xlsx_path phase) (XlsxFile wb) ;;;
  (* CSV *)
  write_file e (csv_path phase) (Bytes (Csv.writerows SAMPLE_DATA)).

Definition generate_phase_files (e : env) : M unit :=
  for_each PHASES (generate_phase e).

(** *** Step 3: the summary files *)

(** A row of the summary.  [Total_Size_KB] is a float with at most two
    decimals; it is kept as the number of hundredths. *)
Record summary_row : Type := mkRow {
  Phase : string;
  Files : nat;
  Total_Size_KB : Z;
  Last_Updated : string
}.

(** [round(total / 1024, 2)].  The division by 1024 is exact in binary
    floating point for totals below 2^53 and [round] rounds the exact
    value to the nearest hundredth, ties to the even one. *)
Definition round_kb (total : N) : Z :=
  let n := (Z.of_N total * 100)%Z in
  let q := (n / 1024)%Z in
  let r := (n mod 1024)%Z in
  if (r <? 512)%Z then q
  else if (512 <? r)%Z then (q + 1)%Z
  else if Z.even q then q else (q + 1)%Z.

(** [str] of such a float: the shortest decimal that reads back. *)
Definition float_str (hundredths : Z) : string :=
  let i := (hundredths / 100)%Z in
  let f := (hundredths mod 100)%Z in
  pretty i +:+ "." +:+
  (if (f mod 10 =? 0)%Z then pretty (f / 10)%Z
   else if (f <? 10)%Z then "0" +:+ pretty f
   else pretty f).

Definition summarize (e : env) (entry : path * list string * list string)
    : M (list summary_row) :=
  let '(root, _, files) := entry in
  if negb (Nat.eqb (length files) 0) && contains "Phase_" (join_path root) then
    let phase_name := basename root in
    sizes <- map_m files (fun f => os_path_getsize e (root ++ [f])) ;;
    let total := fold_right N.add 0%N sizes in
    last_updated <- now e ;;
    ret [mkRow phase_name (length files) (round_kb total) last_updated]
  else ret [].

(** [DataFrame.to_csv(path, index=False)]: the header and one line per
    row, written with the line separator of the platform. *)
Definition summary_header : list string :=
  ["Phase"; "Files"; "Total_Size_KB"; "Last_Updated"].
Definition summary_fields (r : summary_row) : list string :=
  [Phase r; pretty (Files r); float_str (Total_Size_KB r); Last_Updated r].
Definition to_csv (df : list summary_row) : string :=
  let nl := String Csv.LF EmptyString in
  match df with
  | [] => Csv.writerow_with nl []
  | _ => Csv.writerows_with nl (summary_header :: map summary_fields df)
  end.

Definition summary_path : path := [BASE_FOLDER; "Supporting_Files"; "export_summary.csv"].
Definition executive_path : path := [BASE_FOLDER; "Cybersecurity_Executive_Summary.docx"].

Definition executive_document (generated_on : string) (df : list summary_row) : document :=
  let doc := Document in
  let doc := add_heading "Cybersecurity Program â€“ Executive Summary" 0 doc in
  let doc := add_paragraph ("Report generated on: " +:+ generated_on) doc in
  let doc := add_paragraph "This document provides an overview of all cybersecurity implementation phases, key metrics, and control status distribution." doc in
  let doc := add_heading "Phase Overview" 1 doc in
  let doc := add_table (["Phase"; "Files"; "Total Size (KB)"; "Last Updated"]
                        :: map summary_fields df) doc in
  let doc := add_paragraph (String Csv.LF "Overall compliance shows steady improvement across all phases, with most controls marked as 'Completed' or 'Active'.") doc in
  let doc := add_heading "Recommendations" 1 doc in
  let doc := add_paragraph "- Continue quarterly user access reviews." doc in
  let doc := add_paragraph "- Increase automation coverage for vulnerability management." doc in
  let doc := add_paragraph "- Schedule an annual review of SOC incident response procedures." doc in
  let doc := add_paragraph "- Maintain awareness and training programs for new staff." doc in
  doc.

Definition generate_summary_report (e : env) : M unit :=
  entries <- os_walk [BASE_FOLDER] ;;
  summary <- map_m entries (summarize e) ;;
  let df_summary := concat summary in
  write_file e summary_path (Bytes (to_csv df_summary)) ;;;
  (* Executive Summary Word Report *)
  generated_on <- now e ;;
  write_file e executive_path (DocxFile (executive_document generated_on df_summary)).

(** *** Step 4: the archive *)

Definition zip_filename : path := [BASE_FOLDER +:+ ".zip"].

Definition zip_members (entries : list (path * list string * list string))
    : M (list (path * content)) :=
  ms <- map_m entries (fun entry =>
          let '(root, _, files) := entry in
          map_m files (fun file =>
            c <- fetch (root ++ [file]) ;;
            ret (relpath (root ++ [file]) [BASE_FOLDER], c))) ;;
  ret (concat ms).

Definition create_zip_archive (e : env) : M unit :=
  entries <- os_walk [BASE_FOLDER] ;;
  members <- zip_members entries ;;
  write_file e zip_filename (ZipFile members).

(** *** The main run *)

Definition main (e : env) : M unit :=
  create_phase_folders e ;;;
  generate_phase_files e ;;;
  generate_summary_report e ;;;
  create_zip_archive e.

End Script.

(** * Notions used in the statements *)

(** ** Notions about the tally *)

Module Tally.
Import Pandas.

Definition count_sum (t : list (string * nat)) : nat :=
  fold_right (fun kv acc => (snd kv + acc)%nat) 0%nat t.

Definition occurrences (s : string) (l : list string) : nat :=
  length (List.filter (fun x => String.eqb x s) l).

Fixpoint assoc (s : string) (t : list (string * nat)) : option nat :=
  match t with
  | [] => None
  | (k, n) :: t' => if String.eqb k s then Some n else assoc s t'
  end.

(** The rows come largest count first. *)
Definition desc (a b : string * nat) : Prop := (snd b <= snd a)%nat.

End Tally.

(** ** Notions about trees *)

Module Trees.
Import Fs.

(** [sub t T]: whatever is found in [t] is found in [T], a file with
    the same content and a directory as a directory. *)
Definition sub (t T : node) : Prop :=
  forall q,
    match lookup q t with
    | Some (File c) => lookup q T = Some (File c)
    | Some (Dir _) => exists es, lookup q T = Some (Dir es)
    | None => True
    end.

End Trees.

(** ** Histories of runs *)

Module Histories.
Import Fs Run.

Definition apply_event (ev : event) (t : node) : option node :=
  match ev with
  | Mkdir p => mkdir_node p t
  | Wrote p c => write_node p c t
  | Failed _ => Some t
  end.

Fixpoint replay (evs : list event) (t : node) : option node :=
  match evs with
  | [] => Some t
  | ev :: evs' =>
      match apply_event ev t with
      | Some t' => replay evs' t'
      | None => None
      end
  end.

Definition is_failed (ev : event) : bool :=
  match ev with Failed _ => true | _ => false end.

Definition no_failed (evs : list event) : Prop :=
  forallb (fun ev => negb (is_failed ev)) evs = true.

(** The files written by a history, oldest first. *)
Fixpoint writes (evs : list event) : list (path * content) :=
  match evs with
  | [] => []
  | Wrote p c :: evs' => (p, c) :: writes evs'
  | _ :: evs' => writes evs'
  end.

(** A failed attempt is the last event of a run and the run ends with
    the exception it raised. *)
Definition outcome {A} (evs : list event) (r : result A) : Prop :=
  no_failed evs \/
  exists evs0 p, evs = evs0 ++ [Failed p] /\ no_failed evs0 /\ r = Raise (OSError p).

(** The attempts the platform refuses are failed attempts. *)
Definition honours (e : env) (start : nat) (evs : list event) : Prop :=
  forall i ev, nth_error evs i = Some ev -> fault e (start + i) = true -> is_failed ev = true.

Record effect_at {A} (e : env) (m : M A) (w : world) (evs : list event) : Prop := {
  eff_trace : trace (fst (m w)) = trace w ++ evs;
  eff_tree : replay evs (cwd w) = Some (cwd (fst (m w)));
  eff_ticks : (ticks w <= ticks (fst (m w)))%nat;
  eff_outcome : outcome evs (snd (m w));
  eff_honours : honours e (length (trace w)) evs
}.

Definition effect {A} (e : env) (m : M A) : Prop :=
  forall w, exists evs, effect_at e m w evs.

End Histories.

(** ** Notions about the stages *)

Module Stages.
Import Fs Run Script Histories.

(** [extends w w' W]: a run from [w] to [w'] wrote the files [W], in
    that order, and changed no other file. *)
Definition extends (w w' : world) (W : list (path * content)) : Prop :=
  exists evs,
    trace w' = trace w ++ evs /\ writes evs = W /\
    replay evs (cwd w) = Some (cwd w').

(** The workbook every phase gets. *)
Definition the_dashboard : Openpyxl.workbook := default [] dashboard.

Definition phase_writes (e : env) (n : nat) (phase : string) : list (path * content) :=
  [ (doc_path phase, DocxFile (phase_document phase (clock e n)));
    (xlsx_path phase, XlsxFile the_dashboard);
    (csv_path phase, Bytes (Csv.writerows SAMPLE_DATA)) ].

Definition all_phase_writes (e : env) (n : nat) (l : list string)
    : list (path * content) :=
  concat (map (fun ix => phase_writes e (n + fst ix) (snd ix))
              (combine (seq 0 (length l)) l)).

(** The walked directories that get a row. *)
Definition selects (entry : path * list string * list string) : bool :=
  negb (Nat.eqb (length (snd entry)) 0) && contains "Phase_" (join_path (fst (fst entry))).

(** The row of the directory [root] with the files [files], made at the
    [i]-th reading of the clock. *)
Definition row_ok (e : env) (t : node) (i : nat)
    (entry : path * list string * list string) (row : summary_row) : Prop :=
  Phase row = basename (fst (fst entry)) /\
  Files row = length (snd entry) /\
  Last_Updated row = clock e i /\
  exists contents,
    List.Forall2 (fun f c => read_file (fst (fst entry) ++ [f]) t = Some c)
                 (snd entry) contents /\
    Total_Size_KB row = round_kb (fold_right N.add 0%N (map (getsize e) contents)).

Definition rows_ok (e : env) (t : node) (n : nat)
    (entries : list (path * list string * list string)) (df : list summary_row) : Prop :=
  List.Forall2 (fun ie row => row_ok e t (n + fst ie) (snd ie) row)
               (combine (seq 0 (length entries)) entries) df.

Definition members_ok (t : node) (entries : list (path * list string * list string))
    (members : list (path * content)) : Prop :=
  exists mss,
    members = concat mss /\
    List.Forall2
      (fun entry ms =>
         List.Forall2
           (fun f m =>
              exists c, read_file (fst (fst entry) ++ [f]) t = Some c /\
                        m = (relpath (fst (fst entry) ++ [f]) [BASE_FOLDER], c))
           (snd entry) ms)
      entries mss.

Definition phase_files (phase : string) : list string :=
  [phase +:+ "_Template.docx"; phase +:+ "_Dashboard.xlsx"; phase +:+ "_Data.csv"].

(** [open(p, "w")] works where the parent of [p] is a directory and
    [p] is not one. *)
Definition writable (t : node) (p : path) : bool :=
  match p with
  | [] => false
  | _ =>
      match lookup (removelast p) t with
      | Some (Dir _) =>
          match lookup p t with
          | Some (Dir _) => false
          | _ => true
          end
      | _ => false
      end
  end.



(** The paths a run writes below the output root. *)
Definition generated_paths : list path :=
  flat_map (fun phase => [doc_path phase; xlsx_path phase; csv_path phase]) PHASES
  ++ [summary_path; executive_path].

End Stages.

(** ** Notions about the workbook *)

Module Sheets.
Import Openpyxl Script.

(** The count of a (status, count) row. *)
Definition row_count (r : list cell) : Z :=
  match r with
  | [_; CInt n] => n
  | _ => 0
  end.

Definition sum_counts (rs : list (list cell)) : Z :=
  fold_right (fun r acc => row_count r + acc) 0 rs.

Definition width_of (letter : string) (ws : worksheet) : option nat :=
  snd <$> List.find (fun e => String.eqb (fst e) letter) (column_dimensions ws).

Definition rows_desc : list (list cell) -> Prop :=
  Sorted (fun r1 r2 => row_count r2 <= row_count r1).

End Sheets.

(** ** Runs to try the statements on, and notions of the statements *)

Module Samples.
Import Fs Run Script Stages.

(** A run to try the statements on: a clock that ticks once per
    reading, sizes by the length of the text, and no refused write. *)
Definition sample_env : env :=
  mkEnv (fun n => "2025-11-04 12:00:0" +:+ pretty n)
        (fun c => match c with
                  | Bytes s => N.of_nat (String.length s)
                  | _ => 36500%N
                  end)
        (fun _ => false).

(** An empty working directory. *)
Definition fresh : world := mkWorld (Dir []) 0 [].

(** The working directory after the folders were made. *)
Definition prepared : world := fst (create_phase_folders sample_env fresh).

(** The working directory after the per-phase files were written, and
    after the summary was. *)
Definition generated : world := fst (generate_phase_files sample_env prepared).

Definition summarized : world := fst (generate_summary_report sample_env generated).

(** [d] holds a file named [f]. *)
Definition holds_file (t : node) (d : path) (f : string) : Prop :=
  is_Some (read_file (d ++ [f]) t).

(** The sheets of the workbook, by position. *)
Definition sheet (i : nat) : Openpyxl.worksheet :=
  nth i the_dashboard (Openpyxl.mkSheet "" [] [] []).

(** The longest entry of column [j] (from 0) of the control records. *)
Definition longest (j : nat) : nat :=
  fold_right Nat.max 0%nat (map (fun r => String.length (nth j r "")) SAMPLE_DATA).

(** What matters of an anchored chart: kind, data ranges, categories
    and anchor. *)
Definition chart_layout (ca : Openpyxl.chart * string)
    : Openpyxl.chart_kind * list (Openpyxl.reference * bool)
      * option Openpyxl.reference * string :=
  (Openpyxl.kind (fst ca), Openpyxl.data (fst ca), Openpyxl.categories (fst ca), snd ca).

(** A working directory in which the directory of the first phase is
    there already and holds a file of its own. *)
Definition stale : world :=
  mkWorld
    (Dir [(BASE_FOLDER,
           Dir [("Phase_1_Governance_Risk_SOC",
                 Dir [("notes.txt", File (Bytes "keep"))])])])
    0 [].

Definition stale_prepared : world := fst (create_phase_folders sample_env stale).

Definition stale_generated : world := fst (generate_phase_files sample_env stale_prepared).

(** A second clock, an hour later. *)
Definition later_env : env :=
  mkEnv (fun n => "2025-11-04 13:00:0" +:+ pretty n) (getsize sample_env) (fault sample_env).

(** A platform that refuses the thirteenth write attempt. *)
Definition failing_env : env :=
  mkEnv (clock sample_env) (getsize sample_env) (fun i => Nat.eqb i 12).

End Samples.

(** ** Notions of the further properties *)

Module Edges.
Import Fs Run Script Histories Stages Samples.

(** The folders [create_phase_folders] makes. *)
Definition folder_paths : list path :=
  map (fun phase => [BASE_FOLDER; phase]) PHASES ++ [[BASE_FOLDER; "Supporting_Files"]].

(** No file stands at [p] or on the way to it. *)
Definition free_way (t : node) (p : path) : bool :=
  forallb (fun k => match read_file (firstn k p) t with None => true | Some _ => false end)
          (seq 1 (length p)).

(** [p] names a directory, as [os.path.isdir] tells. *)
Definition is_dir_at (t : node) (p : path) : bool :=
  match lookup p t with Some (Dir _) => true | _ => false end.

(** What a call of [makedirs] may change: no file, no reading of the
    clock, and no directory is lost. *)
Definition keeps (w w' : world) : Prop :=
  (forall q, read_file q (cwd w') = read_file q (cwd w)) /\
  (forall q, is_dir_at (cwd w) q = true -> is_dir_at (cwd w') q = true) /\
  ticks w' = ticks w.

(** What a write may change: no directory. *)
Definition same_dirs (w w' : world) : Prop :=
  forall q, is_dir_at (cwd w') q = is_dir_at (cwd w) q.

(** A working directory in which a phase folder holds a folder of its
    own with a file in it. *)
Definition nested : world :=
  mkWorld
    (Dir [(BASE_FOLDER,
           Dir [("Phase_1_Governance_Risk_SOC",
                 Dir [("notes.txt", File (Bytes "keep"));
                      ("evidence", Dir [("scan.txt", File (Bytes "clean"))])])])])
    0 [].


(** A working directory in which a file has the name of the output
    root. *)
Definition blocked : world :=
  mkWorld (Dir [(BASE_FOLDER, File (Bytes "not a folder"))]) 0 [].

(** The paths the per-phase stage writes to. *)
Definition phase_paths_of (phase : string) : list path :=
  [doc_path phase; xlsx_path phase; csv_path phase].

(** The folder of [phase] is there and none of its three files is a
    directory. *)
Definition phase_ready (t : node) (phase : string) : bool :=
  is_dir_at t [BASE_FOLDER; phase] &&
  forallb (fun p => negb (is_dir_at t p)) (phase_paths_of phase).

(** The files a run writes: the files below the output root and the
    archive beside it. *)
Definition output_paths : list path := generated_paths ++ [zip_filename].

(** A working directory a run can start in: a directory with distinct
    names on every level, in which no file stands at one of the six
    folders or on the way to it and no directory has the name of a file
    the run writes. *)
Definition can_start (t : node) : bool :=
  wf t && is_dir t &&
  forallb (free_way t) folder_paths &&
  forallb (fun p => negb (is_dir_at t p)) output_paths.

(** The line separator [pandas] writes with, and the strings without a
    carriage return. *)
Definition linesep : string := String Csv.LF EmptyString.

Definition no_CR (s : string) : bool := negb (Csv.in_string Csv.CR s).

(** [frame S m]: whatever its outcome, [m] leaves every file as it was
    but those at the paths of [S]. *)
Definition frame {A} (S : list path) (m : M A) : Prop :=
  forall w q, ~ In q S -> read_file q (cwd (fst (m w))) = read_file q (cwd w).

End Edges.

(** * Properties *)

(** ** The CSV reader undoes the CSV writer *)

Module CsvFacts.
Import Csv.

Lemma chars_app a b :
  list_ascii_of_string (a +:+ b) = list_ascii_of_string a ++ list_ascii_of_string b.
Proof. induction a as [|c a IH]; simpl; [reflexivity|]. now rewrite IH. Qed.

Lemma feed_cons r c rest :
  feed r (c :: rest) =
  match step r c with
  | None => None
  | Some r' => feed (if line_ends c rest then step_eol r' else r') rest
  end.
Proof. reflexivity. Qed.

(** A character that needs no quoting is neither the delimiter, nor the
    quote character, nor a line end. *)
Lemma plain_char c :
  is_special lineterminator c = false ->
  Ascii.eqb c delimiter = false /\ Ascii.eqb c quotechar = false /\
  Ascii.eqb c CR = false /\ Ascii.eqb c LF = false.
Proof.
  unfold is_special, in_string, lineterminator. simpl.
  rewrite !orb_false_iff. tauto.
Qed.

Lemma plain_chars f :
  needs_quote lineterminator f = false ->
  List.Forall (fun c => is_special lineterminator c = false) (list_ascii_of_string f).
Proof.
  unfold needs_quote. induction (list_ascii_of_string f) as [|c cs IH]; simpl.
  - constructor.
  - rewrite orb_false_iff. intros [Hc Hcs]. constructor; auto.
Qed.

Lemma line_goes_on c rest :
  Ascii.eqb c CR = false -> Ascii.eqb c LF = false -> rest <> [] ->
  line_ends c rest = false.
Proof.
  unfold line_ends. intros -> -> Hr. destruct rest; [contradiction|reflexivity].
Qed.

(** *** The steps of the automaton on the characters the writer emits *)

Lemma step_plain_in_field c fd fds recs :
  is_special lineterminator c = false ->
  step (mkReader IN_FIELD fd fds recs) c = Some (mkReader IN_FIELD (c :: fd) fds recs).
Proof.
  intros H. destruct (plain_char c H) as (Hd & Hq & Hcr & Hlf).
  unfold step, is_nl. simpl. now rewrite Hcr, Hlf, Hd.
Qed.

Lemma step_plain_at_start st c fd fds recs :
  st = START_RECORD \/ st = START_FIELD ->
  is_special lineterminator c = false ->
  step (mkReader st fd fds recs) c = Some (mkReader IN_FIELD (c :: fd) fds recs).
Proof.
  intros Hst H. destruct (plain_char c H) as (Hd & Hq & Hcr & Hlf).
  destruct Hst as [-> | ->]; unfold step, is_nl; simpl; now rewrite Hcr, Hlf, Hq, Hd.
Qed.

Lemma step_quote_at_start st fd fds recs :
  st = START_RECORD \/ st = START_FIELD ->
  step (mkReader st fd fds recs) quotechar = Some (mkReader IN_QUOTED_FIELD fd fds recs).
Proof. intros [-> | ->]; reflexivity. Qed.

Lemma step_quote_in_quoted fd fds recs :
  step (mkReader IN_QUOTED_FIELD fd fds recs) quotechar
  = Some (mkReader QUOTE_IN_QUOTED_FIELD fd fds recs).
Proof. reflexivity. Qed.

Lemma step_quote_after_quote fd fds recs :
  step (mkReader QUOTE_IN_QUOTED_FIELD fd fds recs) quotechar
  = Some (mkReader IN_QUOTED_FIELD (quotechar :: fd) fds recs).
Proof. reflexivity. Qed.

Lemma step_other_in_quoted c fd fds recs :
  Ascii.eqb c quotechar = false ->
  step (mkReader IN_QUOTED_FIELD fd fds recs) c
  = Some (mkReader IN_QUOTED_FIELD (c :: fd) fds recs).
Proof. intros H. unfold step. simpl. now rewrite H. Qed.

Lemma step_delimiter st fd fds recs :
  st <> IN_QUOTED_FIELD -> st <> EAT_CRNL ->
  step (mkReader st fd fds recs) delimiter
  = Some (mkReader START_FIELD [] (string_of_list_ascii (rev fd) :: fds) recs).
Proof. destruct st; intros H1 H2; try reflexivity; contradiction. Qed.

Lemma step_CR st fd fds recs :
  st = START_FIELD \/ st = IN_FIELD \/ st = QUOTE_IN_QUOTED_FIELD ->
  step (mkReader st fd fds recs) CR
  = Some (mkReader EAT_CRNL [] (string_of_list_ascii (rev fd) :: fds) recs).
Proof. intros [-> | [-> | ->]]; reflexivity. Qed.

Lemma eol_in_quoted (b : bool) fd fds recs :
  (if b then step_eol (mkReader IN_QUOTED_FIELD fd fds recs)
   else mkReader IN_QUOTED_FIELD fd fds recs)
  = mkReader IN_QUOTED_FIELD fd fds recs.
Proof. destruct b; reflexivity. Qed.

(** The end of a record: CR, LF and the end of the line. *)
Lemma feed_CRLF_after_field st fd fds recs rest :
  st = START_FIELD \/ st = IN_FIELD \/ st = QUOTE_IN_QUOTED_FIELD ->
  feed (mkReader st fd fds recs) (CR :: LF :: rest)
  = feed (mkReader START_RECORD [] []
            (rev (string_of_list_ascii (rev fd) :: fds) :: recs)) rest.
Proof. intros Hst. rewrite feed_cons, (step_CR st) by assumption. reflexivity. Qed.

Lemma feed_CRLF_at_start fd recs rest :
  feed (mkReader START_RECORD fd [] recs) (CR :: LF :: rest)
  = feed (mkReader START_RECORD [] [] ([] :: recs)) rest.
Proof. reflexivity. Qed.

(** *** Fields *)

(** The characters of an unquoted field. *)
Lemma feed_plain cs : forall fd fds recs rest,
  List.Forall (fun c => is_special lineterminator c = false) cs ->
  rest <> [] ->
  feed (mkReader IN_FIELD fd fds recs) (cs ++ rest)
  = feed (mkReader IN_FIELD (rev cs ++ fd) fds recs) rest.
Proof.
  induction cs as [|c cs IH]; intros fd fds recs rest Hall Hrest; [reflexivity|].
  inversion Hall as [|? ? Hc Hcs]; subst.
  destruct (plain_char c Hc) as (Hd & Hq & Hcr & Hlf).
  change ((c :: cs) ++ rest) with (c :: cs ++ rest).
  rewrite feed_cons, step_plain_in_field by assumption.
  rewrite line_goes_on by first [assumption | destruct cs; [assumption|discriminate]].
  rewrite IH by assumption. simpl rev. now rewrite <- app_assoc.
Qed.

Lemma feed_plain_at_start st c cs fd fds recs rest :
  st = START_RECORD \/ st = START_FIELD ->
  List.Forall (fun c => is_special lineterminator c = false) (c :: cs) ->
  rest <> [] ->
  feed (mkReader st fd fds recs) ((c :: cs) ++ rest)
  = feed (mkReader IN_FIELD (rev (c :: cs) ++ fd) fds recs) rest.
Proof.
  intros Hst Hall Hrest. inversion Hall as [|? ? Hc Hcs]; subst.
  destruct (plain_char c Hc) as (Hd & Hq & Hcr & Hlf).
  change ((c :: cs) ++ rest) with (c :: cs ++ rest).
  rewrite feed_cons, (step_plain_at_start st) by assumption.
  rewrite line_goes_on by first [assumption | destruct cs; [assumption|discriminate]].
  rewrite feed_plain by assumption. simpl rev. now rewrite <- app_assoc.
Qed.

(** The characters of a quoted field, between the quotes. *)
Lemma feed_quoted s : forall fd fds recs rest,
  rest <> [] ->
  feed (mkReader IN_QUOTED_FIELD fd fds recs) (list_ascii_of_string (escape s) ++ rest)
  = feed (mkReader IN_QUOTED_FIELD (rev (list_ascii_of_string s) ++ fd) fds recs) rest.
Proof.
  induction s as [|c s IH]; intros fd fds recs rest Hrest; [reflexivity|].
  assert (Hnext : list_ascii_of_string (escape s) ++ rest <> [])
    by (destruct (list_ascii_of_string (escape s)); [assumption|discriminate]).
  replace (rev (list_ascii_of_string (String c s)) ++ fd)
    with (rev (list_ascii_of_string s) ++ c :: fd)
    by (simpl; now rewrite <- app_assoc).
  simpl escape. destruct (Ascii.eqb c quotechar) eqn:Hq.
  - apply Ascii.eqb_eq in Hq. subst c.
    change (list_ascii_of_string (String quotechar (String quotechar (escape s))) ++ rest)
      with (quotechar :: quotechar :: list_ascii_of_string (escape s) ++ rest).
    rewrite feed_cons, step_quote_in_quoted.
    rewrite line_goes_on by (reflexivity || discriminate).
    rewrite feed_cons, step_quote_after_quote.
    rewrite line_goes_on by (reflexivity || assumption).
    now apply IH.
  - change (list_ascii_of_string (String c (escape s)) ++ rest)
      with (c :: list_ascii_of_string (escape s) ++ rest).
    rewrite feed_cons, step_other_in_quoted by assumption.
    rewrite eol_in_quoted. now apply IH.
Qed.

Lemma string_of_rev_rev s fd :
  fd = rev (list_ascii_of_string s) -> string_of_list_ascii (rev fd) = s.
Proof. intros ->. now rewrite rev_involutive, string_of_list_ascii_of_string. Qed.

(** A written field, up to the character after it: the reader holds
    the characters of the field and is ready for a delimiter or a line
    end, unless the field is empty, unquoted and first in its record. *)
Lemma feed_field q f st fds recs rest :
  st = START_RECORD \/ st = START_FIELD ->
  q = true \/ needs_quote lineterminator f = false ->
  rest <> [] ->
  exists st',
    feed (mkReader st [] fds recs) (list_ascii_of_string (write_field q f) ++ rest)
    = feed (mkReader st' (rev (list_ascii_of_string f)) fds recs) rest /\
    (st' = IN_FIELD \/ st' = QUOTE_IN_QUOTED_FIELD \/
     (st' = st /\ q = false /\ f = "")).
Proof.
  intros Hst Hq Hrest. unfold write_field. destruct q.
  - exists QUOTE_IN_QUOTED_FIELD. split; [|auto].
    change (list_ascii_of_string
              (String quotechar (escape f +:+ String quotechar EmptyString)) ++ rest)
      with (quotechar :: list_ascii_of_string (escape f +:+ String quotechar EmptyString)
                         ++ rest).
    rewrite chars_app, <- app_assoc.
    rewrite feed_cons, (step_quote_at_start st) by assumption.
    rewrite line_goes_on
      by first [reflexivity | destruct (list_ascii_of_string (escape f)); discriminate].
    rewrite feed_quoted by discriminate.
    rewrite app_nil_r.
    change (list_ascii_of_string (String quotechar EmptyString) ++ rest)
      with (quotechar :: rest).
    rewrite feed_cons, step_quote_in_quoted.
    now rewrite line_goes_on by (reflexivity || assumption).
  - destruct Hq as [Hq|Hq]; [discriminate|].
    pose proof (plain_chars f Hq) as Hall.
    destruct (list_ascii_of_string f) as [|c cs] eqn:Ef.
    + exists st. split; [reflexivity|].
      right. right. repeat split. destruct f; [reflexivity|discriminate].
    + exists IN_FIELD. split; [|auto].
      rewrite (feed_plain_at_start st) by assumption. now rewrite app_nil_r.
Qed.

(** *** Records *)

Lemma chars_terminated s rest :
  list_ascii_of_string (s +:+ lineterminator) ++ rest
  = list_ascii_of_string s ++ CR :: LF :: rest.
Proof. rewrite chars_app, <- app_assoc. reflexivity. Qed.

(** The fields of a record and its line end. *)
Lemma feed_fields fs : forall st fds recs rest,
  fs <> [] ->
  st = START_RECORD \/ st = START_FIELD ->
  st = START_FIELD \/ fs <> [""] ->
  feed (mkReader st [] fds recs)
       (list_ascii_of_string (join_fields lineterminator fs) ++ CR :: LF :: rest)
  = feed (mkReader START_RECORD [] [] (rev (rev fs ++ fds) :: recs)) rest.
Proof.
  induction fs as [|f fs IH]; intros st fds recs rest Hne Hst Hok; [contradiction|].
  assert (Hq : needs_quote lineterminator f = true \/ needs_quote lineterminator f = false)
    by (destruct (needs_quote lineterminator f); auto).
  destruct fs as [|f' fs].
  - simpl join_fields.
    destruct (feed_field (needs_quote lineterminator f) f st fds recs (CR :: LF :: rest)
                Hst Hq ltac:(discriminate)) as (st' & -> & Hst').
    assert (Hready : st' = START_FIELD \/ st' = IN_FIELD \/ st' = QUOTE_IN_QUOTED_FIELD).
    { destruct Hst' as [->|[->|(-> & _ & ->)]]; auto.
      destruct Hok as [->|Hok]; [auto|]. now destruct Hok. }
    rewrite feed_CRLF_after_field by assumption.
    now rewrite (string_of_rev_rev f).
  - change (join_fields lineterminator (f :: f' :: fs))
      with (write_field (needs_quote lineterminator f) f
            +:+ String delimiter (join_fields lineterminator (f' :: fs))).
    rewrite chars_app, <- app_assoc.
    change (list_ascii_of_string
              (String delimiter (join_fields lineterminator (f' :: fs)))
            ++ CR :: LF :: rest)
      with (delimiter :: list_ascii_of_string (join_fields lineterminator (f' :: fs))
                         ++ CR :: LF :: rest).
    destruct (feed_field (needs_quote lineterminator f) f st fds recs
                (delimiter :: list_ascii_of_string (join_fields lineterminator (f' :: fs))
                              ++ CR :: LF :: rest)
                Hst Hq ltac:(discriminate)) as (st' & -> & Hst').
    rewrite feed_cons, step_delimiter.
    + rewrite line_goes_on
        by first [reflexivity
                 | destruct (list_ascii_of_string (join_fields lineterminator (f' :: fs)));
                   discriminate].
      rewrite (string_of_rev_rev f) by reflexivity.
      rewrite IH by (discriminate || auto).
      do 3 f_equal. simpl rev. now rewrite <- !app_assoc.
    + destruct Hst' as [->|[->|(-> & _)]]; try discriminate.
      destruct Hst as [-> | ->]; discriminate.
    + destruct Hst' as [->|[->|(-> & _)]]; try discriminate.
      destruct Hst as [-> | ->]; discriminate.
Qed.

(** A written record is read back as that record. *)
Lemma feed_row row recs rest :
  feed (mkReader START_RECORD [] [] recs) (list_ascii_of_string (writerow row) ++ rest)
  = feed (mkReader START_RECORD [] [] (row :: recs)) rest.
Proof.
  unfold writerow, writerow_with.
  destruct row as [|f [|f' fs]]; rewrite chars_terminated.
  - apply feed_CRLF_at_start.
  - assert (Hq : needs_quote lineterminator f || String.eqb f "" = true
                 \/ needs_quote lineterminator f = false)
      by (destruct (needs_quote lineterminator f); auto).
    destruct (feed_field (needs_quote lineterminator f || String.eqb f "") f
                START_RECORD [] recs (CR :: LF :: rest)
                (or_introl eq_refl) Hq ltac:(discriminate)) as (st' & -> & Hst').
    assert (Hready : st' = START_FIELD \/ st' = IN_FIELD \/ st' = QUOTE_IN_QUOTED_FIELD).
    { destruct Hst' as [->|[->|(_ & Hq' & ->)]]; auto.
      rewrite orb_true_r in Hq'. discriminate. }
    rewrite feed_CRLF_after_field by assumption.
    now rewrite (string_of_rev_rev f).
  - rewrite feed_fields by (discriminate || auto).
    now rewrite app_nil_r, rev_involutive.
Qed.

Lemma feed_rows rows : forall recs,
  feed (mkReader START_RECORD [] [] recs) (list_ascii_of_string (writerows rows))
  = Some (mkReader START_RECORD [] [] (rev rows ++ recs)).
Proof.
  unfold writerows.
  induction rows as [|row rows IH]; intros recs; [reflexivity|].
  simpl writerows_with. rewrite chars_app.
  change (writerow_with lineterminator row) with (writerow row).
  rewrite feed_row, IH. simpl rev. now rewrite <- app_assoc.
Qed.

(** Whatever the rows, reading what the writer wrote gives them back. *)
Lemma read_writerows rows : read (writerows rows) = Some rows.
Proof.
  unfold read, reader0. rewrite feed_rows. unfold finish. simpl.
  now rewrite app_nil_r, rev_involutive.
Qed.

End CsvFacts.

(** ** The tally of [value_counts] *)

Module PandasFacts.
Import Pandas Tally.

Lemma count_sum_bump s t : count_sum (bump s t) = S (count_sum t).
Proof.
  induction t as [|[k n] t IH]; simpl; [reflexivity|].
  destruct (String.eqb k s); simpl; [reflexivity|]. rewrite IH. lia.
Qed.

Lemma count_sum_fold l : forall t,
  count_sum (fold_left (fun t s => bump s t) l t) = (length l + count_sum t)%nat.
Proof.
  induction l as [|s l IH]; intros t; simpl; [reflexivity|].
  rewrite IH, count_sum_bump. lia.
Qed.

Lemma count_sum_tally l : count_sum (tally l) = length l.
Proof. unfold tally. rewrite count_sum_fold. simpl. lia. Qed.

Lemma insert_desc_perm x t : Permutation (insert_desc x t) (x :: t).
Proof.
  induction t as [|y t IH]; simpl; [reflexivity|].
  destruct (snd y <=? snd x)%nat; [reflexivity|].
  rewrite IH. apply perm_swap.
Qed.

Lemma sort_desc_perm t : Permutation (sort_desc t) t.
Proof.
  induction t as [|x t IH]; simpl; [reflexivity|].
  rewrite insert_desc_perm. now constructor.
Qed.

Lemma count_sum_perm t u : Permutation t u -> count_sum t = count_sum u.
Proof. induction 1; simpl; lia. Qed.

Lemma count_sum_value_counts l : count_sum (value_counts l) = length l.
Proof.
  unfold value_counts.
  rewrite (count_sum_perm _ _ (sort_desc_perm (tally l))).
  apply count_sum_tally.
Qed.

Lemma insert_desc_hd x t a :
  desc a x -> HdRel desc a t -> HdRel desc a (insert_desc x t).
Proof.
  intros Hx Ht. destruct t as [|y t]; simpl; [now constructor|].
  destruct (snd y <=? snd x)%nat; constructor; [assumption|].
  now inversion Ht.
Qed.

Lemma insert_desc_sorted x t : Sorted desc t -> Sorted desc (insert_desc x t).
Proof.
  induction 1 as [|y t Hs IH Hh]; simpl; [repeat constructor|].
  destruct (snd y <=? snd x)%nat eqn:E.
  - apply Nat.leb_le in E. constructor; [now constructor|]. now constructor.
  - apply Nat.leb_gt in E. constructor; [assumption|].
    apply insert_desc_hd; [unfold desc; lia|assumption].
Qed.

Lemma sort_desc_sorted t : Sorted desc (sort_desc t).
Proof.
  induction t as [|x t IH]; simpl; [constructor|].
  now apply insert_desc_sorted.
Qed.

Lemma value_counts_sorted l : Sorted desc (value_counts l).
Proof. apply sort_desc_sorted. Qed.

(** Each value of the series has one row, which holds the number of its
    occurrences. *)
Lemma assoc_bump s k t :
  assoc k (bump s t) =
  if String.eqb s k then Some (S (default 0%nat (assoc k t))) else assoc k t.
Proof.
  induction t as [|[k' n] t IH]; simpl.
  - rewrite String.eqb_sym. destruct (String.eqb k s); reflexivity.
  - destruct (String.eqb k' s) eqn:E1; simpl.
    + apply String.eqb_eq in E1. subst k'.
      destruct (String.eqb s k); reflexivity.
    + destruct (String.eqb k' k) eqn:E2.
      * apply String.eqb_eq in E2. subst k'.
        rewrite String.eqb_sym, E1. reflexivity.
      * apply IH.
Qed.

Lemma assoc_fold k l : forall t,
  default 0%nat (assoc k (fold_left (fun t s => bump s t) l t))
  = (occurrences k l + default 0%nat (assoc k t))%nat.
Proof.
  unfold occurrences.
  induction l as [|s l IH]; intros t; simpl; [reflexivity|].
  rewrite IH, assoc_bump.
  destruct (String.eqb s k); simpl; lia.
Qed.

Lemma bump_keys s t : List.NoDup (map fst t) -> List.NoDup (map fst (bump s t)).
Proof.
  induction t as [|[k n] t IH]; simpl; intros Hnd.
  - repeat constructor. intros H. inversion H.
  - inversion Hnd as [|? ? Hk Ht]; subst.
    destruct (String.eqb k s) eqn:E; simpl; [now constructor|].
    constructor; [|now apply IH].
    intros Hin. apply Hk.
    clear -Hin E. induction t as [|[k' n'] t IH]; simpl in *.
    + destruct Hin as [H|[]]. subst.
      rewrite String.eqb_refl in E. discriminate.
    + destruct (String.eqb k' s); simpl in *; [assumption|].
      destruct Hin as [H|H]; [now left|right; now apply IH].
Qed.

Lemma bump_pos s t :
  Forall (fun kv => (0 < snd kv)%nat) t -> Forall (fun kv => (0 < snd kv)%nat) (bump s t).
Proof.
  induction 1 as [|[k n] t Hk Ht IH]; simpl.
  - repeat constructor.
  - destruct (String.eqb k s); constructor; simpl in *; try lia; assumption.
Qed.

Lemma fold_bump_inv l : forall t,
  List.NoDup (map fst t) -> Forall (fun kv => (0 < snd kv)%nat) t ->
  List.NoDup (map fst (fold_left (fun t s => bump s t) l t)) /\
  Forall (fun kv => (0 < snd kv)%nat) (fold_left (fun t s => bump s t) l t).
Proof.
  induction l as [|s l IH]; intros t Hnd Hpos; simpl; [now split|].
  apply IH; [now apply bump_keys|now apply bump_pos].
Qed.

Lemma assoc_In k n t : List.NoDup (map fst t) -> In (k, n) t <-> assoc k t = Some n.
Proof.
  induction t as [|[k' n'] t IH]; simpl; intros Hnd.
  - split; [intros []|discriminate].
  - inversion Hnd as [|? ? Hk Ht]; subst.
    destruct (String.eqb k' k) eqn:E.
    + apply String.eqb_eq in E. subst k'. split.
      * intros [H|H]; [congruence|].
        exfalso. apply Hk.
        change k with (fst (k, n)). now apply in_map.
      * intros H. left. congruence.
    + apply String.eqb_neq in E. rewrite <- (IH Ht). split.
      * intros [H|H]; [congruence|assumption].
      * now right.
Qed.

Lemma tally_spec k n l :
  In (k, n) (tally l) <-> (0 < n)%nat /\ n = occurrences k l.
Proof.
  unfold tally.
  destruct (fold_bump_inv l [] (List.NoDup_nil _) (List.Forall_nil _)) as [Hnd Hpos].
  pose proof (assoc_fold k l []) as Hc. simpl in Hc. rewrite Nat.add_0_r in Hc.
  rewrite (assoc_In _ _ _ Hnd). split.
  - intros Ha. rewrite Ha in Hc. simpl in Hc. split; [|assumption].
    apply (assoc_In _ _ _ Hnd) in Ha.
    exact (proj1 (List.Forall_forall _ _) Hpos _ Ha).
  - intros [Hn ->]. destruct (assoc k _) as [m|]; simpl in Hc; [now f_equal|lia].
Qed.

Lemma value_counts_spec k n l :
  In (k, n) (value_counts l) <-> (0 < n)%nat /\ n = occurrences k l.
Proof.
  rewrite <- tally_spec. unfold value_counts.
  split; apply Permutation_in;
    [apply sort_desc_perm | symmetry; apply sort_desc_perm].
Qed.

Lemma value_counts_keys l : List.NoDup (map fst (value_counts l)).
Proof.
  unfold value_counts, tally.
  destruct (fold_bump_inv l [] (List.NoDup_nil _) (List.Forall_nil _)) as [Hnd _].
  eapply Permutation_NoDup'; [|exact Hnd].
  apply Permutation_map. apply sort_desc_perm.
Qed.

End PandasFacts.

(** ** The file-system tree *)

Module FsFacts.
Import Fs Trees.

Lemma lookup1_set_same x n es : lookup1 x (set_entry x n es) = Some n.
Proof.
  induction es as [|[y m] es IH]; simpl.
  - now rewrite String.eqb_refl.
  - destruct (String.eqb y x) eqn:E; simpl.
    + now rewrite String.eqb_refl.
    + now rewrite E.
Qed.

Lemma lookup1_set_other x y n es :
  x <> y -> lookup1 y (set_entry x n es) = lookup1 y es.
Proof.
  intros Hxy. induction es as [|[z m] es IH]; simpl.
  - apply String.eqb_neq in Hxy. now rewrite Hxy.
  - destruct (String.eqb z x) eqn:E; simpl.
    + apply String.eqb_eq in E. subst z.
      apply String.eqb_neq in Hxy. now rewrite Hxy.
    + now rewrite IH.
Qed.

Lemma lookup_app p r t :
  lookup (p ++ r) t = match lookup p t with Some n => lookup r n | None => None end.
Proof.
  revert t. induction p as [|x p IH]; intros t; simpl; [reflexivity|].
  destruct t as [c|es]; [reflexivity|].
  destruct (lookup1 x es); [apply IH|reflexivity].
Qed.

Lemma lookup_file_below c r : r <> [] -> lookup r (File c) = None.
Proof. destruct r; [congruence|reflexivity]. Qed.

Lemma put_cons2 x y p new es :
  put (x :: y :: p) new (Dir es) =
  match lookup1 x es with
  | Some n =>
      match put (y :: p) new n with
      | Some n' => Some (Dir (set_entry x n' es))
      | None => None
      end
  | None => None
  end.
Proof. reflexivity. Qed.

Lemma put_inv p new t t' :
  put p new t = Some t' ->
  exists x p' es,
    p = x :: p' /\ t = Dir es /\
    ((p' = [] /\ t' = Dir (set_entry x new es)) \/
     (p' <> [] /\ exists n n', lookup1 x es = Some n /\ put p' new n = Some n' /\
                               t' = Dir (set_entry x n' es))).
Proof.
  destruct t as [c|es]; [destruct p; discriminate|].
  destruct p as [|x p']; [discriminate|].
  intros H. exists x, p', es. split; [reflexivity|]. split; [reflexivity|].
  destruct p' as [|y p''].
  - left. simpl in H. split; congruence.
  - right. split; [discriminate|].
    rewrite put_cons2 in H.
    destruct (lookup1 x es) as [n|]; [|discriminate].
    destruct (put (y :: p'') new n) as [n'|] eqn:E; [|discriminate].
    exists n, n'. repeat split; congruence.
Qed.

(** What is found at and below the place of a [put]. *)
Lemma lookup_put_below p new r : forall t t',
  put p new t = Some t' -> lookup (p ++ r) t' = lookup r new.
Proof.
  induction p as [|x p IH]; intros t t' H.
  - destruct t; discriminate.
  - apply put_inv in H as (x' & p' & es & Hp & -> & Hc).
    injection Hp as <- <-.
    destruct Hc as [[-> ->]|(Hne & n & n' & Hl & Hput & ->)]; simpl;
      rewrite lookup1_set_same; [reflexivity|].
    now apply (IH n).
Qed.

(** A path that does not pass through the place of a [put] finds what it
    found before, up to the entries of the directories above the place. *)
Lemma lookup_put_other p new q : forall t t',
  put p new t = Some t' ->
  ~ p `prefix_of` q ->
  match lookup q t', lookup q t with
  | Some (File c'), Some (File c) => c' = c
  | Some (Dir _), Some (Dir _) => True
  | None, None => True
  | _, _ => False
  end.
Proof.
  revert q. induction p as [|x p IH]; intros q t t' H Hq.
  - destruct t; discriminate.
  - apply put_inv in H as (x' & p' & es & Hp & -> & Hc).
    injection Hp as <- <-.
    destruct q as [|y q].
    + destruct Hc as [[-> ->]|(Hne & n & n' & Hl & Hput & ->)]; exact I.
    + destruct (String.eqb_spec x y) as [<-|Hxy].
      * destruct Hc as [[-> ->]|(Hne & n & n' & Hl & Hput & ->)].
        -- exfalso. apply Hq. exists q. reflexivity.
        -- simpl. rewrite lookup1_set_same, Hl.
           apply (IH q n n' Hput).
           intros [k ->]. apply Hq. exists k. reflexivity.
      * assert (Hsame : lookup (y :: q) t' = lookup (y :: q) (Dir es)).
        { destruct Hc as [[-> ->]|(Hne & n & n' & Hl & Hput & ->)]; simpl;
            now rewrite lookup1_set_other. }
        rewrite Hsame. destruct (lookup (y :: q) (Dir es)) as [[c|es']|]; auto.
Qed.

Lemma read_put_other p new q t t' :
  put p new t = Some t' -> ~ p `prefix_of` q ->
  read_file q t' = read_file q t.
Proof.
  intros H Hq. pose proof (lookup_put_other p new q t t' H Hq) as Hl.
  unfold read_file.
  destruct (lookup q t') as [[c'|es']|], (lookup q t) as [[c|es]|];
    try contradiction; congruence.
Qed.

(** Writing a file changes what is read at its path and nowhere else. *)
Lemma read_write_same p c t t' :
  write_node p c t = Some t' -> read_file p t' = Some c.
Proof.
  unfold write_node, read_file. intros H.
  assert (Hput : put p (File c) t = Some t')
    by (destruct (lookup p t) as [[?|?]|]; congruence).
  pose proof (lookup_put_below p (File c) [] t t' Hput) as Hl.
  rewrite app_nil_r in Hl. rewrite Hl. reflexivity.
Qed.

Lemma read_write_other p c q t t' :
  write_node p c t = Some t' -> q <> p -> read_file q t' = read_file q t.
Proof.
  unfold write_node. intros H Hqp.
  destruct (decide (p `prefix_of` q)) as [[r ->]|Hn].
  - assert (Hr : r <> []) by (intros ->; apply Hqp; now rewrite app_nil_r).
    unfold read_file. rewrite (lookup_app p r t).
    destruct (lookup p t) as [[c0|es]|] eqn:E; try discriminate;
      rewrite (lookup_put_below p (File c) r t t' H);
      now rewrite !lookup_file_below.
  - destruct (lookup p t) as [[?|?]|]; try discriminate;
      now apply (read_put_other p (File c)).
Qed.

(** Making a directory changes no file. *)
Lemma read_mkdir p q t t' :
  mkdir_node p t = Some t' -> read_file q t' = read_file q t.
Proof.
  unfold mkdir_node. intros H.
  destruct (lookup p t) eqn:E; [discriminate|].
  destruct (decide (p `prefix_of` q)) as [[r ->]|Hn].
  - unfold read_file. rewrite (lookup_app p r t), E.
    rewrite (lookup_put_below p (Dir []) r t t' H).
    destruct r as [|x r]; reflexivity.
  - now apply (read_put_other p (Dir [])).
Qed.

(** *** Walking the tree *)

Lemma node_ind' (P : node -> Prop) :
  (forall c, P (File c)) ->
  (forall es, List.Forall (fun e => P (snd e)) es -> P (Dir es)) ->
  forall n, P n.
Proof.
  intros HF HD. fix IH 1. intros [c|es]; [apply HF|apply HD].
  induction es as [|[x n] es IHes]; constructor; [apply IH|exact IHes].
Qed.

Lemma walk_Dir root es :
  walk root (Dir es) =
  (root, dirnames es, filenames es)
    :: flat_map (fun e => walk (root ++ [fst e]) (snd e)) es.
Proof.
  simpl. f_equal. induction es as [|[x n] es IH]; simpl; [reflexivity|].
  now rewrite IH.
Qed.

Lemma wf_Dir es :
  wf (Dir es) = true <->
  List.NoDup (map fst es) /\ List.Forall (fun e => wf (snd e) = true) es.
Proof.
  simpl. induction es as [|[x n] es IH]; simpl.
  - split; [intros _; split; constructor|reflexivity].
  - rewrite !andb_true_iff, IH, negb_true_iff. split.
    + intros [[Hx Hn] [Hnd Hall]]. split; constructor; try assumption.
      intros Hin. apply not_true_iff_false in Hx. apply Hx.
      apply existsb_exists. exists x. split; [assumption|apply String.eqb_refl].
    + intros [Hnd Hall]. inversion Hnd as [|? ? Hx Hnd']; subst.
      inversion Hall as [|? ? Hn Hall']; subst. simpl in Hn.
      repeat split; try assumption.
      apply not_true_iff_false. intros Hex.
      apply existsb_exists in Hex as (y & Hy & Exy).
      apply String.eqb_eq in Exy. now subst y.
Qed.

Lemma lookup1_In x n es : lookup1 x es = Some n -> In (x, n) es.
Proof.
  induction es as [|[y m] es IH]; simpl; [discriminate|].
  destruct (String.eqb_spec y x) as [->|Hne].
  - intros H. left. congruence.
  - intros H. right. now apply IH.
Qed.

Lemma In_lookup1 x n es :
  List.NoDup (map fst es) -> In (x, n) es -> lookup1 x es = Some n.
Proof.
  induction es as [|[y m] es IH]; simpl; intros Hnd Hin; [contradiction|].
  inversion Hnd as [|? ? Hy Hnd']; subst.
  destruct Hin as [H|H].
  - injection H as -> ->. now rewrite String.eqb_refl.
  - destruct (String.eqb_spec y x) as [->|Hne]; [|now apply IH].
    exfalso. apply Hy. change x with (fst (x, n)). now apply in_map.
Qed.

(** Every directory below [top] is visited. *)
Lemma walk_complete r : forall n top es,
  lookup r n = Some (Dir es) ->
  In (top ++ r, dirnames es, filenames es) (walk top n).
Proof.
  induction r as [|x r IH]; intros n top es H; simpl in H.
  - injection H as ->. rewrite app_nil_r, walk_Dir. now left.
  - destruct n as [c|es0]; [discriminate|].
    destruct (lookup1 x es0) as [m|] eqn:E; [|discriminate].
    rewrite walk_Dir. right. apply in_flat_map.
    exists (x, m). split; [now apply lookup1_In|]. simpl.
    replace (top ++ x :: r) with ((top ++ [x]) ++ r) by now rewrite <- app_assoc.
    now apply IH.
Qed.

(** What is visited is a directory below [top], with its listing. *)
Lemma walk_sound n : forall top root ds fs,
  wf n = true ->
  In (root, ds, fs) (walk top n) ->
  exists r es,
    root = top ++ r /\ lookup r n = Some (Dir es) /\
    ds = dirnames es /\ fs = filenames es.
Proof.
  induction n as [c|es IH] using node_ind'; intros top root ds fs Hwf Hin.
  - destruct Hin.
  - rewrite walk_Dir in Hin. apply wf_Dir in Hwf as [Hnd Hall].
    destruct Hin as [H|H].
    + injection H as <- <- <-. exists [], es. now rewrite app_nil_r.
    + apply in_flat_map in H as ([x m] & Hxm & H). simpl in H.
      rewrite List.Forall_forall in IH, Hall.
      destruct (IH _ Hxm (top ++ [x]) root ds fs (Hall _ Hxm) H)
        as (r & es' & -> & Hl & -> & ->).
      exists (x :: r), es'. rewrite <- app_assoc. simpl.
      rewrite (In_lookup1 x m es Hnd Hxm). now repeat split.
Qed.

Lemma walk_roots_prefix n : forall top entry,
  In entry (walk top n) -> top `prefix_of` fst (fst entry).
Proof.
  induction n as [c|es IH] using node_ind'; intros top entry Hin.
  - destruct Hin.
  - rewrite walk_Dir in Hin. destruct Hin as [<-|H]; [exists []; simpl; now rewrite app_nil_r|].
    apply in_flat_map in H as ([x m] & Hxm & H). simpl in H.
    rewrite List.Forall_forall in IH.
    destruct (IH _ Hxm _ _ H) as [k ->].
    exists (x :: k). now rewrite <- app_assoc.
Qed.


(** The files of a listing. *)
Lemma In_filenames f es :
  In f (filenames es) <-> exists c, In (f, File c) es.
Proof.
  unfold filenames. rewrite in_map_iff. split.
  - intros ([x n] & <- & H). apply filter_In in H as [H Hf].
    destruct n as [c|?]; [|discriminate]. now exists c.
  - intros [c H]. exists (f, File c). split; [reflexivity|].
    apply filter_In. now split.
Qed.

Lemma wf_lookup p : forall t n, wf t = true -> lookup p t = Some n -> wf n = true.
Proof.
  induction p as [|x p IH]; intros t n Hwf H; simpl in H.
  - congruence.
  - destruct t as [c|es]; [discriminate|].
    destruct (lookup1 x es) as [m|] eqn:E; [|discriminate].
    apply wf_Dir in Hwf as [_ Hall]. rewrite List.Forall_forall in Hall.
    apply (IH m n); [|assumption]. exact (Hall _ (lookup1_In _ _ _ E)).
Qed.

(** *** Well-formed trees stay well formed *)

Lemma set_entry_names x n es y :
  In y (map fst (set_entry x n es)) <-> y = x \/ In y (map fst es).
Proof.
  induction es as [|[z k] es IH]; simpl.
  - intuition congruence.
  - destruct (String.eqb_spec z x) as [->|Hne]; simpl.
    + intuition congruence.
    + rewrite IH. intuition congruence.
Qed.

Lemma set_entry_NoDup x n es :
  List.NoDup (map fst es) -> List.NoDup (map fst (set_entry x n es)).
Proof.
  induction es as [|[z k] es IH]; simpl; intros Hnd.
  - repeat constructor. intros [].
  - inversion Hnd as [|? ? Hz Hnd']; subst.
    destruct (String.eqb_spec z x) as [->|Hne]; simpl.
    + now constructor.
    + constructor; [|now apply IH].
      rewrite set_entry_names. intros [H|H]; [congruence|contradiction].
Qed.

Lemma set_entry_Forall (Q : node -> Prop) x n es :
  List.Forall (fun e => Q (snd e)) es -> Q n ->
  List.Forall (fun e => Q (snd e)) (set_entry x n es).
Proof.
  intros Hall Hn. induction Hall as [|[z k] es Hz Hall IH]; simpl.
  - now repeat constructor.
  - destruct (String.eqb z x); constructor; assumption.
Qed.

Lemma wf_put p new : forall t t',
  put p new t = Some t' -> wf t = true -> wf new = true -> wf t' = true.
Proof.
  induction p as [|x p IH]; intros t t' H Hwf Hnew.
  - destruct t; discriminate.
  - apply put_inv in H as (x' & p' & es & Hp & -> & Hc).
    injection Hp as <- <-. apply wf_Dir in Hwf as [Hnd Hall].
    destruct Hc as [[-> ->]|(Hne & n & n' & Hl & Hput & ->)]; apply wf_Dir.
    + split; [now apply set_entry_NoDup|].
      now apply (set_entry_Forall (fun n => wf n = true)).
    + split; [now apply set_entry_NoDup|].
      apply (set_entry_Forall (fun n => wf n = true)); [assumption|].
      apply (IH n); try assumption.
      rewrite List.Forall_forall in Hall.
      exact (Hall _ (lookup1_In _ _ _ Hl)).
Qed.

Lemma wf_write p c t t' : write_node p c t = Some t' -> wf t = true -> wf t' = true.
Proof.
  unfold write_node. intros H Hwf.
  assert (Hput : put p (File c) t = Some t')
    by (destruct (lookup p t) as [[?|?]|]; congruence).
  now apply (wf_put p (File c) t).
Qed.

Lemma wf_mkdir p t t' : mkdir_node p t = Some t' -> wf t = true -> wf t' = true.
Proof.
  unfold mkdir_node. destruct (lookup p t); [discriminate|].
  intros H Hwf. now apply (wf_put p (Dir []) t).
Qed.

(** *** Extracting archive members *)

Lemma extract_one x c es :
  extract [x] c (Dir es) =
  match lookup1 x es with
  | Some (Dir _) => None
  | _ => Some (Dir (set_entry x (File c) es))
  end.
Proof. reflexivity. Qed.

Lemma extract_cons2 x y p c es :
  extract (x :: y :: p) c (Dir es) =
  match extract (y :: p) c (default (Dir []) (lookup1 x es)) with
  | Some n' => Some (Dir (set_entry x n' es))
  | None => None
  end.
Proof. reflexivity. Qed.

Lemma extract_is_dir p c t t' : extract p c t = Some t' -> is_dir t' = true.
Proof.
  destruct t as [c0|es]; [destruct p; discriminate|].
  destruct p as [|x [|y p]]; [discriminate| |].
  - rewrite extract_one. destruct (lookup1 x es) as [[?|?]|]; intros H;
      try discriminate; now injection H as <-.
  - rewrite extract_cons2. destruct (extract _ _ _); intros H;
      try discriminate; now injection H as <-.
Qed.

Lemma read_extract_same p c : forall t t',
  extract p c t = Some t' -> read_file p t' = Some c.
Proof.
  induction p as [|x p IH]; intros t t' H.
  - destruct t; discriminate.
  - destruct t as [c0|es]; [discriminate|]. destruct p as [|y p].
    + rewrite extract_one in H. unfold read_file.
      destruct (lookup1 x es) as [[?|?]|]; try discriminate;
        injection H as <-; simpl; now rewrite lookup1_set_same.
    + rewrite extract_cons2 in H.
      destruct (extract (y :: p) c _) as [n'|] eqn:E; [|discriminate].
      injection H as <-. apply IH in E. unfold read_file in *.
      cbn [lookup]. now rewrite lookup1_set_same.
Qed.

Lemma read_extract_other p c : forall q t t',
  extract p c t = Some t' -> q <> p -> read_file q t' = read_file q t.
Proof.
  induction p as [|x p IH]; intros q t t' H Hq.
  - destruct t; discriminate.
  - destruct t as [c0|es]; [discriminate|].
    destruct q as [|y q].
    { apply extract_is_dir in H. destruct t'; [discriminate|reflexivity]. }
    destruct (String.eqb_spec x y) as [<-|Hxy].
    2:{ assert (Hl : lookup1 y (match t' with Dir es' => es' | File _ => [] end)
                     = lookup1 y es).
        { destruct p as [|z p].
          - rewrite extract_one in H.
            destruct (lookup1 x es) as [[?|?]|]; try discriminate;
              injection H as <-; now apply lookup1_set_other.
          - rewrite extract_cons2 in H.
            destruct (extract (z :: p) c _); [|discriminate].
            injection H as <-. now apply lookup1_set_other. }
        pose proof (extract_is_dir _ _ _ _ H) as Hd.
        destruct t' as [|es']; [discriminate|].
        unfold read_file. cbn [lookup]. now rewrite Hl. }
    assert (Hq' : q <> p) by congruence.
    destruct p as [|z p].
    + rewrite extract_one in H. unfold read_file. cbn [lookup].
      destruct (lookup1 x es) as [[c1|es1]|]; try discriminate;
        injection H as <-; cbn [lookup]; rewrite lookup1_set_same;
        now rewrite !lookup_file_below.
    + rewrite extract_cons2 in H.
      destruct (extract (z :: p) c _) as [n'|] eqn:E; [|discriminate].
      injection H as <-. specialize (IH q _ _ E Hq').
      unfold read_file in *. cbn [lookup]. rewrite lookup1_set_same, IH.
      destruct (lookup1 x es) as [m|]; [reflexivity|]. simpl.
      destruct q; reflexivity.
Qed.

Lemma sub_empty ES : sub (Dir []) (Dir ES).
Proof. intros [|x q]; simpl; [now exists ES|exact I]. Qed.

Lemma sub_read t T q c : sub t T -> read_file q t = Some c -> read_file q T = Some c.
Proof.
  intros Hs. specialize (Hs q). unfold read_file.
  destruct (lookup q t) as [[c0|?]|]; try discriminate.
  intros H. now rewrite Hs.
Qed.

Lemma sub_child x es ES m :
  sub (Dir es) (Dir ES) -> lookup1 x es = Some m ->
  exists M, lookup1 x ES = Some M /\ sub m M.
Proof.
  intros Hs Hx.
  assert (HM : exists M, lookup1 x ES = Some M).
  { specialize (Hs [x]). simpl in Hs. rewrite Hx in Hs.
    destruct (lookup1 x ES) as [M|]; [now exists M|].
    destruct m; [discriminate|now destruct Hs]. }
  destruct HM as [M HM]. exists M. split; [assumption|].
  intros q. specialize (Hs (x :: q)). simpl in Hs. now rewrite Hx, HM in Hs.
Qed.

Lemma sub_set x m es ES M :
  sub (Dir es) (Dir ES) -> lookup1 x ES = Some M -> sub m M ->
  sub (Dir (set_entry x m es)) (Dir ES).
Proof.
  intros Hs HM Hm [|y q]; simpl; [now exists ES|].
  destruct (String.eqb_spec x y) as [<-|Hxy].
  - rewrite lookup1_set_same, HM. apply Hm.
  - rewrite lookup1_set_other by assumption. apply (Hs (y :: q)).
Qed.

(** A file of [T] can be extracted into a tree that [T] covers, and [T]
    covers the result. *)
Lemma extract_sub p c : forall t T,
  sub t T -> is_dir t = true -> lookup p T = Some (File c) ->
  exists t', extract p c t = Some t' /\ sub t' T.
Proof.
  induction p as [|x p IH]; intros t T Hs Hd HT.
  - destruct t as [|es]; [discriminate|].
    specialize (Hs []). simpl in *. destruct Hs as [ES HS]. congruence.
  - destruct t as [|es]; [discriminate|].
    destruct T as [|ES]; [discriminate|]. simpl in HT.
    destruct (lookup1 x ES) as [M|] eqn:HM; [|discriminate].
    destruct p as [|y p].
    + simpl in HT. injection HT as ->. rewrite extract_one.
      destruct (lookup1 x es) as [m|] eqn:Hx.
      * destruct (sub_child _ _ _ _ Hs Hx) as (M' & HM' & Hm).
        assert (M' = File c) by congruence. subst M'.
        destruct m as [c1|es1].
        -- eexists. split; [reflexivity|].
           apply (sub_set x (File c) es ES (File c)); try assumption.
           intros [|z q]; simpl; auto.
        -- specialize (Hm []). simpl in Hm. destruct Hm; discriminate.
      * eexists. split; [reflexivity|].
        apply (sub_set x (File c) es ES (File c)); try assumption.
        intros [|z q]; simpl; auto.
    + rewrite extract_cons2.
      assert (HMd : exists ES', M = Dir ES').
      { destruct M as [|ES']; [discriminate|now exists ES']. }
      destruct HMd as [ES' ->].
      assert (Hc : sub (default (Dir []) (lookup1 x es)) (Dir ES') /\
                   is_dir (default (Dir []) (lookup1 x es)) = true).
      { destruct (lookup1 x es) as [m|] eqn:Hx; simpl.
        - destruct (sub_child _ _ _ _ Hs Hx) as (M' & HM' & Hm).
          assert (M' = Dir ES') by congruence. subst M'. split; [assumption|].
          destruct m as [c1|]; [|reflexivity].
          specialize (Hm []). simpl in Hm. discriminate.
        - split; [apply sub_empty|reflexivity]. }
      destruct Hc as [Hc Hcd].
      destruct (IH _ _ Hc Hcd HT) as (n' & En & Hn). rewrite En.
      eexists. split; [reflexivity|].
      now apply (sub_set x n' es ES (Dir ES')).
Qed.

(** Extracting the files of [T], in any order and with repetitions,
    gives a tree that holds them all and nothing else. *)
Lemma extractall_sub T members : forall t,
  sub t T -> is_dir t = true ->
  (forall p c, In (p, c) members -> read_file p T = Some c) ->
  exists t',
    extractall members t = Some t' /\ sub t' T /\ is_dir t' = true /\
    (forall q c, read_file q t = Some c -> read_file q t' = Some c) /\
    (forall p c, In (p, c) members -> read_file p t' = Some c).
Proof.
  induction members as [|[p c] members IH]; intros t Hs Hd Hall; simpl.
  - exists t. repeat split; auto. intros p c [].
  - assert (HT : lookup p T = Some (File c)).
    { specialize (Hall p c (or_introl eq_refl)). unfold read_file in Hall.
      destruct (lookup p T) as [[?|?]|]; congruence. }
    destruct (extract_sub p c t T Hs Hd HT) as (t1 & E1 & Hs1). rewrite E1.
    pose proof (extract_is_dir _ _ _ _ E1) as Hd1.
    destruct (IH t1 Hs1 Hd1 (fun p' c' H => Hall p' c' (or_intror H)))
      as (t' & E' & Hs' & Hd' & Hmono & Hin).
    exists t'. repeat split; try assumption.
    + intros q c0 Hq. apply Hmono.
      destruct (decide (q = p)) as [->|Hne].
      * rewrite (read_extract_same _ _ _ _ E1). f_equal.
        pose proof (sub_read _ _ _ _ Hs Hq) as H1.
        specialize (Hall p c (or_introl eq_refl)). congruence.
      * now rewrite (read_extract_other _ _ _ _ _ E1 Hne).
    + intros p' c' [H|H].
      * injection H as <- <-. apply Hmono. now apply (read_extract_same _ _ t).
      * now apply Hin.
Qed.

End FsFacts.

(** ** Runs and their histories

    Every change a run makes to the tree is an event of its history, so
    the tree at the end of a run is the tree at its start with the new
    events replayed on it. *)

Module RunFacts.
Import Fs Run Histories FsFacts.

Lemma replay_app evs1 evs2 t :
  replay (evs1 ++ evs2) t =
  match replay evs1 t with Some t' => replay evs2 t' | None => None end.
Proof.
  revert t. induction evs1 as [|ev evs1 IH]; intros t; simpl; [reflexivity|].
  destruct (apply_event ev t); [apply IH|reflexivity].
Qed.

Lemma no_failed_app evs1 evs2 :
  no_failed (evs1 ++ evs2) <-> no_failed evs1 /\ no_failed evs2.
Proof. unfold no_failed. rewrite forallb_app. apply andb_true_iff. Qed.

Lemma writes_app evs1 evs2 : writes (evs1 ++ evs2) = writes evs1 ++ writes evs2.
Proof.
  induction evs1 as [|[p|p c|p] evs1 IH]; simpl; congruence.
Qed.

Lemma outcome_ok_inv {A} evs (a : A) : outcome evs (Ok a) -> no_failed evs.
Proof. intros [H|(evs0 & p & _ & _ & H)]; [assumption|discriminate]. Qed.

Lemma outcome_raise {A B} evs x :
  @outcome A evs (Raise x) -> @outcome B evs (Raise x).
Proof.
  intros [H|(evs0 & p & H1 & H2 & H3)]; [now left|right].
  exists evs0, p. repeat split; congruence.
Qed.

Lemma honours_app e n evs1 evs2 :
  honours e n evs1 -> honours e (n + length evs1) evs2 -> honours e n (evs1 ++ evs2).
Proof.
  intros H1 H2 i ev Hi Hf.
  destruct (Nat.lt_ge_cases i (length evs1)) as [Hlt|Hge].
  - rewrite nth_error_app1 in Hi by assumption. now apply (H1 i).
  - rewrite nth_error_app2 in Hi by assumption.
    apply (H2 _ _ Hi). now replace (n + length evs1 + (i - length evs1))%nat with (n + i)%nat by lia.
Qed.

Lemma effect_ret {A} e (a : A) : effect e (ret a).
Proof.
  intros w. exists []. split; simpl.
  - now rewrite app_nil_r.
  - reflexivity.
  - lia.
  - now left.
  - intros [|i] ev H; discriminate.
Qed.

Lemma effect_raise {A} e x : effect e (@raise A x).
Proof.
  intros w. exists []. split; simpl.
  - now rewrite app_nil_r.
  - reflexivity.
  - lia.
  - now left.
  - intros [|i] ev H; discriminate.
Qed.

Lemma bind_ok {A B} (m : M A) (k : A -> M B) w w1 a :
  m w = (w1, Ok a) -> bind m k w = k a w1.
Proof. unfold bind. now intros ->. Qed.

Lemma bind_raise {A B} (m : M A) (k : A -> M B) w w1 x :
  m w = (w1, Raise x) -> bind m k w = (w1, Raise x).
Proof. unfold bind. now intros ->. Qed.

Lemma effect_bind {A B} e (m : M A) (k : A -> M B) :
  effect e m -> (forall a, effect e (k a)) -> effect e (bind m k).
Proof.
  intros Hm Hk w. destruct (Hm w) as [evs1 [T1 R1 K1 O1 F1]].
  destruct (m w) as [w1 [a|x]] eqn:E; simpl in *.
  - destruct (Hk a w1) as [evs2 [T2 R2 K2 O2 F2]].
    exists (evs1 ++ evs2). split; try rewrite (bind_ok m k w w1 a E).
    + rewrite T2, T1. now rewrite app_assoc.
    + rewrite replay_app, R1. exact R2.
    + lia.
    + apply outcome_ok_inv in O1.
      destruct O2 as [O2|(evs0 & p & -> & N0 & ->)].
      * left. now apply no_failed_app.
      * right. exists (evs1 ++ evs0), p. rewrite app_assoc.
        repeat split. now apply no_failed_app.
    + apply honours_app; [assumption|].
      rewrite T1, length_app in F2. exact F2.
  - exists evs1. split; try rewrite (bind_raise m k w w1 x E); simpl;
      try assumption.
    now apply (outcome_raise (A := A)).
Qed.

Lemma effect_for_each {A} e (l : list A) (body : A -> M unit) :
  (forall x, effect e (body x)) -> effect e (for_each l body).
Proof.
  intros Hb. induction l as [|x l IH]; simpl.
  - apply effect_ret.
  - apply effect_bind; [apply Hb|intros _; exact IH].
Qed.

Lemma effect_map_m {A B} e (l : list A) (f : A -> M B) :
  (forall x, effect e (f x)) -> effect e (map_m l f).
Proof.
  intros Hf. induction l as [|x l IH]; simpl.
  - apply effect_ret.
  - apply effect_bind; [apply Hf|intros y].
    apply effect_bind; [exact IH|intros ys]. apply effect_ret.
Qed.

Lemma effect_now e : effect e (now e).
Proof.
  intros w. exists []. split; simpl.
  - now rewrite app_nil_r.
  - reflexivity.
  - lia.
  - now left.
  - intros [|i] ev H; discriminate.
Qed.

Lemma effect_pure {A} e (f : world -> result A) : effect e (fun w => (w, f w)).
Proof.
  intros w. exists []. split; simpl.
  - now rewrite app_nil_r.
  - reflexivity.
  - lia.
  - now left.
  - intros [|i] ev H; discriminate.
Qed.

Lemma effect_attempt e p ev f :
  is_failed ev = false ->
  (forall t, apply_event ev t = f t) ->
  effect e (attempt e p ev f).
Proof.
  intros Hev Hf w.
  assert (Hfail : forall ev', nth_error [Failed p] 0 = Some ev' -> is_failed ev' = true)
    by (intros ev' H; now injection H as <-).
  destruct (fault e (length (trace w))) eqn:E.
  - assert (Hw : attempt e p ev f w =
                 (mkWorld (cwd w) (ticks w) (trace w ++ [Failed p]), Raise (OSError p)))
      by (unfold attempt; now rewrite E).
    exists [Failed p]. split; rewrite ?Hw; simpl; try reflexivity; try lia.
    + right. exists [], p. repeat split.
    + intros [|[|i]] ev' H; try discriminate. intros _. now apply Hfail.
  - destruct (f (cwd w)) as [t'|] eqn:Ef.
    + assert (Hw : attempt e p ev f w =
                   (mkWorld t' (ticks w) (trace w ++ [ev]), Ok tt))
        by (unfold attempt; now rewrite E, Ef).
      exists [ev]. split; rewrite ?Hw; simpl; try reflexivity; try lia.
      * now rewrite Hf, Ef.
      * left. unfold no_failed. simpl. now rewrite Hev.
      * intros [|[|i]] ev' H Hfa; try discriminate.
        rewrite Nat.add_0_r in Hfa. congruence.
    + assert (Hw : attempt e p ev f w =
                   (mkWorld (cwd w) (ticks w) (trace w ++ [Failed p]), Raise (OSError p)))
        by (unfold attempt; now rewrite E, Ef).
      exists [Failed p]. split; rewrite ?Hw; simpl; try reflexivity; try lia.
      * right. exists [], p. repeat split.
      * intros [|[|i]] ev' H; try discriminate. intros _. now apply Hfail.
Qed.

Lemma effect_write_file e p c : effect e (write_file e p c).
Proof. now apply effect_attempt. Qed.

Lemma effect_mkdir e p : effect e (mkdir e p).
Proof. now apply effect_attempt. Qed.

Lemma effect_makedirs_from e todo : forall done, effect e (makedirs_from e done todo).
Proof.
  induction todo as [|x todo IH]; intros done; simpl.
  - apply effect_ret.
  - apply effect_bind; [apply (effect_pure e)|intros there].
    apply effect_bind; [|intros _; apply IH].
    destruct there; [apply effect_ret|apply effect_mkdir].
Qed.

Lemma effect_makedirs e p : effect e (makedirs e p).
Proof. apply effect_makedirs_from. Qed.

Lemma effect_os_walk e top : effect e (os_walk top).
Proof. apply (effect_pure e). Qed.

Lemma effect_fetch e p : effect e (fetch p).
Proof. apply (effect_pure e). Qed.

Lemma effect_getsize e p : effect e (os_path_getsize e p).
Proof.
  apply effect_bind; [apply effect_fetch|intros c; apply effect_ret].
Qed.

(** *** Reading the tree after a history *)

Lemma read_apply_event ev t t' q :
  apply_event ev t = Some t' ->
  read_file q t' =
  match ev with
  | Wrote p c => if decide (q = p) then Some c else read_file q t
  | _ => read_file q t
  end.
Proof.
  destruct ev as [p|p c|p]; simpl; intros H.
  - now apply (read_mkdir p).
  - destruct (decide (q = p)) as [->|Hne].
    + now apply (read_write_same p c t).
    + now apply (read_write_other p c).
  - congruence.
Qed.

(** A file that the history wrote holds what was written last; any other
    file is as it was. *)
Lemma read_replay evs : forall t t' q,
  replay evs t = Some t' ->
  read_file q t' =
  match List.find (fun pc => bool_decide (fst pc = q)) (rev (writes evs)) with
  | Some pc => Some (snd pc)
  | None => read_file q t
  end.
Proof.
  induction evs as [|ev evs IH]; intros t t' q H; simpl in *.
  - congruence.
  - destruct (apply_event ev t) as [t1|] eqn:E; [|discriminate].
    rewrite (IH t1 t' q H).
    assert (Hfind : forall l (pc : path * content),
      List.find (fun pc => bool_decide (fst pc = q)) (rev l ++ [pc]) =
      match List.find (fun pc => bool_decide (fst pc = q)) (rev l) with
      | Some x => Some x
      | None => if bool_decide (fst pc = q) then Some pc else None
      end).
    { intros l pc. induction (rev l) as [|y l' IHl]; simpl; [reflexivity|].
      destruct (bool_decide (fst y = q)); [reflexivity|exact IHl]. }
    rewrite (read_apply_event ev t t1 q E).
    destruct ev as [p|p c|p]; simpl; try reflexivity.
    rewrite Hfind. destruct (List.find _ (rev (writes evs))); [reflexivity|].
    simpl. destruct (decide (q = p)) as [->|Hne].
    + now rewrite bool_decide_eq_true_2.
    + rewrite bool_decide_eq_false_2; [reflexivity|congruence].
Qed.

Lemma read_replay_written evs t t' q c :
  replay evs t = Some t' ->
  In q (map fst (writes evs)) ->
  (forall c', In (q, c') (writes evs) -> c' = c) ->
  read_file q t' = Some c.
Proof.
  intros H Hin Hall. rewrite (read_replay evs t t' q H).
  destruct (List.find _ (rev (writes evs))) as [[p c']|] eqn:E.
  - apply find_some in E as [Hi Hp]. simpl in *.
    apply bool_decide_eq_true_1 in Hp. subst p.
    f_equal. apply Hall. now apply in_rev.
  - exfalso. apply in_map_iff in Hin as ([p c'] & Hp & Hi). simpl in Hp. subst p.
    apply in_rev in Hi.
    pose proof (find_none _ _ E _ Hi) as Hn. simpl in Hn.
    now rewrite bool_decide_eq_true_2 in Hn.
Qed.

Lemma read_replay_unwritten evs t t' q :
  replay evs t = Some t' ->
  ~ In q (map fst (writes evs)) ->
  read_file q t' = read_file q t.
Proof.
  intros H Hn. rewrite (read_replay evs t t' q H).
  destruct (List.find _ (rev (writes evs))) as [[p c']|] eqn:E; [|reflexivity].
  apply find_some in E as [Hi Hp]. simpl in *.
  apply bool_decide_eq_true_1 in Hp. subst p.
  exfalso. apply Hn. apply in_rev in Hi.
  change q with (fst (q, c')). now apply in_map.
Qed.

Lemma read_replay_some evs t t' q :
  replay evs t = Some t' ->
  is_Some (read_file q t') <-> In q (map fst (writes evs)) \/ is_Some (read_file q t).
Proof.
  intros H. rewrite (read_replay evs t t' q H).
  destruct (List.find _ (rev (writes evs))) as [[p c']|] eqn:E.
  - apply find_some in E as [Hi Hp]. simpl in *.
    apply bool_decide_eq_true_1 in Hp. subst p. apply in_rev in Hi.
    split; [intros _; left|intros _; now eexists].
    change q with (fst (q, c')). now apply in_map.
  - split; [now right|intros [Hin|Hs]; [|assumption]].
    exfalso. apply in_map_iff in Hin as ([p c'] & Hp & Hi). simpl in Hp. subst p.
    apply in_rev in Hi.
    pose proof (find_none _ _ E _ Hi) as Hn. simpl in Hn.
    now rewrite bool_decide_eq_true_2 in Hn.
Qed.

Lemma wf_replay evs : forall t t',
  replay evs t = Some t' -> wf t = true -> wf t' = true.
Proof.
  induction evs as [|ev evs IH]; intros t t' H Hwf; simpl in H.
  - congruence.
  - destruct (apply_event ev t) as [t1|] eqn:E; [|discriminate].
    apply (IH t1 t' H).
    destruct ev as [p|p c|p]; simpl in E.
    + now apply (wf_mkdir p t).
    + now apply (wf_write p c t).
    + congruence.
Qed.

End RunFacts.

(** ** The stages of the script *)

Module ScriptFacts.
Import Fs Run Script Histories Stages FsFacts RunFacts.

Create HintDb effects.
#[local] Hint Resolve effect_ret effect_raise effect_now effect_write_file effect_mkdir
  effect_makedirs effect_os_walk effect_fetch effect_getsize : effects.

Ltac effects :=
  repeat first
    [ solve [auto with effects]
    | apply effect_for_each; intros ?
    | apply effect_map_m; intros ?
    | apply effect_bind; [|intros ?]
    | match goal with |- effect _ (match ?x with _ => _ end) => destruct x end
    | match goal with |- effect _ (if ?x then _ else _) => destruct x end
    | match goal with |- effect _ (let '(_, _) := ?x in _) => destruct x end ].

Lemma effect_create_phase_folders e : effect e (create_phase_folders e).
Proof. unfold create_phase_folders. effects. Qed.

Lemma effect_generate_phase e phase : effect e (generate_phase e phase).
Proof. unfold generate_phase. effects. Qed.

Lemma effect_generate_phase_files e : effect e (generate_phase_files e).
Proof. unfold generate_phase_files. apply effect_for_each. apply effect_generate_phase. Qed.

Lemma effect_summarize e entry : effect e (summarize e entry).
Proof. unfold summarize. destruct entry as [[root ds] fs]. effects. Qed.

Lemma effect_generate_summary_report e : effect e (generate_summary_report e).
Proof.
  unfold generate_summary_report.
  apply effect_bind; [apply effect_os_walk|intros entries].
  apply effect_bind; [apply effect_map_m, effect_summarize|intros summary].
  effects.
Qed.

Lemma effect_zip_members e entries : effect e (zip_members entries).
Proof. unfold zip_members. effects. Qed.

Lemma effect_create_zip_archive e : effect e (create_zip_archive e).
Proof.
  unfold create_zip_archive.
  apply effect_bind; [apply effect_os_walk|intros entries].
  apply effect_bind; [apply effect_zip_members|intros members].
  apply effect_write_file.
Qed.

Lemma effect_main e : effect e (main e).
Proof.
  unfold main.
  apply effect_bind; [apply effect_create_phase_folders|intros _].
  apply effect_bind; [apply effect_generate_phase_files|intros _].
  apply effect_bind; [apply effect_generate_summary_report|intros _].
  apply effect_create_zip_archive.
Qed.

(** *** Successful runs *)

Lemma extends_refl w w' :
  cwd w' = cwd w -> trace w' = trace w -> extends w w' [].
Proof.
  intros Hc Ht. exists []. rewrite app_nil_r. simpl. repeat split; congruence.
Qed.

Lemma extends_trans w w1 w2 W1 W2 :
  extends w w1 W1 -> extends w1 w2 W2 -> extends w w2 (W1 ++ W2).
Proof.
  intros (evs1 & T1 & H1 & R1) (evs2 & T2 & H2 & R2).
  exists (evs1 ++ evs2). rewrite T2, T1, app_assoc, writes_app, replay_app, R1.
  repeat split; congruence.
Qed.

Lemma bind_ok_inv {A B} (m : M A) (k : A -> M B) w w' b :
  bind m k w = (w', Ok b) ->
  exists w1 a, m w = (w1, Ok a) /\ k a w1 = (w', Ok b).
Proof.
  unfold bind. destruct (m w) as [w1 [a|x]]; [|discriminate].
  intros H. now exists w1, a.
Qed.

Lemma attempt_ok e p ev f w w' u :
  attempt e p ev f w = (w', Ok u) ->
  fault e (length (trace w)) = false /\
  f (cwd w) = Some (cwd w') /\ ticks w' = ticks w /\ trace w' = trace w ++ [ev].
Proof.
  unfold attempt. destruct (fault e (length (trace w))); [discriminate|].
  destruct (f (cwd w)) as [t'|]; [|discriminate].
  intros H. injection H as <-. now repeat split.
Qed.

Lemma write_file_ok e p c w w' u :
  write_file e p c w = (w', Ok u) ->
  extends w w' [(p, c)] /\ ticks w' = ticks w.
Proof.
  intros H. apply attempt_ok in H as (_ & Hf & Hk & Ht).
  split; [|assumption]. exists [Wrote p c]. simpl. now rewrite Hf.
Qed.

Lemma mkdir_ok e p w w' u :
  mkdir e p w = (w', Ok u) -> extends w w' [] /\ ticks w' = ticks w.
Proof.
  intros H. apply attempt_ok in H as (_ & Hf & Hk & Ht).
  split; [|assumption]. exists [Mkdir p]. simpl. now rewrite Hf.
Qed.

Lemma makedirs_from_ok e todo : forall done w w' u,
  makedirs_from e done todo w = (w', Ok u) ->
  extends w w' [] /\ ticks w' = ticks w.
Proof.
  induction todo as [|x todo IH]; intros done w w' u H; simpl in H.
  - injection H as <-. split; [now apply extends_refl|reflexivity].
  - apply bind_ok_inv in H as (w1 & there & H1 & H).
    injection H1 as <- <-.
    apply bind_ok_inv in H as (w2 & [] & H2 & H).
    apply IH in H as [E3 K3].
    destruct (match lookup (done ++ [x]) (cwd w) with Some (Dir _) => true | _ => false end).
    + injection H2 as <-. now split.
    + apply mkdir_ok in H2 as [E2 K2].
      split; [exact (extends_trans _ _ _ _ _ E2 E3)|congruence].
Qed.

Lemma combine_seq_S {A} (l : list A) : forall k,
  combine (seq (S k) (length l)) l =
  map (fun ix => (S (fst ix), snd ix)) (combine (seq k (length l)) l).
Proof.
  induction l as [|x l IH]; intros k; simpl; [reflexivity|].
  f_equal. apply IH.
Qed.

Lemma concat_map_nil {A B} (l : list A) :
  concat (map (fun _ : A => @nil B) l) = [].
Proof. induction l; simpl; assumption || reflexivity. Qed.

Lemma for_each_ok {A} (body : A -> M unit) (W : nat -> A -> list (path * content))
    (step : nat) :
  (forall x w w', body x w = (w', Ok tt) ->
     extends w w' (W (ticks w) x) /\ ticks w' = (ticks w + step)%nat) ->
  forall l w w', for_each l body w = (w', Ok tt) ->
    extends w w'
      (concat (map (fun ix => W (ticks w + fst ix * step)%nat (snd ix))
                   (combine (seq 0 (length l)) l))) /\
    ticks w' = (ticks w + length l * step)%nat.
Proof.
  intros Hb l. induction l as [|x l IH]; intros w w' H; simpl in H.
  - injection H as <-. split; [now apply extends_refl|simpl; lia].
  - apply bind_ok_inv in H as (w1 & [] & H1 & H).
    apply Hb in H1 as [E1 K1]. apply IH in H as [E2 K2].
    split; [|simpl; lia].
    cbn [length seq combine map concat fst snd].
    replace (ticks w + 0 * step)%nat with (ticks w) by lia.
    replace (concat _) with
      (concat (map (fun ix => W (ticks w1 + fst ix * step)%nat (snd ix))
                   (combine (seq 0 (length l)) l))).
    + exact (extends_trans _ _ _ _ _ E1 E2).
    + f_equal. rewrite combine_seq_S, map_map.
      apply map_ext. intros [i y]. simpl. f_equal. lia.
Qed.

Lemma create_phase_folders_ok e w w' :
  create_phase_folders e w = (w', Ok tt) ->
  extends w w' [] /\ ticks w' = ticks w.
Proof.
  unfold create_phase_folders. intros H.
  apply bind_ok_inv in H as (w1 & [] & H1 & H).
  apply (for_each_ok _ (fun _ _ => []) 0) in H1 as [E1 K1].
  - apply makedirs_from_ok in H as [E2 K2].
    rewrite concat_map_nil in E1.
    split; [exact (extends_trans _ _ _ _ _ E1 E2)|lia].
  - intros x w0 w0' H0. apply makedirs_from_ok in H0 as [E0 K0].
    split; [assumption|lia].
Qed.

Lemma dashboard_built : dashboard = Some the_dashboard.
Proof. reflexivity. Qed.

Lemma generate_phase_ok e phase w w' :
  generate_phase e phase w = (w', Ok tt) ->
  extends w w' (phase_writes e (ticks w) phase) /\ ticks w' = (ticks w + 1)%nat.
Proof.
  unfold generate_phase. rewrite dashboard_built. intros H.
  apply bind_ok_inv in H as (w1 & ts & H1 & H).
  injection H1 as <- <-.
  apply bind_ok_inv in H as (w2 & [] & H2 & H).
  apply bind_ok_inv in H as (w3 & wb & H3 & H).
  injection H3 as <- <-.
  apply bind_ok_inv in H as (w4 & [] & H4 & H).
  apply write_file_ok in H2 as [E2 K2].
  apply write_file_ok in H4 as [E4 K4].
  apply write_file_ok in H as [E5 K5].
  simpl in *. split; [|lia].
  pose proof (extends_trans _ _ _ _ _ E2 (extends_trans _ _ _ _ _ E4 E5)) as E.
  destruct E as (evs & T & Wr & R). exists evs. repeat split; assumption.
Qed.

Lemma generate_phase_files_ok e w w' :
  generate_phase_files e w = (w', Ok tt) ->
  extends w w' (all_phase_writes e (ticks w) PHASES) /\
  ticks w' = (ticks w + length PHASES)%nat.
Proof.
  unfold generate_phase_files. intros H.
  apply (for_each_ok _ (phase_writes e) 1) in H as [E K].
  - split; [|lia]. unfold all_phase_writes.
    erewrite map_ext; [exact E|].
    intros [i x]. simpl. f_equal. lia.
  - intros x w0 w0'. apply generate_phase_ok.
Qed.

(** *** The summary *)

Lemma Forall2_map_left {A B C} (R : B -> C -> Prop) (f : A -> B) l : forall l',
  List.Forall2 (fun x y => R (f x) y) l l' -> List.Forall2 R (map f l) l'.
Proof.
  induction l as [|x l IH]; intros l' H; inversion H; subst; simpl; constructor; auto.
Qed.

Lemma fetch_ok p w w' c :
  fetch p w = (w', Ok c) -> w' = w /\ read_file p (cwd w) = Some c.
Proof.
  unfold fetch. destruct (read_file p (cwd w)); intros H; [|discriminate].
  injection H as <- <-. now split.
Qed.

Lemma getsize_all_ok e root files : forall w w' sizes,
  map_m files (fun f => os_path_getsize e (root ++ [f])) w = (w', Ok sizes) ->
  w' = w /\
  exists contents,
    List.Forall2 (fun f c => read_file (root ++ [f]) (cwd w) = Some c) files contents /\
    sizes = map (getsize e) contents.
Proof.
  induction files as [|f files IH]; intros w w' sizes H; simpl in H.
  - injection H as <- <-. split; [reflexivity|]. exists []. split; constructor.
  - apply bind_ok_inv in H as (w1 & sz & H1 & H).
    apply bind_ok_inv in H1 as (w0 & c & H0 & H1).
    apply fetch_ok in H0 as [-> E]. injection H1 as <- <-.
    apply bind_ok_inv in H as (w2 & szs & H2 & H).
    injection H as <- <-.
    apply IH in H2 as (-> & contents & HF & ->).
    split; [reflexivity|]. exists (c :: contents). split; [|reflexivity].
    now constructor.
Qed.

Lemma summarize_ok e entry w w' rows :
  summarize e entry w = (w', Ok rows) ->
  cwd w' = cwd w /\ trace w' = trace w /\
  if selects entry
  then ticks w' = S (ticks w) /\
       exists row, rows = [row] /\ row_ok e (cwd w) (ticks w) entry row
  else ticks w' = ticks w /\ rows = [].
Proof.
  destruct entry as [[root ds] files]. unfold summarize, selects. simpl.
  destruct (negb (length files =? 0)%nat && contains "Phase_" (join_path root)).
  - intros H. apply bind_ok_inv in H as (w1 & sizes & H1 & H).
    apply getsize_all_ok in H1 as (-> & contents & HF & ->).
    apply bind_ok_inv in H as (w2 & ts & H2 & H).
    injection H2 as <- <-. injection H as <- <-. simpl.
    repeat split. eexists. split; [reflexivity|].
    repeat split. exists contents. now split.
  - intros H. injection H as <- <-. now repeat split.
Qed.

Lemma summarize_all_ok e entries : forall w w' rowss,
  map_m entries (summarize e) w = (w', Ok rowss) ->
  cwd w' = cwd w /\ trace w' = trace w /\
  ticks w' = (ticks w + length (List.filter selects entries))%nat /\
  rows_ok e (cwd w) (ticks w) (List.filter selects entries) (concat rowss).
Proof.
  induction entries as [|entry entries IH]; intros w w' rowss H; simpl in H.
  - injection H as <- <-. simpl. repeat split; try lia. constructor.
  - apply bind_ok_inv in H as (w1 & rows & H1 & H).
    apply bind_ok_inv in H as (w2 & rest & H2 & H).
    injection H as <- <-.
    apply summarize_ok in H1 as (C1 & T1 & H1).
    apply IH in H2 as (C2 & T2 & K2 & R2).
    split; [congruence|]. split; [congruence|]. simpl.
    destruct (selects entry).
    + destruct H1 as (K1 & row & -> & Hrow). simpl. split; [lia|].
      unfold rows_ok in *. cbn [length seq combine].
      constructor.
      * simpl. now rewrite Nat.add_0_r.
      * rewrite combine_seq_S. apply Forall2_map_left. rewrite C1 in R2.
        eapply List.Forall2_impl; [|exact R2].
        intros [i x] row' Hr. simpl in *.
        now replace (ticks w + S i)%nat with (ticks w1 + i)%nat by lia.
    + destruct H1 as (K1 & ->). simpl. split; [lia|].
      rewrite C1, K1 in R2. exact R2.
Qed.

Lemma generate_summary_report_ok e w w' :
  generate_summary_report e w = (w', Ok tt) ->
  exists df,
    let entries := List.filter selects (Fs.walk_from [BASE_FOLDER] (cwd w)) in
    rows_ok e (cwd w) (ticks w) entries df /\
    extends w w'
      [ (summary_path, Bytes (to_csv df));
        (executive_path,
         DocxFile (executive_document (clock e (ticks w + length entries)) df)) ] /\
    ticks w' = (ticks w + length entries + 1)%nat.
Proof.
  unfold generate_summary_report. intros H.
  apply bind_ok_inv in H as (w0 & entries & H0 & H).
  injection H0 as <- <-.
  apply bind_ok_inv in H as (w1 & rowss & H1 & H).
  apply summarize_all_ok in H1 as (C1 & T1 & K1 & R1).
  apply bind_ok_inv in H as (w2 & [] & H2 & H).
  apply bind_ok_inv in H as (w3 & ts & H3 & H).
  injection H3 as <- <-.
  apply write_file_ok in H2 as [E2 K2].
  apply write_file_ok in H as [E4 K4]. simpl in *.
  exists (concat rowss). split; [assumption|]. split; [|lia].
  assert (E1 : extends w w1 []) by now apply extends_refl.
  assert (E3 : extends w2 (mkWorld (cwd w2) (S (ticks w2)) (trace w2)) [])
    by now apply extends_refl.
  pose proof (extends_trans _ _ _ _ _ E1
               (extends_trans _ _ _ _ _ E2 (extends_trans _ _ _ _ _ E3 E4))) as E.
  simpl in E. rewrite K2, K1 in E. exact E.
Qed.

(** *** The archive *)

Lemma zip_files_ok root files : forall w w' ms,
  map_m files (fun file =>
     c <- fetch (root ++ [file]) ;;
     ret (relpath (root ++ [file]) [BASE_FOLDER], c)) w = (w', Ok ms) ->
  w' = w /\
  List.Forall2
    (fun f m => exists c, read_file (root ++ [f]) (cwd w) = Some c /\
                          m = (relpath (root ++ [f]) [BASE_FOLDER], c))
    files ms.
Proof.
  induction files as [|f files IH]; intros w w' ms H; simpl in H.
  - injection H as <- <-. split; [reflexivity|constructor].
  - apply bind_ok_inv in H as (w1 & m & H1 & H).
    apply bind_ok_inv in H1 as (w0 & c & H0 & H1).
    apply fetch_ok in H0 as [-> E]. injection H1 as <- <-.
    apply bind_ok_inv in H as (w2 & rest & H2 & H).
    injection H as <- <-.
    apply IH in H2 as (-> & HF).
    split; [reflexivity|]. constructor; [|assumption].
    now exists c.
Qed.

Lemma zip_members_ok entries w w' members :
  zip_members entries w = (w', Ok members) ->
  w' = w /\ members_ok (cwd w) entries members.
Proof.
  unfold zip_members. intros H.
  apply bind_ok_inv in H as (w1 & mss & H1 & H).
  injection H as <- <-.
  enough (w1 = w /\
          List.Forall2
            (fun entry ms =>
               List.Forall2
                 (fun f m =>
                    exists c, read_file (fst (fst entry) ++ [f]) (cwd w) = Some c /\
                              m = (relpath (fst (fst entry) ++ [f]) [BASE_FOLDER], c))
                 (snd entry) ms)
            entries mss) as [-> HF]
    by (split; [reflexivity|now exists mss]).
  revert w w1 mss H1.
  induction entries as [|[[root ds] files] entries IH]; intros w w1 mss H; simpl in H.
  - injection H as <- <-. split; [reflexivity|constructor].
  - apply bind_ok_inv in H as (w2 & ms & H2 & H).
    apply zip_files_ok in H2 as (-> & HF).
    apply bind_ok_inv in H as (w3 & rest & H3 & H).
    injection H as <- <-.
    apply IH in H3 as (-> & HFs).
    split; [reflexivity|]. now constructor.
Qed.

Lemma create_zip_archive_ok e w w' :
  create_zip_archive e w = (w', Ok tt) ->
  exists members,
    members_ok (cwd w) (Fs.walk_from [BASE_FOLDER] (cwd w)) members /\
    extends w w' [(zip_filename, ZipFile members)] /\
    ticks w' = ticks w.
Proof.
  unfold create_zip_archive. intros H.
  apply bind_ok_inv in H as (w0 & entries & H0 & H).
  injection H0 as <- <-.
  apply bind_ok_inv in H as (w1 & members & H1 & H).
  apply zip_members_ok in H1 as (-> & HM).
  apply write_file_ok in H as [E K].
  exists members. now repeat split.
Qed.

Lemma Forall2_In_l {A B} (R : A -> B -> Prop) l l' x :
  List.Forall2 R l l' -> In x l -> exists y, In y l' /\ R x y.
Proof.
  induction 1 as [|a b l l' Hab HF IH]; intros Hin; [destruct Hin|].
  destruct Hin as [<-|Hin].
  - exists b. split; [now left|assumption].
  - destruct (IH Hin) as (y & Hy & Hxy). exists y. split; [now right|assumption].
Qed.

Lemma Forall2_In_r {A B} (R : A -> B -> Prop) l l' y :
  List.Forall2 R l l' -> In y l' -> exists x, In x l /\ R x y.
Proof.
  induction 1 as [|a b l l' Hab HF IH]; intros Hin; [destruct Hin|].
  destruct Hin as [<-|Hin].
  - exists a. split; [now left|assumption].
  - destruct (IH Hin) as (x & Hx & Hxy). exists x. split; [now right|assumption].
Qed.

Lemma relpath_nil p : relpath p [] = p.
Proof. destruct p; reflexivity. Qed.

Lemma relpath_base r : relpath ([BASE_FOLDER] ++ r) [BASE_FOLDER] = r.
Proof. destruct r; reflexivity. Qed.

(** The members of the archive are the files below the output root,
    each under its path relative to the root. *)
Lemma members_spec t members :
  members_ok t (Fs.walk_from [BASE_FOLDER] t) members ->
  forall r c,
    In (r, c) members <-> r <> [] /\ read_file (BASE_FOLDER :: r) t = Some c.
Proof.
  intros (mss & -> & HF) r c. unfold Fs.walk_from in HF. split.
  - intros Hin. apply in_concat in Hin as (ms & Hms & Hin).
    destruct (Forall2_In_r _ _ _ _ HF Hms) as ([[root ds] files] & Hentry & HFf).
    destruct (Forall2_In_r _ _ _ _ HFf Hin) as (f & Hf & c0 & Hread & Heq).
    cbn [fst snd] in *. injection Heq as -> ->.
    destruct (lookup [BASE_FOLDER] t) as [n|]; [|destruct Hentry].
    apply walk_roots_prefix in Hentry as [r0 Hr0]. cbn [fst snd] in Hr0. subst root.
    change (BASE_FOLDER :: r0) with ([BASE_FOLDER] ++ r0) in *.
    rewrite <- app_assoc, relpath_base. rewrite <- app_assoc in Hread.
    split; [now destruct r0|exact Hread].
  - intros [Hr Hread].
    destruct (exists_last Hr) as (r0 & f & ->).
    unfold read_file in Hread.
    change (BASE_FOLDER :: r0 ++ [f]) with ([BASE_FOLDER] ++ r0 ++ [f]) in Hread.
    rewrite lookup_app in Hread.
    destruct (lookup [BASE_FOLDER] t) as [n|] eqn:En; [|discriminate].
    rewrite lookup_app in Hread.
    destruct (lookup r0 n) as [[c0|es]|] eqn:Er0; try discriminate.
    simpl in Hread.
    destruct (lookup1 f es) as [[c1|?]|] eqn:Ef; try discriminate.
    injection Hread as ->.
    pose proof (walk_complete r0 n [BASE_FOLDER] es Er0) as Hw.
    destruct (Forall2_In_l _ _ _ _ HF Hw) as (ms & Hms & HFf). simpl in HFf.
    assert (Hf : In f (filenames es)).
    { apply In_filenames. exists c. now apply lookup1_In. }
    destruct (Forall2_In_l _ _ _ _ HFf Hf) as (m & Hm & c0 & Hread & ->).
    apply in_concat. exists ms. split; [assumption|].
    rewrite relpath_nil in Hm.
    unfold read_file in Hread.
    change (BASE_FOLDER :: r0 ++ [f]) with ([BASE_FOLDER] ++ r0 ++ [f]) in Hread.
    rewrite lookup_app, En, lookup_app, Er0 in Hread.
    simpl in Hread. rewrite Ef in Hread. injection Hread as <-. exact Hm.
Qed.

(** Extracting such an archive into an empty directory gives back the
    files below the output root. *)
Lemma extract_members t members :
  (forall r c,
     In (r, c) members <-> r <> [] /\ read_file (BASE_FOLDER :: r) t = Some c) ->
  exists t',
    extractall members (Dir []) = Some t' /\
    forall r c, read_file r t' = Some c <-> In (r, c) members.
Proof.
  intros Hspec.
  destruct (lookup [BASE_FOLDER] t) as [[c0|ES]|] eqn:En.
  1,3: (assert (members = []) as ->;
        [ destruct members as [|[r c] ms]; [reflexivity|];
          destruct (proj1 (Hspec r c) (or_introl eq_refl)) as [Hr Hread];
          unfold read_file in Hread;
          change (BASE_FOLDER :: r) with ([BASE_FOLDER] ++ r) in Hread;
          rewrite lookup_app, En in Hread;
          try rewrite (lookup_file_below c0 r Hr) in Hread; discriminate
        | exists (Dir []); split; [reflexivity|];
          intros r c; split; [|intros []];
          unfold read_file; destruct r; discriminate ]).
  assert (Hall : forall p c, In (p, c) members -> read_file p (Dir ES) = Some c).
  { intros p c Hin. apply Hspec in Hin as [_ Hread].
    unfold read_file in *.
    change (BASE_FOLDER :: p) with ([BASE_FOLDER] ++ p) in Hread.
    now rewrite lookup_app, En in Hread. }
  destruct (extractall_sub (Dir ES) members (Dir []) (sub_empty ES) eq_refl Hall)
    as (t' & E & Hs & Hd & _ & Hin).
  exists t'. split; [assumption|]. intros r c. split; [|apply Hin].
  intros Hread. pose proof (sub_read _ _ _ _ Hs Hread) as HT.
  apply Hspec. split.
  - intros ->. discriminate.
  - unfold read_file in *.
    change (BASE_FOLDER :: r) with ([BASE_FOLDER] ++ r).
    now rewrite lookup_app, En.
Qed.

(** *** What the per-phase stage leaves behind *)

Lemma append_inj_l s a b : s +:+ a = s +:+ b -> a = b.
Proof. induction s as [|c s IH]; simpl; intros H; [assumption|]. injection H as H. auto. Qed.

Lemma In_all_phase_writes e l : forall n pc,
  In pc (all_phase_writes e n l) <->
  exists i phase, nth_error l i = Some phase /\ In pc (phase_writes e (n + i) phase).
Proof.
  unfold all_phase_writes.
  induction l as [|ph l IH]; intros n pc.
  - simpl. split; [intros []|intros ([|i] & phase & H & _); discriminate].
  - cbn [length seq combine map concat fst snd]. rewrite in_app_iff.
    rewrite combine_seq_S, map_map.
    erewrite (map_ext _ (fun ix => phase_writes e (S n + fst ix) (snd ix)))
      by (intros [i x]; simpl; f_equal; lia).
    rewrite (IH (S n) pc). split.
    + intros [H|(i & phase & Hi & H)].
      * exists 0%nat, ph. split; [reflexivity|assumption].
      * exists (S i), phase. split; [assumption|].
        now replace (n + S i)%nat with (S n + i)%nat by lia.
    + intros ([|i] & phase & Hi & H).
      * left. simpl in Hi. now injection Hi as ->.
      * right. exists i, phase. split; [assumption|].
        now replace (S n + i)%nat with (n + S i)%nat by lia.
Qed.

Lemma phase_paths e l n q :
  In q (map fst (all_phase_writes e n l)) <->
  exists phase, In phase l /\ In q [doc_path phase; xlsx_path phase; csv_path phase].
Proof.
  rewrite in_map_iff. split.
  - intros ([q' c] & <- & H). apply In_all_phase_writes in H as (i & phase & Hi & H).
    exists phase. split; [eapply nth_error_In; eassumption|].
    simpl in *. intuition congruence.
  - intros (phase & Hin & H). apply In_nth_error in Hin as [i Hi].
    assert (Hex : exists c, In (q, c) (phase_writes e (n + i) phase)).
    { simpl in H. destruct H as [<-|[<-|[<-|[]]]]; eexists; simpl; eauto. }
    destruct Hex as [c Hc]. exists (q, c). split; [reflexivity|].
    apply In_all_phase_writes. now exists i, phase.
Qed.

Lemma phase_dir_paths l phase f :
  (exists ph, In ph l /\
              In [BASE_FOLDER; phase; f] [doc_path ph; xlsx_path ph; csv_path ph]) <->
  In phase l /\ In f (phase_files phase).
Proof.
  unfold doc_path, xlsx_path, csv_path, phase_files. simpl. split.
  - intros (ph & Hin & [H|[H|[H|[]]]]); injection H as <- <-; auto.
  - intros [Hin H]. exists phase. split; [assumption|].
    destruct H as [<-|[<-|[<-|[]]]]; auto.
Qed.

Lemma csv_written e l n phase c :
  In (csv_path phase, c) (all_phase_writes e n l) -> c = Bytes (Csv.writerows SAMPLE_DATA).
Proof.
  intros H. apply In_all_phase_writes in H as (i & ph & _ & H).
  unfold phase_writes, doc_path, xlsx_path, csv_path in H.
  destruct H as [H|[H|[H|[]]]]; injection H as <- H1 H2.
  - apply append_inj_l in H1. discriminate.
  - apply append_inj_l in H1. discriminate.
  - now symmetry.
Qed.

Lemma xlsx_written e l n phase c :
  In (xlsx_path phase, c) (all_phase_writes e n l) -> c = XlsxFile the_dashboard.
Proof.
  intros H. apply In_all_phase_writes in H as (i & ph & _ & H).
  unfold phase_writes, doc_path, xlsx_path, csv_path in H.
  destruct H as [H|[H|[H|[]]]]; injection H as <- H1 H2.
  - apply append_inj_l in H1. discriminate.
  - now symmetry.
  - apply append_inj_l in H1. discriminate.
Qed.

(** *** The walked files can be read *)

Lemma walk_files_readable t top root ds fs f :
  wf t = true ->
  In (root, ds, fs) (Fs.walk_from top t) -> In f fs ->
  exists c, read_file (root ++ [f]) t = Some c.
Proof.
  unfold Fs.walk_from. intros Hwf Hin Hf.
  destruct (lookup top t) as [n|] eqn:En; [|destruct Hin].
  pose proof (wf_lookup _ _ _ Hwf En) as Hwfn.
  destruct (walk_sound n top root ds fs Hwfn Hin) as (r & es & -> & Hr & -> & ->).
  pose proof (wf_lookup _ _ _ Hwfn Hr) as Hwfes.
  apply wf_Dir in Hwfes as [Hnd _].
  apply In_filenames in Hf as [c Hc].
  exists c. unfold read_file.
  rewrite <- app_assoc, lookup_app, En, lookup_app, Hr. simpl.
  now rewrite (In_lookup1 f (File c) es Hnd Hc).
Qed.

Lemma zip_files_total root files : forall w,
  (forall f, In f files -> exists c, read_file (root ++ [f]) (cwd w) = Some c) ->
  exists ms,
    map_m files (fun file =>
       c <- fetch (root ++ [file]) ;;
       ret (relpath (root ++ [file]) [BASE_FOLDER], c)) w = (w, Ok ms).
Proof.
  induction files as [|f files IH]; intros w Hall; simpl.
  - now exists [].
  - destruct (Hall f (or_introl eq_refl)) as [c Hc].
    destruct (IH w (fun f' H => Hall f' (or_intror H))) as [ms Hms].
    exists ((relpath (root ++ [f]) [BASE_FOLDER], c) :: ms).
    assert (H1 : (c <- fetch (root ++ [f]) ;;
                  ret (relpath (root ++ [f]) [BASE_FOLDER], c)) w
                 = (w, Ok (relpath (root ++ [f]) [BASE_FOLDER], c)))
      by (unfold bind, fetch, ret; now rewrite Hc).
    rewrite (bind_ok _ _ _ _ _ H1), (bind_ok _ _ _ _ _ Hms). reflexivity.
Qed.

Lemma zip_members_total entries : forall w,
  (forall root ds fs f, In (root, ds, fs) entries -> In f fs ->
     exists c, read_file (root ++ [f]) (cwd w) = Some c) ->
  exists members, zip_members entries w = (w, Ok members).
Proof.
  intros w Hall. unfold zip_members.
  enough (exists mss,
            map_m entries (fun entry =>
              let '(root, _, files) := entry in
              map_m files (fun file =>
                c <- fetch (root ++ [file]) ;;
                ret (relpath (root ++ [file]) [BASE_FOLDER], c))) w = (w, Ok mss))
    as [mss Hmss]
    by (exists (concat mss); now rewrite (bind_ok _ _ _ _ _ Hmss)).
  induction entries as [|[[root ds] fs] entries IH]; simpl.
  - now exists [].
  - destruct (zip_files_total root fs w
                (fun f H => Hall root ds fs f (or_introl eq_refl) H)) as [ms Hms].
    destruct (IH (fun r d fs' f H => Hall r d fs' f (or_intror H))) as [mss Hmss].
    exists (ms :: mss).
    rewrite (bind_ok _ _ _ _ _ Hms), (bind_ok _ _ _ _ _ Hmss). reflexivity.
Qed.

(** A file can be written into a directory where the name is free or
    names a file. *)
Lemma put_total d x new : forall t es,
  lookup d t = Some (Dir es) -> exists t', put (d ++ [x]) new t = Some t'.
Proof.
  induction d as [|y d IH]; intros t es H; simpl in H.
  - injection H as ->. eexists. reflexivity.
  - destruct t as [c|es0]; [discriminate|].
    destruct (lookup1 y es0) as [m|] eqn:E; [|discriminate].
    destruct (IH m es H) as [m' Hm'].
    exists (Dir (set_entry y m' es0)). cbn [app].
    remember (d ++ [x]) as l eqn:El.
    destruct l as [|z l]; [now destruct d|].
    rewrite put_cons2, E, Hm'. reflexivity.
Qed.

Lemma write_node_total p c t :
  writable t p = true -> exists t', write_node p c t = Some t'.
Proof.
  unfold writable, write_node. intros H.
  destruct p as [|x0 p0]; [discriminate|].
  remember (x0 :: p0) as p eqn:Ep.
  assert (Hne : p <> []) by (subst; discriminate).
  destruct (lookup (removelast p) t) as [[?|es]|] eqn:Ed; try discriminate.
  destruct (put_total (removelast p) (List.last p "") (File c) t es Ed) as [t' Ht'].
  rewrite <- (app_removelast_last "" Hne) in Ht'.
  exists t'. destruct (lookup p t) as [[?|?]|]; try discriminate; assumption.
Qed.

Lemma write_file_total e p c w :
  fault e (length (trace w)) = false ->
  writable (cwd w) p = true ->
  exists w', write_file e p c w = (w', Ok tt).
Proof.
  intros Hf Hw. destruct (write_node_total p c _ Hw) as [t' Ht'].
  unfold write_file, attempt. rewrite Hf, Ht'. now eexists.
Qed.

(** A write leaves every path writable that does not pass through the
    written one. *)
Lemma writable_after_write p c q t t' :
  write_node p c t = Some t' ->
  writable t q = true ->
  ~ p `prefix_of` q -> ~ p `prefix_of` removelast q ->
  writable t' q = true.
Proof.
  unfold write_node. intros H Hw Hq Hd.
  assert (Hput : put p (File c) t = Some t')
    by (destruct (lookup p t) as [[?|?]|]; congruence).
  pose proof (lookup_put_other p (File c) q t t' Hput Hq) as H1.
  pose proof (lookup_put_other p (File c) (removelast q) t t' Hput Hd) as H2.
  unfold writable in *. destruct q as [|x q]; [discriminate|].
  destruct (lookup (removelast (x :: q)) t) as [[?|?]|]; try discriminate;
    destruct (lookup (removelast (x :: q)) t') as [[?|?]|]; try contradiction.
  destruct (lookup (x :: q) t) as [[?|?]|]; try discriminate;
    destruct (lookup (x :: q) t') as [[?|?]|]; try contradiction; reflexivity.
Qed.

(** *** The directories that get a row of the summary *)






Lemma getsize_all_total e root files w :
  (forall f, In f files -> exists c, read_file (root ++ [f]) (cwd w) = Some c) ->
  exists sizes,
    map_m files (fun f => os_path_getsize e (root ++ [f])) w = (w, Ok sizes).
Proof.
  induction files as [|f files IH]; intros Hall; simpl.
  - now exists [].
  - destruct (Hall f (or_introl eq_refl)) as [c Hc].
    destruct (IH (fun f' H => Hall f' (or_intror H))) as [sizes Hs].
    exists (getsize e c :: sizes).
    assert (H1 : os_path_getsize e (root ++ [f]) w = (w, Ok (getsize e c)))
      by (unfold os_path_getsize, bind, fetch, ret; now rewrite Hc).
    rewrite (bind_ok _ _ _ _ _ H1), (bind_ok _ _ _ _ _ Hs). reflexivity.
Qed.

Lemma summarize_total e entry w :
  (forall f, In f (snd entry) ->
     exists c, read_file (fst (fst entry) ++ [f]) (cwd w) = Some c) ->
  exists w' rows, summarize e entry w = (w', Ok rows).
Proof.
  destruct entry as [[root ds] fs]. cbn [fst snd]. intros Hall. unfold summarize.
  destruct (negb (length fs =? 0)%nat && contains "Phase_" (join_path root)).
  - destruct (getsize_all_total e root fs w Hall) as [sizes Hs].
    rewrite (bind_ok _ _ _ _ _ Hs).
    do 2 eexists. unfold bind, now, ret. reflexivity.
  - do 2 eexists. reflexivity.
Qed.

Lemma summarize_all_total e entries : forall w,
  (forall root ds fs f, In (root, ds, fs) entries -> In f fs ->
     exists c, read_file (root ++ [f]) (cwd w) = Some c) ->
  exists w' rowss, map_m entries (summarize e) w = (w', Ok rowss).
Proof.
  induction entries as [|[[root ds] fs] entries IH]; intros w Hall; simpl.
  - do 2 eexists. reflexivity.
  - destruct (summarize_total e (root, ds, fs) w
                (fun f H => Hall root ds fs f (or_introl eq_refl) H)) as (w1 & rows & H1).
    pose proof (summarize_ok _ _ _ _ _ H1) as (C1 & _).
    destruct (IH w1) as (w2 & rowss & H2).
    { intros r d fs' f Hin Hf. rewrite C1. exact (Hall r d fs' f (or_intror Hin) Hf). }
    exists w2, (rows :: rowss).
    rewrite (bind_ok _ _ _ _ _ H1), (bind_ok _ _ _ _ _ H2). reflexivity.
Qed.

(** The summary stage runs to its end where its two files can be
    written. *)
Lemma generate_summary_report_total e w :
  wf (cwd w) = true ->
  writable (cwd w) summary_path = true ->
  writable (cwd w) executive_path = true ->
  fault e (length (trace w)) = false ->
  fault e (S (length (trace w))) = false ->
  exists w', generate_summary_report e w = (w', Ok tt).
Proof.
  intros Hwf Hs Hx Hf1 Hf2. unfold generate_summary_report.
  rewrite (bind_ok _ _ w w (Fs.walk_from [BASE_FOLDER] (cwd w)) eq_refl).
  destruct (summarize_all_total e (Fs.walk_from [BASE_FOLDER] (cwd w)) w)
    as (w1 & rowss & H1).
  { intros root ds fs f Hin Hf. now apply (walk_files_readable _ [BASE_FOLDER] root ds fs). }
  rewrite (bind_ok _ _ _ _ _ H1).
  apply summarize_all_ok in H1 as (C1 & T1 & _).
  destruct (write_file_total e summary_path (Bytes (to_csv (concat rowss))) w1)
    as [w2 H2]; [now rewrite T1|now rewrite C1|].
  rewrite (bind_ok _ _ _ _ _ H2).
  apply attempt_ok in H2 as (_ & Hn2 & _ & T2).
  rewrite (bind_ok _ _ w2 (mkWorld (cwd w2) (S (ticks w2)) (trace w2))
             (clock e (ticks w2)) eq_refl).
  apply write_file_total; simpl.
  - rewrite T2, T1, length_app. simpl. now rewrite Nat.add_1_r.
  - apply (writable_after_write summary_path (Bytes (to_csv (concat rowss)))
             executive_path (cwd w1)); try assumption.
    + now rewrite C1.
    + intros [k Hk]. discriminate.
    + intros [k Hk]. discriminate.
Qed.


Lemma main_ok e w w' :
  main e w = (w', Ok tt) ->
  exists w1 w2 w3,
    create_phase_folders e w = (w1, Ok tt) /\
    generate_phase_files e w1 = (w2, Ok tt) /\
    generate_summary_report e w2 = (w3, Ok tt) /\
    create_zip_archive e w3 = (w', Ok tt).
Proof.
  unfold main. intros H.
  apply bind_ok_inv in H as (w1 & [] & H1 & H).
  apply bind_ok_inv in H as (w2 & [] & H2 & H).
  apply bind_ok_inv in H as (w3 & [] & H3 & H).
  now exists w1, w2, w3.
Qed.

(** *** A whole run *)

Lemma In_generated_paths e n q :
  In q (map fst (all_phase_writes e n PHASES)) \/ In q [summary_path; executive_path]
  <-> In q generated_paths.
Proof.
  unfold generated_paths. rewrite in_app_iff, phase_paths, in_flat_map. tauto.
Qed.

(** What a successful run wrote, and the member paths of its archive. *)
Lemma main_extends e w w' :
  main e w = (w', Ok tt) ->
  exists df ts members,
    extends w w'
      (all_phase_writes e (ticks w) PHASES
       ++ [ (summary_path, Bytes (to_csv df));
            (executive_path, DocxFile (executive_document ts df)) ]
       ++ [ (zip_filename, ZipFile members) ]) /\
    forall r,
      In r (map fst members) <->
      r <> [] /\
      (In (BASE_FOLDER :: r) generated_paths \/
       is_Some (read_file (BASE_FOLDER :: r) (cwd w))).
Proof.
  intros H. apply main_ok in H as (w1 & w2 & w3 & H1 & H2 & H3 & H4).
  apply create_phase_folders_ok in H1 as [E1 K1].
  apply generate_phase_files_ok in H2 as [E2 _].
  apply generate_summary_report_ok in H3 as (df & _ & E3 & _).
  apply create_zip_archive_ok in H4 as (members & Hm & E4 & _).
  rewrite K1 in E2.
  pose proof (extends_trans _ _ _ _ _ E1 (extends_trans _ _ _ _ _ E2 E3)) as E13.
  rewrite app_nil_l in E13.
  pose proof (extends_trans _ _ _ _ _ E13 E4) as E.
  rewrite <- app_assoc in E.
  do 3 eexists. split; [exact E|].
  intros r. pose proof (members_spec _ _ Hm r) as Hspec.
  destruct E13 as (evs & T & W & R).
  pose proof (read_replay_some evs _ _ (BASE_FOLDER :: r) R) as Hsome.
  rewrite W, map_app, in_app_iff in Hsome. cbn [map fst] in Hsome.
  rewrite In_generated_paths in Hsome. rewrite <- Hsome.
  rewrite in_map_iff. split.
  - intros ([r' c] & <- & Hin). apply Hspec in Hin as [Hr Hread].
    split; [assumption|]. now exists c.
  - intros [Hr [c Hread]]. exists (r, c). split; [reflexivity|].
    apply Hspec. now split.
Qed.





End ScriptFacts.

(** ** The workbook *)

Module DashboardFacts.
Import Openpyxl Script Tally Sheets PandasFacts.

Lemma append_all_rows rs : forall ws, rows (append_all rs ws) = rows ws ++ rs.
Proof.
  unfold append_all. induction rs as [|r rs IH]; intros ws; simpl.
  - now rewrite app_nil_r.
  - rewrite IH. simpl. now rewrite <- app_assoc.
Qed.

Lemma append_all_title rs : forall ws, title (append_all rs ws) = title ws.
Proof.
  unfold append_all. induction rs as [|r rs IH]; intros ws; simpl; [reflexivity|].
  now rewrite IH.
Qed.

Lemma append_all_charts rs : forall ws, charts (append_all rs ws) = charts ws.
Proof.
  unfold append_all. induction rs as [|r rs IH]; intros ws; simpl; [reflexivity|].
  now rewrite IH.
Qed.

Lemma set_widths_keep (f : nat -> nat) l : forall w0,
  let w := fold_left (fun w j => set_width (get_column_letter (S j)) (f j) w) l w0 in
  title w = title w0 /\ rows w = rows w0 /\ charts w = charts w0.
Proof.
  induction l as [|j l IH]; intros w0; simpl; [auto|].
  destruct (IH (set_width (get_column_letter (S j)) (f j) w0)) as (H1 & H2 & H3).
  simpl in *. now rewrite H1, H2, H3.
Qed.

Lemma autosize_keeps ws :
  title (autosize ws) = title ws /\ rows (autosize ws) = rows ws /\
  charts (autosize ws) = charts ws.
Proof.
  unfold autosize.
  apply (set_widths_keep
           (fun j => (fold_right Nat.max 0 (map cell_len (column j ws)) + 2)%nat)).
Qed.

Lemma sum_counts_status_rows statuses :
  sum_counts (status_rows statuses) = Z.of_nat (length statuses).
Proof.
  unfold status_rows. rewrite <- (count_sum_value_counts statuses).
  induction (Pandas.value_counts statuses) as [|[k n] t IH]; simpl; [reflexivity|].
  rewrite IH. lia.
Qed.

Lemma status_rows_desc statuses : rows_desc (status_rows statuses).
Proof.
  unfold status_rows, rows_desc.
  pose proof (value_counts_sorted statuses) as Hs.
  induction Hs as [|kv t Hs IH Hh]; simpl; constructor; [assumption|].
  destruct Hh as [|kv' t' Hd]; simpl; constructor.
  unfold desc in Hd. simpl. lia.
Qed.

(** The three sheets of the workbook built from any table. *)
Lemma dashboard_of_sheets table trend wb :
  dashboard_of table trend = Some wb ->
  exists statuses ws1 ws2 ws3,
    statuses_of table = Some statuses /\
    wb = [ws1; ws2; ws3] /\
    title ws1 = "Controls" /\ rows ws1 = map (map CStr) table /\
    title ws2 = "Status Summary" /\
    rows ws2 = [CStr "Status"; CStr "Count"] :: status_rows statuses /\
    title ws3 = "Compliance Trend" /\ rows ws3 = trend.
Proof.
  unfold dashboard_of. destruct (statuses_of table) as [statuses|]; [|discriminate].
  intros H. injection H as <-. exists statuses.
  cbn [Workbook active on_sheet create_sheet alter list_alter app length fst snd].
  do 3 eexists. split; [reflexivity|]. split; [reflexivity|].
  destruct (autosize_keeps
              (append_all (map (map CStr) table)
                 (set_sheet_title "Controls" (mkSheet "Sheet" [] [] [])))) as (H1 & H2 & _).
  repeat split.
  - now rewrite H1, append_all_title.
  - now rewrite H2, append_all_rows.
  - cbn [add_chart title]. now rewrite append_all_title.
  - cbn [add_chart rows]. now rewrite append_all_rows.
  - cbn [add_chart title]. now rewrite append_all_title.
  - cbn [add_chart rows]. now rewrite append_all_rows.
Qed.

Lemma statuses_length table statuses :
  statuses_of table = Some statuses -> length statuses = length (tl table).
Proof. unfold statuses_of. intros H. symmetry. now apply length_mapM in H. Qed.

End DashboardFacts.

(** ** Sample evaluations *)

Module Examples.
Import Fs Run Script Histories Stages Samples.

(** From an empty working directory, with no write refused, the script
    runs to its end whatever the clock and the file sizes are. *)
Lemma main_on_fresh clk gs :
  snd (main (mkEnv clk gs (fun _ => false)) fresh) = Ok tt.
Proof. vm_compute. reflexivity. Qed.

(** So does the per-phase stage once the folders are there. *)
Lemma phase_files_on_prepared clk gs :
  snd (generate_phase_files (mkEnv clk gs (fun _ => false)) prepared) = Ok tt.
Proof. vm_compute. reflexivity. Qed.

Example value_counts_of_statuses :
  Pandas.value_counts ["Active"; "In Progress"; "Completed"; "Completed"; "Planned"]
  = [("Completed", 2); ("Active", 1); ("In Progress", 1); ("Planned", 1)]%nat.
Proof. reflexivity. Qed.

Example column_letters :
  map Openpyxl.get_column_letter [1; 26; 27; 52; 53; 702; 703]%nat
  = ["A"; "Z"; "AA"; "AZ"; "BA"; "ZZ"; "AAA"].
Proof. reflexivity. Qed.

(** 0.125 KB and 0.375 KB are ties; they go to the even hundredth. *)
Example round_kb_ties :
  map round_kb [0; 5; 6; 128; 384; 1024; 1536]%N = [0; 0; 1; 12; 38; 100; 150]%Z.
Proof. reflexivity. Qed.

Example float_strs :
  map float_str [0; 7; 10; 100; 3650; 7169]%Z = ["0.0"; "0.07"; "0.1"; "1.0"; "36.5"; "71.69"].
Proof. reflexivity. Qed.

(** A field with a comma is quoted, and read back without the quotes. *)
Example quoted_field :
  Csv.read (Csv.writerows [["a,b"; "c"; ""]; []; [""]])
  = Some [["a,b"; "c"; ""]; []; [""]] /\
  String.length (Csv.writerow ["a,b"; "c"; ""]) = 10%nat.
Proof. split; reflexivity. Qed.

Example summary_of_sample_run :
  read_file summary_path (cwd summarized)
  = Some (Bytes (to_csv
      [ mkRow "Phase_1_Governance_Risk_SOC" 3 7169 "2025-11-04 12:00:05";
        mkRow "Phase_2_Technical_Controls_Monitoring" 3 7169 "2025-11-04 12:00:06";
        mkRow "Phase_3_Threat_Intel_Automation" 3 7169 "2025-11-04 12:00:07";
        mkRow "Phase_4_Compliance_Audit" 3 7169 "2025-11-04 12:00:08";
        mkRow "Phase_5_Awareness_Reporting" 3 7169 "2025-11-04 12:00:09" ])).
Proof. vm_compute. reflexivity. Qed.

(** Read back, the summary of the sample run is a header and one row
    for each of the five phases. *)
Example summary_reads_back :
  match read_file summary_path (cwd summarized) with
  | Some (Bytes text) => Csv.read text
  | _ => None
  end
  = Some [ ["Phase"; "Files"; "Total_Size_KB"; "Last_Updated"];
           ["Phase_1_Governance_Risk_SOC"; "3"; "71.69"; "2025-11-04 12:00:05"];
           ["Phase_2_Technical_Controls_Monitoring"; "3"; "71.69"; "2025-11-04 12:00:06"];
           ["Phase_3_Threat_Intel_Automation"; "3"; "71.69"; "2025-11-04 12:00:07"];
           ["Phase_4_Compliance_Audit"; "3"; "71.69"; "2025-11-04 12:00:08"];
           ["Phase_5_Awareness_Reporting"; "3"; "71.69"; "2025-11-04 12:00:09"] ].
Proof. vm_compute. reflexivity. Qed.

(** The archive of the sample run has seventeen members. *)
Example archive_of_sample_run :
  match read_file zip_filename (cwd (fst (main sample_env fresh))) with
  | Some (ZipFile members) => length members
  | _ => 0%nat
  end = 17%nat.
Proof. vm_compute. reflexivity. Qed.

(** When the thirteenth attempt is refused, the run has made seven
    directories and written five files, and stops there. *)
Example history_of_failing_run :
  map is_failed (trace (fst (main failing_env fresh)))
  = repeat false 12 ++ [true] /\
  length (writes (trace (fst (main failing_env fresh)))) = 5%nat /\
  read_file summary_path (cwd (fst (main failing_env fresh))) = None.
Proof. vm_compute. auto. Qed.

End Examples.

(** * The statements of the specification *)

Import Fs Run Script Tally Trees Histories Stages Sheets Samples.
Import FsFacts RunFacts ScriptFacts DashboardFacts.

(** C1. For every configured phase, the CSV file in the phase's directory
    after the per-phase stage is the text of the control-record table:
    reading it back with the CSV reader gives the table itself, the
    header row and the five control rows, in order. *)
Theorem csv_artifact_round_trip e w w' phase :
  generate_phase_files e w = (w', Ok tt) ->
  In phase PHASES ->
  exists text,
    read_file (csv_path phase) (cwd w') = Some (Bytes text) /\
    Csv.read text = Some SAMPLE_DATA /\
    length SAMPLE_DATA = 6%nat.
Proof.
  intros H Hin. apply generate_phase_files_ok in H as [(evs & T & W & R) _].
  exists (Csv.writerows SAMPLE_DATA).
  split; [|split; [apply CsvFacts.read_writerows|reflexivity]].
  apply (read_replay_written evs (cwd w)); [assumption| |].
  - rewrite W. apply phase_paths. exists phase. split; [assumption|].
    right. right. now left.
  - rewrite W. intros c'. apply csv_written.
Qed.

Lemma csv_artifact_round_trip_witness :
  exists text,
    read_file (csv_path "Phase_3_Threat_Intel_Automation") (cwd generated)
      = Some (Bytes text) /\
    Csv.read text = Some SAMPLE_DATA /\
    length SAMPLE_DATA = 6%nat.
Proof.
  apply (csv_artifact_round_trip sample_env prepared generated
           "Phase_3_Threat_Intel_Automation").
  - vm_compute. reflexivity.
  - simpl. auto.
Defined.

(** C9. The CSV files of any two configured phases hold the same text,
    the rendering of the control-record table, in which the phase name
    does not occur as a parameter. *)
Theorem csv_same_for_all_phases e w w' phase1 phase2 :
  generate_phase_files e w = (w', Ok tt) ->
  In phase1 PHASES -> In phase2 PHASES ->
  read_file (csv_path phase1) (cwd w') = Some (Bytes (Csv.writerows SAMPLE_DATA)) /\
  read_file (csv_path phase2) (cwd w') = read_file (csv_path phase1) (cwd w').
Proof.
  intros H Hin1 Hin2. apply generate_phase_files_ok in H as [(evs & T & W & R) _].
  assert (Hcsv : forall phase, In phase PHASES ->
            read_file (csv_path phase) (cwd w') = Some (Bytes (Csv.writerows SAMPLE_DATA))).
  { intros phase Hin.
    apply (read_replay_written evs (cwd w)); [assumption| |].
    - rewrite W. apply phase_paths. exists phase. split; [assumption|].
      right. right. now left.
    - rewrite W. intros c'. apply csv_written. }
  split; [now apply Hcsv|]. now rewrite !Hcsv.
Qed.

Lemma csv_same_for_all_phases_witness :
  read_file (csv_path "Phase_1_Governance_Risk_SOC") (cwd generated)
    = Some (Bytes (Csv.writerows SAMPLE_DATA)) /\
  read_file (csv_path "Phase_5_Awareness_Reporting") (cwd generated)
    = read_file (csv_path "Phase_1_Governance_Risk_SOC") (cwd generated).
Proof.
  apply (csv_same_for_all_phases sample_env prepared generated).
  - vm_compute. reflexivity.
  - simpl. auto.
  - simpl. auto 10.
Defined.

(** The workbook of a phase after the per-phase stage. *)
Lemma xlsx_artifact e w w' phase :
  generate_phase_files e w = (w', Ok tt) ->
  In phase PHASES ->
  read_file (xlsx_path phase) (cwd w') = Some (XlsxFile the_dashboard).
Proof.
  intros H Hin. apply generate_phase_files_ok in H as [(evs & T & W & R) _].
  apply (read_replay_written evs (cwd w)); [assumption| |].
  - rewrite W. apply phase_paths. exists phase. split; [assumption|].
    right. now left.
  - rewrite W. intros c'. apply xlsx_written.
Qed.

(** C2. In the workbook of every phase, the counts of the Status Summary
    sheet add up to the number of control records, which is 5. *)
Theorem status_counts_sum_to_records e w w' phase :
  generate_phase_files e w = (w', Ok tt) ->
  In phase PHASES ->
  exists wb ws2,
    read_file (xlsx_path phase) (cwd w') = Some (XlsxFile wb) /\
    nth_error wb 1 = Some ws2 /\
    Openpyxl.title ws2 = "Status Summary" /\
    sum_counts (tl (Openpyxl.rows ws2)) = Z.of_nat (length (tl SAMPLE_DATA)) /\
    length (tl SAMPLE_DATA) = 5%nat.
Proof.
  intros H Hin.
  destruct (dashboard_of_sheets _ _ _ dashboard_built)
    as (statuses & ws1 & ws2 & ws3 & Hst & Hwb & _ & _ & Ht2 & Hr2 & _).
  exists the_dashboard, ws2. split; [now apply (xlsx_artifact e w)|].
  rewrite Hwb. split; [reflexivity|]. split; [assumption|].
  split; [|reflexivity].
  rewrite Hr2. simpl tl.
  now rewrite sum_counts_status_rows, (statuses_length _ _ Hst).
Qed.

Lemma status_counts_sum_to_records_witness :
  exists wb ws2,
    read_file (xlsx_path "Phase_2_Technical_Controls_Monitoring") (cwd generated)
      = Some (XlsxFile wb) /\
    nth_error wb 1 = Some ws2 /\
    Openpyxl.title ws2 = "Status Summary" /\
    sum_counts (tl (Openpyxl.rows ws2)) = Z.of_nat (length (tl SAMPLE_DATA)) /\
    length (tl SAMPLE_DATA) = 5%nat.
Proof.
  apply (status_counts_sum_to_records sample_env prepared generated).
  - vm_compute. reflexivity.
  - simpl. auto.
Defined.

(** C10. In the workbook of every phase, the data rows of the Status
    Summary sheet come in non-increasing order of count. *)
Theorem status_rows_by_falling_count e w w' phase :
  generate_phase_files e w = (w', Ok tt) ->
  In phase PHASES ->
  exists wb ws2,
    read_file (xlsx_path phase) (cwd w') = Some (XlsxFile wb) /\
    nth_error wb 1 = Some ws2 /\
    Openpyxl.title ws2 = "Status Summary" /\
    rows_desc (tl (Openpyxl.rows ws2)).
Proof.
  intros H Hin.
  destruct (dashboard_of_sheets _ _ _ dashboard_built)
    as (statuses & ws1 & ws2 & ws3 & Hst & Hwb & _ & _ & Ht2 & Hr2 & _).
  exists the_dashboard, ws2. split; [now apply (xlsx_artifact e w)|].
  rewrite Hwb. split; [reflexivity|]. split; [assumption|].
  rewrite Hr2. simpl tl. apply status_rows_desc.
Qed.

Lemma status_rows_by_falling_count_witness :
  exists wb ws2,
    read_file (xlsx_path "Phase_4_Compliance_Audit") (cwd generated)
      = Some (XlsxFile wb) /\
    nth_error wb 1 = Some ws2 /\
    Openpyxl.title ws2 = "Status Summary" /\
    rows_desc (tl (Openpyxl.rows ws2)).
Proof.
  apply (status_rows_by_falling_count sample_env prepared generated).
  - vm_compute. reflexivity.
  - simpl. auto 10.
Defined.

(** C6. The workbook of every phase has the three sheets Controls,
    Status Summary and Compliance Trend.  Controls holds the control
    records as they are, each column as wide as its longest entry plus 2;
    Status Summary holds a header and one (status, count) row per
    distinct status, with a pie chart at D2 and a bar chart at D20 that
    both take their data from the count column, header included;
    Compliance Trend holds the trend records and a line chart at D4. *)
Theorem dashboard_layout e w w' phase :
  generate_phase_files e w = (w', Ok tt) ->
  In phase PHASES ->
  read_file (xlsx_path phase) (cwd w') = Some (XlsxFile [sheet 0; sheet 1; sheet 2]) /\
  map Openpyxl.title [sheet 0; sheet 1; sheet 2]
    = ["Controls"; "Status Summary"; "Compliance Trend"] /\
  (* Controls *)
  Openpyxl.rows (sheet 0) = map (map CStr) SAMPLE_DATA /\
  (forall j, (j < 5)%nat ->
     width_of (Openpyxl.get_column_letter (S j)) (sheet 0) = Some (longest j + 2)%nat) /\
  Openpyxl.charts (sheet 0) = [] /\
  (* Status Summary *)
  (exists statuses,
     statuses_of SAMPLE_DATA = Some statuses /\
     Openpyxl.rows (sheet 1)
       = [CStr "Status"; CStr "Count"]
         :: map (fun kv => [CStr (fst kv); CInt (Z.of_nat (snd kv))])
                (Pandas.value_counts statuses) /\
     List.NoDup (map fst (Pandas.value_counts statuses)) /\
     (forall s n, In (s, n) (Pandas.value_counts statuses) <->
                  (0 < n)%nat /\ n = Tally.occurrences s statuses)) /\
  (let count_range :=
     Openpyxl.mkReference "Status Summary" 2 1 2 (length (Openpyxl.rows (sheet 1))) in
   let labels :=
     Openpyxl.mkReference "Status Summary" 1 2 1 (length (Openpyxl.rows (sheet 1))) in
   map chart_layout (Openpyxl.charts (sheet 1))
     = [ (Openpyxl.PieChart, [(count_range, true)], Some labels, "D2");
         (Openpyxl.BarChart, [(count_range, true)], Some labels, "D20") ]) /\
  (* Compliance Trend *)
  Openpyxl.rows (sheet 2) = TREND_DATA /\
  map chart_layout (Openpyxl.charts (sheet 2))
    = [ (Openpyxl.LineChart,
         [(Openpyxl.mkReference "Compliance Trend" 2 1 2 (length TREND_DATA), true)],
         Some (Openpyxl.mkReference "Compliance Trend" 1 2 1 (length TREND_DATA)),
         "D4") ].
Proof.
  intros H Hin.
  split; [exact (xlsx_artifact e w w' phase H Hin)|].
  split; [reflexivity|]. split; [reflexivity|].
  split.
  { intros j Hj.
    do 5 (destruct j as [|j]; [reflexivity|]). lia. }
  split; [reflexivity|]. split.
  { destruct (statuses_of SAMPLE_DATA) as [statuses|] eqn:E; [|discriminate].
    exists statuses. split; [reflexivity|]. split.
    - vm_compute in E. injection E as <-. reflexivity.
    - split; [apply PandasFacts.value_counts_keys|].
      intros s n. apply PandasFacts.value_counts_spec. }
  split; [reflexivity|]. split; reflexivity.
Qed.

Lemma dashboard_layout_witness :
  read_file (xlsx_path "Phase_5_Awareness_Reporting") (cwd generated)
    = Some (XlsxFile [sheet 0; sheet 1; sheet 2]) /\
  map Openpyxl.title [sheet 0; sheet 1; sheet 2]
    = ["Controls"; "Status Summary"; "Compliance Trend"].
Proof.
  destruct (dashboard_layout sample_env prepared generated "Phase_5_Awareness_Reporting")
    as (H1 & H2 & _).
  - vm_compute. reflexivity.
  - simpl. auto 10.
  - split; assumption.
Defined.

(** C3, as stated, fails: [os.makedirs(..., exist_ok=True)] accepts a
    phase directory that is there already, the stage runs to its end, and
    the file the directory held is still there as a fourth one. *)
Lemma exactly_three_files_counterexample :
  create_phase_folders sample_env stale = (stale_prepared, Ok tt) /\
  generate_phase_files sample_env stale_prepared = (stale_generated, Ok tt) /\
  In "Phase_1_Governance_Risk_SOC" PHASES /\
  ~ (forall f,
       holds_file (cwd stale_generated) [BASE_FOLDER; "Phase_1_Governance_Risk_SOC"] f
       <-> In f (phase_files "Phase_1_Governance_Risk_SOC")).
Proof.
  split; [vm_compute; reflexivity|].
  split; [vm_compute; reflexivity|].
  split; [simpl; auto|].
  intros H. destruct (H "notes.txt") as [H1 _].
  assert (Hin : In "notes.txt" (phase_files "Phase_1_Governance_Risk_SOC")).
  { apply H1. exists (Bytes "keep"). vm_compute. reflexivity. }
  simpl in Hin. destruct Hin as [E|[E|[E|[]]]]; discriminate.
Qed.

(** C3, amended.  After the per-phase stage the directory of every
    configured phase holds the three files named after the phase, which
    are distinct, and besides them the files it held before and no
    others; so it holds these three files and no others when it held no
    other file before. *)
Theorem phase_directory_files e w w' phase :
  generate_phase_files e w = (w', Ok tt) ->
  In phase PHASES ->
  List.NoDup (phase_files phase) /\
  (forall f,
     holds_file (cwd w') [BASE_FOLDER; phase] f <->
     In f (phase_files phase) \/ holds_file (cwd w) [BASE_FOLDER; phase] f) /\
  ((forall f, holds_file (cwd w) [BASE_FOLDER; phase] f -> In f (phase_files phase)) ->
   forall f, holds_file (cwd w') [BASE_FOLDER; phase] f <-> In f (phase_files phase)).
Proof.
  intros H Hin. apply generate_phase_files_ok in H as [(evs & T & W & R) _].
  assert (Hfiles : forall f,
     holds_file (cwd w') [BASE_FOLDER; phase] f <->
     In f (phase_files phase) \/ holds_file (cwd w) [BASE_FOLDER; phase] f).
  { intros f. unfold holds_file.
    rewrite (read_replay_some evs (cwd w) (cwd w') _ R), W, phase_paths.
    simpl app. rewrite phase_dir_paths. tauto. }
  split; [|split; [exact Hfiles|]].
  - unfold phase_files. repeat constructor; simpl.
    + intros [E|[E|[]]]; apply append_inj_l in E; discriminate.
    + intros [E|[]]; apply append_inj_l in E; discriminate.
    + intros [].
  - intros Hold f. rewrite Hfiles. split; [intros [?|?]; auto|auto].
Qed.

Lemma phase_directory_files_witness :
  List.NoDup (phase_files "Phase_1_Governance_Risk_SOC") /\
  (holds_file (cwd stale_generated) [BASE_FOLDER; "Phase_1_Governance_Risk_SOC"] "notes.txt"
   <-> In "notes.txt" (phase_files "Phase_1_Governance_Risk_SOC")
       \/ holds_file (cwd stale_prepared)
            [BASE_FOLDER; "Phase_1_Governance_Risk_SOC"] "notes.txt").
Proof.
  destruct (phase_directory_files sample_env stale_prepared stale_generated
              "Phase_1_Governance_Risk_SOC") as (H1 & H2 & _).
  - vm_compute. reflexivity.
  - simpl. auto.
  - split; [exact H1|exact (H2 "notes.txt")].
Defined.

(** C4. Where the archive can be written, the archiver writes one file,
    the archive.  Its members are the files below the output root, each
    under its path relative to the root, and extracting it into an empty
    directory gives a tree that holds, at these relative paths, the same
    contents and nothing else. *)
Theorem archive_round_trip e w :
  wf (cwd w) = true ->
  writable (cwd w) zip_filename = true ->
  fault e (length (trace w)) = false ->
  exists w' members,
    create_zip_archive e w = (w', Ok tt) /\
    extends w w' [(zip_filename, ZipFile members)] /\
    read_file zip_filename (cwd w') = Some (ZipFile members) /\
    (forall r c,
       In (r, c) members <-> r <> [] /\ read_file (BASE_FOLDER :: r) (cwd w) = Some c) /\
    exists t,
      extractall members (Dir []) = Some t /\
      forall r c,
        read_file r t = Some c <-> r <> [] /\ read_file (BASE_FOLDER :: r) (cwd w) = Some c.
Proof.
  intros Hwf Hzip Hfault.
  destruct (zip_members_total (Fs.walk_from [BASE_FOLDER] (cwd w)) w) as [members Hm].
  { intros root ds fs f Hin Hf. now apply (walk_files_readable _ [BASE_FOLDER] root ds fs). }
  destruct (write_file_total e zip_filename (ZipFile members) w Hfault Hzip) as [w' Hw'].
  assert (Hrun : create_zip_archive e w = (w', Ok tt)).
  { unfold create_zip_archive.
    rewrite (bind_ok _ _ w w (Fs.walk_from [BASE_FOLDER] (cwd w)) eq_refl).
    rewrite (bind_ok _ _ _ _ _ Hm). exact Hw'. }
  exists w', members. split; [exact Hrun|].
  apply zip_members_ok in Hm as [_ Hok].
  apply write_file_ok in Hw' as [Hext _].
  pose proof (members_spec _ _ Hok) as Hspec.
  split; [exact Hext|]. split; [|split; [exact Hspec|]].
  - destruct Hext as (evs & T & W & R).
    apply (read_replay_written evs (cwd w)); [assumption| |]; rewrite W; simpl.
    + now left.
    + intros c' [E|[]]. now injection E as <-.
  - destruct (extract_members _ _ Hspec) as (t & Ht & Hread).
    exists t. split; [exact Ht|]. intros r c. now rewrite Hread.
Qed.

Lemma archive_round_trip_witness :
  exists w' members,
    create_zip_archive sample_env summarized = (w', Ok tt) /\
    extends summarized w' [(zip_filename, ZipFile members)] /\
    read_file zip_filename (cwd w') = Some (ZipFile members) /\
    (forall r c,
       In (r, c) members <->
       r <> [] /\ read_file (BASE_FOLDER :: r) (cwd summarized) = Some c) /\
    exists t,
      extractall members (Dir []) = Some t /\
      forall r c,
        read_file r t = Some c <->
        r <> [] /\ read_file (BASE_FOLDER :: r) (cwd summarized) = Some c.
Proof.
  apply (archive_round_trip sample_env summarized).
  - vm_compute. reflexivity.
  - vm_compute. reflexivity.
  - reflexivity.
Defined.





(** C8.  Whatever the platform refuses and wherever a run starts: the
    history of the run has a failed attempt for every refused one; a
    failed attempt is the last event of the history, nothing is attempted
    after it, and the run ends with the error it raised; and the tree at
    the end is the tree at the start with the writes made before the
    failure, so every file holds what was last written to it and no other
    file was changed or removed. *)
Theorem write_failure_is_fatal e w :
  exists evs,
    trace (fst (main e w)) = trace w ++ evs /\
    (forall i ev, nth_error evs i = Some ev ->
       fault e (length (trace w) + i) = true -> is_failed ev = true) /\
    (forall p, In (Failed p) evs ->
       snd (main e w) = Raise (OSError p) /\
       exists evs0, evs = evs0 ++ [Failed p] /\ no_failed evs0) /\
    replay evs (cwd w) = Some (cwd (fst (main e w))) /\
    (forall q,
       read_file q (cwd (fst (main e w))) =
       match List.find (fun pc => bool_decide (fst pc = q)) (rev (writes evs)) with
       | Some pc => Some (snd pc)
       | None => read_file q (cwd w)
       end).
Proof.
  destruct (effect_main e w) as [evs [T R K O F]].
  exists evs. split; [exact T|]. split; [exact F|].
  split; [|split; [exact R|]].
  - intros p Hin. destruct O as [Hn|(evs0 & p' & -> & Hn & Hr)].
    + exfalso. unfold no_failed in Hn. rewrite forallb_forall in Hn.
      specialize (Hn _ Hin). discriminate.
    + apply in_app_iff in Hin as [Hin|[Hin|[]]].
      * exfalso. unfold no_failed in Hn. rewrite forallb_forall in Hn.
        specialize (Hn _ Hin). discriminate.
      * injection Hin as ->. split; [assumption|]. now exists evs0.
  - intros q. now apply read_replay.
Qed.

Lemma write_failure_is_fatal_witness :
  snd (main failing_env fresh) = Raise (OSError (csv_path "Phase_2_Technical_Controls_Monitoring")) /\
  read_file (csv_path "Phase_1_Governance_Risk_SOC") (cwd (fst (main failing_env fresh)))
    = Some (Bytes (Csv.writerows SAMPLE_DATA)).
Proof.
  destruct (write_failure_is_fatal failing_env fresh) as (evs & T & _ & Hfail & _ & Hread).
  change (trace fresh ++ evs) with evs in T. subst evs. split.
  - apply Hfail. vm_compute. repeat first [left; reflexivity | right].
  - rewrite Hread. vm_compute. reflexivity.
Defined.

(** * Further properties of the code *)

(** ** Making the folders *)

Module FolderFacts.
Import Fs Run Script Histories Stages Edges.
Import FsFacts RunFacts ScriptFacts.

Lemma is_dir_at_spec t p : is_dir_at t p = true <-> exists es, lookup p t = Some (Dir es).
Proof.
  unfold is_dir_at. destruct (lookup p t) as [[c|es]|]; split;
    try discriminate; try (intros [es' H]; discriminate); eauto.
Qed.

(** Making a directory keeps the directories there are. *)
Lemma mkdir_keeps_dirs p q t t' :
  mkdir_node p t = Some t' -> is_dir_at t q = true -> is_dir_at t' q = true.
Proof.
  unfold mkdir_node, is_dir_at. intros H Hq.
  destruct (lookup p t) eqn:E; [discriminate|].
  destruct (decide (p `prefix_of` q)) as [[r ->]|Hn].
  - rewrite lookup_app, E in Hq. discriminate.
  - pose proof (lookup_put_other p (Dir []) q t t' H Hn) as Hl.
    destruct (lookup q t) as [[?|?]|]; try discriminate.
    destruct (lookup q t') as [[?|?]|]; try contradiction. reflexivity.
Qed.

Lemma mkdir_makes_dir p t t' : mkdir_node p t = Some t' -> is_dir_at t' p = true.
Proof.
  unfold mkdir_node, is_dir_at. destruct (lookup p t); [discriminate|].
  intros H. pose proof (lookup_put_below p (Dir []) [] t t' H) as Hl.
  rewrite app_nil_r in Hl. now rewrite Hl.
Qed.

Lemma mkdir_node_total d x t :
  is_dir_at t d = true -> lookup (d ++ [x]) t = None ->
  exists t', mkdir_node (d ++ [x]) t = Some t'.
Proof.
  intros Hd Hx. apply is_dir_at_spec in Hd as [es Hd].
  unfold mkdir_node. rewrite Hx. now apply (put_total d x (Dir []) t es).
Qed.

(** What a successful [makedirs] leaves: the directory, the directories
    that were there, and every file as it was. *)
Lemma makedirs_from_post e todo : forall done w w' u,
  makedirs_from e done todo w = (w', Ok u) ->
  (todo <> [] \/ is_dir_at (cwd w) done = true ->
   is_dir_at (cwd w') (done ++ todo) = true) /\
  (forall q, is_dir_at (cwd w) q = true -> is_dir_at (cwd w') q = true) /\
  (forall q, read_file q (cwd w') = read_file q (cwd w)) /\
  ticks w' = ticks w.
Proof.
  induction todo as [|x todo IH]; intros done w w' u H; simpl in H.
  - injection H as <- <-. rewrite app_nil_r. repeat split; auto.
    intros [Hn|Hd]; [contradiction|assumption].
  - apply bind_ok_inv in H as (w1 & there & H1 & H).
    injection H1 as <- <-.
    apply bind_ok_inv in H as (w2 & [] & H2 & H).
    apply IH in H as (P3 & D3 & R3 & K3).
    replace (done ++ x :: todo) with ((done ++ [x]) ++ todo) by now rewrite <- app_assoc.
    fold (is_dir_at (cwd w) (done ++ [x])) in H2.
    destruct (is_dir_at (cwd w) (done ++ [x])) eqn:Ed.
    + injection H2 as <-. repeat split; auto.
    + apply attempt_ok in H2 as (_ & Hm & K2 & _).
      repeat split.
      * intros _. apply P3. right. now apply (mkdir_makes_dir _ (cwd w)).
      * intros q Hq. apply D3. now apply (mkdir_keeps_dirs (done ++ [x]) q (cwd w)).
      * intros q. rewrite R3. now apply (read_mkdir (done ++ [x])).
      * congruence.
Qed.

Lemma free_way_spec t p :
  free_way t p = true <->
  forall k, (1 <= k <= length p)%nat -> read_file (firstn k p) t = None.
Proof.
  unfold free_way. rewrite forallb_forall. split.
  - intros H k Hk. specialize (H k). rewrite in_seq in H.
    destruct (read_file (firstn k p) t); [|reflexivity].
    discriminate H. lia.
  - intros H k Hk. apply in_seq in Hk. rewrite H by lia. reflexivity.
Qed.

(** Where nothing is refused and no file is in the way, [makedirs] runs
    to its end. *)
Lemma makedirs_from_total e todo : forall done w,
  (forall i, fault e i = false) ->
  is_dir_at (cwd w) done = true ->
  (forall k, (1 <= k <= length todo)%nat ->
     read_file (done ++ firstn k todo) (cwd w) = None) ->
  exists w', makedirs_from e done todo w = (w', Ok tt).
Proof.
  induction todo as [|x todo IH]; intros done w Hf Hd Hfree; simpl.
  - now exists w.
  - rewrite (bind_ok _ _ w w (is_dir_at (cwd w) (done ++ [x])) eq_refl).
    assert (Hnext : forall w1, (forall q, read_file q (cwd w1) = read_file q (cwd w)) ->
              forall k, (1 <= k <= length todo)%nat ->
                read_file ((done ++ [x]) ++ firstn k todo) (cwd w1) = None).
    { intros w1 Hr k Hk. rewrite Hr, <- app_assoc.
      apply (Hfree (S k)). simpl. lia. }
    destruct (is_dir_at (cwd w) (done ++ [x])) eqn:Ed.
    + rewrite (bind_ok _ _ w w tt eq_refl).
      apply IH; auto.
    + assert (Hx : lookup (done ++ [x]) (cwd w) = None).
      { specialize (Hfree 1%nat ltac:(simpl; lia)).
        change (done ++ firstn 1 (x :: todo)) with (done ++ [x]) in Hfree.
        unfold read_file in Hfree. unfold is_dir_at in Ed.
        destruct (lookup (done ++ [x]) (cwd w)) as [[?|?]|]; congruence. }
      destruct (mkdir_node_total done x (cwd w) Hd Hx) as [t' Ht'].
      assert (Hm : mkdir e (done ++ [x]) w
                   = (mkWorld t' (ticks w) (trace w ++ [Mkdir (done ++ [x])]), Ok tt))
        by (unfold mkdir, attempt; now rewrite Hf, Ht').
      rewrite (bind_ok _ _ _ _ _ Hm).
      apply IH; auto.
      * now apply (mkdir_makes_dir _ (cwd w)).
      * apply Hnext. intros q. now apply (read_mkdir (done ++ [x])).
Qed.

Lemma dir_prefix t p r : is_dir_at t (p ++ r) = true -> is_dir_at t p = true.
Proof.
  unfold is_dir_at. rewrite lookup_app.
  destruct (lookup p t) as [[c|es]|]; try discriminate; [|reflexivity].
  destruct r; simpl; discriminate.
Qed.

(** Where the directory is there already, [makedirs] does nothing. *)
Lemma makedirs_noop e todo : forall done w,
  is_dir_at (cwd w) (done ++ todo) = true ->
  makedirs_from e done todo w = (w, Ok tt).
Proof.
  induction todo as [|x todo IH]; intros done w H; simpl; [reflexivity|].
  replace (done ++ x :: todo) with ((done ++ [x]) ++ todo) in H
    by now rewrite <- app_assoc.
  rewrite (bind_ok _ _ w w (is_dir_at (cwd w) (done ++ [x])) eq_refl).
  rewrite (dir_prefix _ _ _ H).
  rewrite (bind_ok _ _ w w tt eq_refl). now apply IH.
Qed.

(** The only directory [mkdir] makes is the one it is asked for. *)
Lemma mkdir_new_dirs p q t t' :
  mkdir_node p t = Some t' -> is_dir_at t' q = true ->
  is_dir_at t q = true \/ q = p.
Proof.
  unfold mkdir_node, is_dir_at. intros H Hq.
  destruct (lookup p t) eqn:E; [discriminate|].
  destruct (decide (p `prefix_of` q)) as [[r ->]|Hn].
  - rewrite (lookup_put_below p (Dir []) r t t' H) in Hq.
    destruct r as [|y r]; [right; now rewrite app_nil_r|]. discriminate.
  - pose proof (lookup_put_other p (Dir []) q t t' H Hn) as Hl.
    destruct (lookup q t') as [[?|?]|]; try discriminate.
    destruct (lookup q t) as [[?|?]|]; try contradiction. now left.
Qed.

Lemma makedirs_from_new_dirs e todo : forall done w w' u q,
  makedirs_from e done todo w = (w', Ok u) ->
  is_dir_at (cwd w') q = true ->
  is_dir_at (cwd w) q = true \/ q `prefix_of` (done ++ todo).
Proof.
  induction todo as [|x todo IH]; intros done w w' u q H Hq; simpl in H.
  - injection H as <- <-. now left.
  - apply bind_ok_inv in H as (w1 & there & H1 & H).
    injection H1 as <- <-.
    apply bind_ok_inv in H as (w2 & [] & H2 & H).
    replace (done ++ x :: todo) with ((done ++ [x]) ++ todo) by now rewrite <- app_assoc.
    destruct (IH _ _ _ _ q H Hq) as [Hd|Hp]; [|now right].
    destruct (match lookup (done ++ [x]) (cwd w) with Some (Dir _) => true | _ => false end).
    + injection H2 as <-. now left.
    + apply attempt_ok in H2 as (_ & Hm & _).
      destruct (mkdir_new_dirs _ q _ _ Hm Hd) as [Hd'| ->]; [now left|].
      right. now exists todo.
Qed.

(** *** Loops *)

Lemma for_each_steps {A} (body : A -> M unit) (R : world -> world -> Prop) l :
  (forall w, R w w) ->
  (forall w1 w2 w3, R w1 w2 -> R w2 w3 -> R w1 w3) ->
  (forall x w w' u, In x l -> body x w = (w', Ok u) -> R w w') ->
  forall w w' u, for_each l body w = (w', Ok u) ->
    R w w' /\
    forall x, In x l -> exists w1 w2 u', R w w1 /\ body x w1 = (w2, Ok u') /\ R w2 w'.
Proof.
  intros Hrefl Htrans. induction l as [|x l IH]; intros Hb w w' u H; simpl in H.
  - injection H as <- <-. split; [apply Hrefl|]. intros x [].
  - apply bind_ok_inv in H as (w1 & u1 & H1 & H).
    pose proof (Hb _ _ _ _ (or_introl eq_refl) H1) as R1.
    destruct (IH (fun y wa wb ub Hy => Hb y wa wb ub (or_intror Hy)) _ _ _ H) as [R2 Hin].
    split; [exact (Htrans _ _ _ R1 R2)|].
    intros y [<-|Hy].
    + exists w, w1, u1. auto.
    + destruct (Hin y Hy) as (wa & wb & u' & Ra & Hy' & Rb).
      exists wa, wb, u'. split; [exact (Htrans _ _ _ R1 Ra)|auto].
Qed.

Lemma for_each_total {A} (body : A -> M unit) (I : world -> Prop) l :
  (forall x w, In x l -> I w -> exists w', body x w = (w', Ok tt) /\ I w') ->
  forall w, I w -> exists w', for_each l body w = (w', Ok tt) /\ I w'.
Proof.
  induction l as [|x l IH]; intros Hb w Hw; simpl.
  - now exists w.
  - destruct (Hb x w (or_introl eq_refl) Hw) as (w1 & H1 & I1).
    destruct (IH (fun y w0 Hy => Hb y w0 (or_intror Hy)) w1 I1) as (w2 & H2 & I2).
    exists w2. split; [|assumption].
    now rewrite (bind_ok _ _ _ _ _ H1).
Qed.

(** *** The folders *)

Lemma keeps_refl w : keeps w w.
Proof. now repeat split. Qed.

Lemma keeps_trans w1 w2 w3 : keeps w1 w2 -> keeps w2 w3 -> keeps w1 w3.
Proof.
  intros (R1 & D1 & K1) (R2 & D2 & K2). repeat split.
  - intros q. now rewrite R2.
  - auto.
  - congruence.
Qed.

Lemma makedirs_keeps e p w w' u : makedirs e p w = (w', Ok u) -> keeps w w'.
Proof. intros H. now apply makedirs_from_post in H as (_ & D & R & K). Qed.

Lemma makedirs_made e p w w' u :
  p <> [] -> makedirs e p w = (w', Ok u) -> is_dir_at (cwd w') p = true.
Proof. intros Hp H. apply makedirs_from_post in H as (P & _). apply P. now left. Qed.

Lemma In_folder_paths p :
  In p folder_paths <->
  (exists phase, In phase PHASES /\ p = [BASE_FOLDER; phase]) \/
  p = [BASE_FOLDER; "Supporting_Files"].
Proof.
  unfold folder_paths. rewrite in_app_iff, in_map_iff. split.
  - intros [(phase & <- & Hin)|[<-|[]]]; [left; eauto|now right].
  - intros [(phase & Hin & ->)| ->]; [left; eauto|right; now left].
Qed.

Lemma create_phase_folders_post e w w' u :
  create_phase_folders e w = (w', Ok u) ->
  keeps w w' /\ forall p, In p folder_paths -> is_dir_at (cwd w') p = true.
Proof.
  unfold create_phase_folders. intros H.
  apply bind_ok_inv in H as (w1 & u1 & H1 & H).
  apply (for_each_steps _ keeps _ keeps_refl keeps_trans) in H1 as [K1 Hin].
  2:{ intros x w0 w0' u0 _. apply makedirs_keeps. }
  pose proof (makedirs_keeps _ _ _ _ _ H) as K2.
  split; [exact (keeps_trans _ _ _ K1 K2)|].
  intros p Hp. apply In_folder_paths in Hp as [(phase & Hph & ->)| ->].
  - destruct (Hin phase Hph) as (wa & wb & u' & _ & Hm & (_ & Db & _)).
    apply makedirs_made in Hm; [|discriminate].
    destruct K2 as (_ & D2 & _). auto.
  - now apply makedirs_made in H.
Qed.

Lemma for_each_noop {A} (body : A -> M unit) w l :
  (forall x, In x l -> body x w = (w, Ok tt)) -> for_each l body w = (w, Ok tt).
Proof.
  induction l as [|x l IH]; intros H; simpl; [reflexivity|].
  rewrite (bind_ok _ _ w w tt (H x (or_introl eq_refl))).
  apply IH. intros y Hy. apply H. now right.
Qed.

Lemma create_phase_folders_noop e w :
  (forall p, In p folder_paths -> is_dir_at (cwd w) p = true) ->
  create_phase_folders e w = (w, Ok tt).
Proof.
  intros H. unfold create_phase_folders.
  rewrite (bind_ok _ _ w w tt).
  - apply (makedirs_noop e _ []). apply H, In_folder_paths. now right.
  - apply for_each_noop. intros phase Hin.
    apply (makedirs_noop e _ []). apply H, In_folder_paths. left. eauto.
Qed.

Lemma bind_raise_inv {A B} (m : M A) (k : A -> M B) w w' x :
  bind m k w = (w', Raise x) ->
  m w = (w', Raise x) \/ exists w1 a, m w = (w1, Ok a) /\ k a w1 = (w', Raise x).
Proof.
  unfold bind. destruct (m w) as [w1 [a|y]].
  - intros H. right. now exists w1, a.
  - intros H. injection H as <- <-. now left.
Qed.

Lemma attempt_raise e p ev f w w' x :
  attempt e p ev f w = (w', Raise x) -> x = OSError p.
Proof.
  unfold attempt. destruct (fault e (length (trace w))).
  - intros H. now injection H as _ <-.
  - destruct (f (cwd w)); [discriminate|]. intros H. now injection H as _ <-.
Qed.

Lemma makedirs_from_raise e todo : forall done w w' x,
  makedirs_from e done todo w = (w', Raise x) -> exists p, x = OSError p.
Proof.
  induction todo as [|y todo IH]; intros done w w' x H; simpl in H; [discriminate|].
  apply bind_raise_inv in H as [H|(w1 & there & H1 & H)]; [discriminate|].
  apply bind_raise_inv in H as [H|(w2 & u & H2 & H)].
  - destruct there; [discriminate|]. apply attempt_raise in H. eauto.
  - now apply IH in H.
Qed.

Lemma for_each_raise {A} (body : A -> M unit) (Q : exn -> Prop) :
  (forall y w w' x, body y w = (w', Raise x) -> Q x) ->
  forall l w w' x, for_each l body w = (w', Raise x) -> Q x.
Proof.
  intros Hb l. induction l as [|y l IH]; intros w w' x H; simpl in H; [discriminate|].
  apply bind_raise_inv in H as [H|(w1 & u & H1 & H)]; eauto.
Qed.

Lemma create_phase_folders_raise e w w' x :
  create_phase_folders e w = (w', Raise x) -> exists p, x = OSError p.
Proof.
  unfold create_phase_folders. intros H.
  apply bind_raise_inv in H as [H|(w1 & u & H1 & H)].
  - apply (for_each_raise _ (fun x => exists p, x = OSError p)) in H; [assumption|].
    intros y w0 w0' x0. apply makedirs_from_raise.
  - now apply makedirs_from_raise in H.
Qed.

Lemma create_phase_folders_new_dirs e w w' u q :
  create_phase_folders e w = (w', Ok u) ->
  is_dir_at (cwd w') q = true ->
  is_dir_at (cwd w) q = true \/ exists p, In p folder_paths /\ q `prefix_of` p.
Proof.
  unfold create_phase_folders. intros H.
  apply bind_ok_inv in H as (w1 & u1 & H1 & H).
  intros Hq.
  destruct (makedirs_from_new_dirs _ _ _ _ _ _ q H Hq) as [Hq1|Hp].
  2:{ right. eexists. split; [|exact Hp]. apply In_folder_paths. now right. }
  clear H Hq.
  apply (for_each_steps _
           (fun wa wb => is_dir_at (cwd wb) q = true ->
              is_dir_at (cwd wa) q = true \/ exists p, In p folder_paths /\ q `prefix_of` p))
    in H1 as [R _]; auto.
  - intros w2 w3 w4 R1 R2 H4. destruct (R2 H4) as [H3|H3]; auto.
  - intros phase w2 w3 u2 Hin Hm H3.
    destruct (makedirs_from_new_dirs _ _ _ _ _ _ q Hm H3) as [H2|Hp]; [now left|].
    right. eexists. split; [|exact Hp]. apply In_folder_paths. left. eauto.
Qed.

Lemma makedirs_total e p w :
  (forall i, fault e i = false) ->
  is_dir (cwd w) = true ->
  free_way (cwd w) p = true ->
  exists w', makedirs e p w = (w', Ok tt) /\ keeps w w'.
Proof.
  intros Hf Hd Hfree.
  destruct (makedirs_from_total e p [] w Hf) as [w' Hw'].
  - unfold is_dir_at. simpl. destruct (cwd w); [discriminate|reflexivity].
  - intros k Hk. now apply free_way_spec.
  - exists w'. split; [assumption|]. now apply makedirs_keeps in Hw'.
Qed.

Lemma create_phase_folders_total e w :
  (forall i, fault e i = false) ->
  is_dir (cwd w) = true ->
  (forall p, In p folder_paths -> free_way (cwd w) p = true) ->
  exists w', create_phase_folders e w = (w', Ok tt).
Proof.
  intros Hf Hd Hfree. unfold create_phase_folders.
  assert (Hstep : forall p w1, In p folder_paths -> keeps w w1 ->
            exists w2, makedirs e p w1 = (w2, Ok tt) /\ keeps w w2).
  { intros p w1 Hp K1.
    destruct (makedirs_total e p w1 Hf) as (w2 & H2 & K2).
    - destruct K1 as (_ & D1 & _). specialize (D1 []). unfold is_dir_at in D1.
      simpl in D1. destruct (cwd w); [discriminate|].
      specialize (D1 eq_refl). now destruct (cwd w1).
    - destruct K1 as (R1 & _). apply free_way_spec. intros k Hk.
      rewrite R1. specialize (Hfree p Hp). now apply free_way_spec.
    - exists w2. split; [assumption|]. exact (keeps_trans _ _ _ K1 K2). }
  destruct (for_each_total (fun phase => makedirs e [BASE_FOLDER; phase]) (keeps w) PHASES)
    with (w := w) as (w1 & H1 & K1).
  - intros phase w1 Hin K1. apply Hstep; [|assumption].
    apply In_folder_paths. left. eauto.
  - apply keeps_refl.
  - rewrite (bind_ok _ _ _ _ _ H1).
    destruct (Hstep [BASE_FOLDER; "Supporting_Files"] w1) as (w2 & H2 & _);
      [apply In_folder_paths; now right|assumption|].
    now exists w2.
Qed.

End FolderFacts.

(** ** Writing into the folders *)

Module PhaseFacts.
Import Fs Run Script Histories Stages Edges.
Import FsFacts RunFacts ScriptFacts FolderFacts.

(** Writing a file neither makes nor removes a directory. *)
Lemma write_keeps_dirs p c q t t' :
  write_node p c t = Some t' -> is_dir_at t' q = is_dir_at t q.
Proof.
  unfold write_node, is_dir_at. intros H.
  assert (Hp : match lookup p t with Some (Dir _) => False | _ => True end)
    by (destruct (lookup p t) as [[?|?]|]; [exact I|discriminate|exact I]).
  assert (Hput : put p (File c) t = Some t')
    by (destruct (lookup p t) as [[?|?]|]; congruence).
  destruct (decide (p `prefix_of` q)) as [[r ->]|Hn].
  - rewrite (lookup_put_below p (File c) r t t' Hput), lookup_app.
    destruct (lookup p t) as [[c0|es]|]; [|contradiction|].
    + destruct r; reflexivity.
    + destruct r; reflexivity.
  - pose proof (lookup_put_other p (File c) q t t' Hput Hn) as Hl.
    destruct (lookup q t') as [[?|?]|], (lookup q t) as [[?|?]|];
      try contradiction; reflexivity.
Qed.

Lemma put_parent new : forall p t t',
  put p new t = Some t' -> p <> [] /\ is_dir_at t (removelast p) = true.
Proof.
  induction p as [|x p IH]; intros t t' H.
  - destruct t; discriminate.
  - split; [discriminate|].
    apply put_inv in H as (y & p' & es & E & -> & H). injection E as <- <-.
    destruct H as [[-> _]|(Hne & n & n' & Hl & Hp & _)]; [reflexivity|].
    destruct (IH _ _ Hp) as [_ Hd].
    destruct p as [|z p]; [contradiction|].
    change (removelast (x :: z :: p)) with (x :: removelast (z :: p)).
    unfold is_dir_at in *. simpl lookup. now rewrite Hl.
Qed.

Lemma write_needs_folder p c t t' :
  write_node p c t = Some t' -> writable t p = true.
Proof.
  intros H. unfold writable.
  assert (Hp : put p (File c) t = Some t' /\
               match lookup p t with Some (Dir _) => False | _ => True end).
  { unfold write_node in H. destruct (lookup p t) as [[?|?]|]; try discriminate; auto. }
  destruct Hp as [Hput Hp]. destruct (put_parent _ _ _ _ Hput) as [Hne Hd].
  destruct p as [|x p]; [contradiction|].
  unfold is_dir_at in Hd.
  destruct (lookup (removelast (x :: p)) t) as [[?|?]|]; try discriminate.
  destruct (lookup (x :: p) t) as [[?|?]|]; [reflexivity|contradiction|reflexivity].
Qed.

Lemma writable_spec t p :
  writable t p = true <->
  p <> [] /\ is_dir_at t (removelast p) = true /\ is_dir_at t p = false.
Proof.
  unfold writable, is_dir_at. destruct p as [|x p].
  - split; [discriminate|]. intros [H _]. contradiction.
  - destruct (lookup (removelast (x :: p)) t) as [[?|?]|];
      destruct (lookup (x :: p) t) as [[?|?]|];
      split; try discriminate; try (intros (_ & H1 & H2); discriminate);
      intros _; repeat split; discriminate.
Qed.

Lemma write_file_dirs e p c w w' u :
  write_file e p c w = (w', Ok u) ->
  same_dirs w w' /\ writable (cwd w) p = true /\
  trace w' = trace w ++ [Wrote p c] /\ ticks w' = ticks w.
Proof.
  intros H. apply attempt_ok in H as (_ & Hw & K & T).
  repeat split; try assumption.
  - intros q. now apply (write_keeps_dirs p c).
  - now apply (write_needs_folder p c _ (cwd w')).
Qed.

Lemma phase_ready_spec t phase :
  phase_ready t phase = true <->
  forall p, In p (phase_paths_of phase) -> writable t p = true.
Proof.
  unfold phase_ready, phase_paths_of, doc_path, xlsx_path, csv_path.
  rewrite andb_true_iff, forallb_forall. split.
  - intros [Hd Hn] p Hp. apply writable_spec. split; [|split].
    + destruct Hp as [<-|[<-|[<-|[]]]]; discriminate.
    + destruct Hp as [<-|[<-|[<-|[]]]]; exact Hd.
    + specialize (Hn p Hp). now destruct (is_dir_at t p).
  - intros H. split.
    + specialize (H _ (or_introl eq_refl)). apply writable_spec in H as (_ & H & _).
      exact H.
    + intros p Hp. apply H, writable_spec in Hp as (_ & _ & ->). reflexivity.
Qed.

Lemma phase_ready_same w w' phase :
  same_dirs w w' -> phase_ready (cwd w') phase = phase_ready (cwd w) phase.
Proof.
  intros H. unfold phase_ready, phase_paths_of. simpl. now rewrite !H.
Qed.

Lemma generate_phase_dirs e phase w w' u :
  generate_phase e phase w = (w', Ok u) ->
  same_dirs w w' /\ phase_ready (cwd w) phase = true.
Proof.
  unfold generate_phase. rewrite dashboard_built. intros H.
  apply bind_ok_inv in H as (w1 & ts & H1 & H).
  injection H1 as <- <-.
  apply bind_ok_inv in H as (w2 & [] & H2 & H).
  apply bind_ok_inv in H as (w3 & wb & H3 & H).
  injection H3 as <- <-.
  apply bind_ok_inv in H as (w4 & [] & H4 & H).
  apply write_file_dirs in H2 as (D2 & W2 & _).
  apply write_file_dirs in H4 as (D4 & W4 & _).
  apply write_file_dirs in H as (D5 & W5 & _).
  unfold same_dirs in *. cbn [cwd] in *. split.
  - intros q. rewrite D5, D4, D2. reflexivity.
  - apply phase_ready_spec. intros p [<-|[<-|[<-|[]]]].
    + exact W2.
    + apply writable_spec in W4 as (N & A & B). apply writable_spec.
      rewrite !D2 in *. auto.
    + apply writable_spec in W5 as (N & A & B). apply writable_spec.
      rewrite !D4, !D2 in *. auto.
Qed.

Lemma generate_phase_total e phase w :
  (forall i, fault e i = false) ->
  phase_ready (cwd w) phase = true ->
  exists w', generate_phase e phase w = (w', Ok tt) /\ same_dirs w w'.
Proof.
  intros Hf Hr. pose proof (proj1 (phase_ready_spec _ _) Hr) as Hw.
  unfold generate_phase. rewrite dashboard_built.
  set (w1 := mkWorld (cwd w) (S (ticks w)) (trace w)).
  rewrite (bind_ok _ _ w w1 (clock e (ticks w)) eq_refl).
  destruct (write_file_total e (doc_path phase)
              (DocxFile (phase_document phase (clock e (ticks w)))) w1 (Hf _))
    as [w2 H2]; [apply Hw; simpl; auto|].
  rewrite (bind_ok _ _ _ _ _ H2).
  rewrite (bind_ok _ _ w2 w2 the_dashboard eq_refl).
  pose proof (write_file_dirs _ _ _ _ _ _ H2) as (D2 & _).
  destruct (write_file_total e (xlsx_path phase) (XlsxFile the_dashboard) w2 (Hf _))
    as [w3 H3].
  { apply writable_spec. rewrite !D2. apply writable_spec, Hw. simpl; auto. }
  rewrite (bind_ok _ _ _ _ _ H3).
  pose proof (write_file_dirs _ _ _ _ _ _ H3) as (D3 & _).
  destruct (write_file_total e (csv_path phase) (Bytes (Csv.writerows SAMPLE_DATA)) w3 (Hf _))
    as [w4 H4].
  { apply writable_spec. rewrite !D3, !D2. apply writable_spec, Hw. simpl; auto. }
  pose proof (write_file_dirs _ _ _ _ _ _ H4) as (D4 & _).
  exists w4. split; [assumption|].
  intros q. rewrite D4, D3, D2. reflexivity.
Qed.

Lemma same_dirs_refl w : same_dirs w w.
Proof. now intros q. Qed.

Lemma same_dirs_trans w1 w2 w3 : same_dirs w1 w2 -> same_dirs w2 w3 -> same_dirs w1 w3.
Proof. intros H1 H2 q. now rewrite H2. Qed.

Lemma generate_phase_files_dirs e w w' u :
  generate_phase_files e w = (w', Ok u) ->
  same_dirs w w' /\ forall phase, In phase PHASES -> phase_ready (cwd w) phase = true.
Proof.
  unfold generate_phase_files. intros H.
  apply (for_each_steps _ same_dirs _ same_dirs_refl same_dirs_trans) in H as [D Hin].
  - split; [assumption|]. intros phase Hp.
    destruct (Hin phase Hp) as (w1 & w2 & u' & D1 & H1 & _).
    apply generate_phase_dirs in H1 as [_ Hr].
    now rewrite (phase_ready_same _ _ _ D1) in Hr.
  - intros phase w1 w2 u' _ H1. now apply generate_phase_dirs in H1.
Qed.

Lemma generate_phase_files_total e w :
  (forall i, fault e i = false) ->
  (forall phase, In phase PHASES -> phase_ready (cwd w) phase = true) ->
  exists w', generate_phase_files e w = (w', Ok tt) /\ same_dirs w w'.
Proof.
  intros Hf Hr. unfold generate_phase_files.
  apply (for_each_total (generate_phase e) (same_dirs w) PHASES).
  - intros phase w1 Hin D1.
    destruct (generate_phase_total e phase w1 Hf) as (w2 & H2 & D2).
    + rewrite (phase_ready_same _ _ _ D1). now apply Hr.
    + exists w2. split; [assumption|]. exact (same_dirs_trans _ _ _ D1 D2).
  - apply same_dirs_refl.
Qed.

Lemma NoDup_PHASES : List.NoDup PHASES.
Proof.
  unfold PHASES. repeat constructor; simpl; intuition discriminate.
Qed.

(** The document of a phase is written once, with the reading of the
    clock of its round. *)
Lemma doc_written e n i phase c :
  nth_error PHASES i = Some phase ->
  In (doc_path phase, c) (all_phase_writes e n PHASES) ->
  c = DocxFile (phase_document phase (clock e (n + i))).
Proof.
  intros Hi H. apply In_all_phase_writes in H as (j & ph & Hj & H).
  unfold phase_writes, doc_path, xlsx_path, csv_path in H.
  destruct H as [H|[H|[H|[]]]]; injection H as <- H1 H2.
  - rewrite <- Hi in Hj.
    apply (proj1 (List.NoDup_nth_error PHASES) NoDup_PHASES) in Hj.
    + now subst j.
    + apply nth_error_Some. rewrite Hj, Hi. discriminate.
  - apply append_inj_l in H1. discriminate.
  - apply append_inj_l in H1. discriminate.
Qed.

End PhaseFacts.

(** ** The CSV reader on lines that end in LF *)

Module CsvLfFacts.
Import Csv CsvFacts Edges.

Lemma special_lf c :
  is_special linesep c = false -> Ascii.eqb c CR = false ->
  is_special lineterminator c = false.
Proof.
  unfold is_special, in_string, linesep, lineterminator. simpl.
  rewrite !orb_false_iff. tauto.
Qed.

Lemma in_string_cons c a s : in_string c (String a s) = Ascii.eqb c a || in_string c s.
Proof. reflexivity. Qed.

Lemma in_string_app c a b : in_string c (a +:+ b) = in_string c a || in_string c b.
Proof.
  unfold in_string. rewrite chars_app, existsb_app. reflexivity.
Qed.

Lemma needs_quote_lf f :
  needs_quote linesep f = false -> no_CR f = true ->
  needs_quote lineterminator f = false.
Proof.
  unfold needs_quote, no_CR, in_string.
  induction (list_ascii_of_string f) as [|c cs IH]; simpl; [reflexivity|].
  rewrite negb_true_iff, !orb_false_iff. intros [Hc Hcs] [Hcr Hrest].
  split.
  - apply special_lf; [assumption|]. now rewrite Ascii.eqb_sym.
  - apply IH; [assumption|]. now rewrite negb_true_iff.
Qed.

Lemma feed_LF_after_field st fd fds recs rest :
  st = START_FIELD \/ st = IN_FIELD \/ st = QUOTE_IN_QUOTED_FIELD ->
  feed (mkReader st fd fds recs) (LF :: rest)
  = feed (mkReader START_RECORD [] []
            (rev (string_of_list_ascii (rev fd) :: fds) :: recs)) rest.
Proof. intros [-> | [-> | ->]]; reflexivity. Qed.

Lemma feed_LF_at_start fd recs rest :
  feed (mkReader START_RECORD fd [] recs) (LF :: rest)
  = feed (mkReader START_RECORD [] [] ([] :: recs)) rest.
Proof. reflexivity. Qed.

Lemma chars_terminated_lf s rest :
  list_ascii_of_string (s +:+ linesep) ++ rest = list_ascii_of_string s ++ LF :: rest.
Proof. rewrite chars_app, <- app_assoc. reflexivity. Qed.

Lemma quote_or_plain f :
  no_CR f = true ->
  needs_quote linesep f = true \/ needs_quote lineterminator f = false.
Proof.
  intros H. destruct (needs_quote linesep f) eqn:E; [now left|right].
  now apply needs_quote_lf.
Qed.

(** The fields of a record and its line end. *)
Lemma feed_fields_lf fs : forall st fds recs rest,
  fs <> [] ->
  forallb no_CR fs = true ->
  st = START_RECORD \/ st = START_FIELD ->
  st = START_FIELD \/ fs <> [""] ->
  feed (mkReader st [] fds recs)
       (list_ascii_of_string (join_fields linesep fs) ++ LF :: rest)
  = feed (mkReader START_RECORD [] [] (rev (rev fs ++ fds) :: recs)) rest.
Proof.
  induction fs as [|f fs IH]; intros st fds recs rest Hne Hcr Hst Hok; [contradiction|].
  cbn [forallb] in Hcr. apply andb_true_iff in Hcr as [Hf Hcr].
  pose proof (quote_or_plain f Hf) as Hq.
  destruct fs as [|f' fs].
  - simpl join_fields.
    destruct (feed_field (needs_quote linesep f) f st fds recs (LF :: rest)
                Hst Hq ltac:(discriminate)) as (st' & -> & Hst').
    assert (Hready : st' = START_FIELD \/ st' = IN_FIELD \/ st' = QUOTE_IN_QUOTED_FIELD).
    { destruct Hst' as [->|[->|(-> & _ & ->)]]; auto.
      destruct Hok as [->|Hok]; [auto|]. now destruct Hok. }
    rewrite feed_LF_after_field by assumption.
    now rewrite (string_of_rev_rev f).
  - change (join_fields linesep (f :: f' :: fs))
      with (write_field (needs_quote linesep f) f
            +:+ String delimiter (join_fields linesep (f' :: fs))).
    rewrite chars_app, <- app_assoc.
    change (list_ascii_of_string
              (String delimiter (join_fields linesep (f' :: fs)))
            ++ LF :: rest)
      with (delimiter :: list_ascii_of_string (join_fields linesep (f' :: fs))
                         ++ LF :: rest).
    destruct (feed_field (needs_quote linesep f) f st fds recs
                (delimiter :: list_ascii_of_string (join_fields linesep (f' :: fs))
                              ++ LF :: rest)
                Hst Hq ltac:(discriminate)) as (st' & -> & Hst').
    rewrite feed_cons, step_delimiter.
    + rewrite line_goes_on
        by first [reflexivity
                 | destruct (list_ascii_of_string (join_fields linesep (f' :: fs)));
                   discriminate].
      rewrite (string_of_rev_rev f) by reflexivity.
      rewrite IH by (discriminate || auto).
      do 3 f_equal. simpl rev. now rewrite <- !app_assoc.
    + destruct Hst' as [->|[->|(-> & _)]]; try discriminate.
      destruct Hst as [-> | ->]; discriminate.
    + destruct Hst' as [->|[->|(-> & _)]]; try discriminate.
      destruct Hst as [-> | ->]; discriminate.
Qed.

Lemma feed_row_lf row recs rest :
  forallb no_CR row = true ->
  feed (mkReader START_RECORD [] [] recs)
       (list_ascii_of_string (writerow_with linesep row) ++ rest)
  = feed (mkReader START_RECORD [] [] (row :: recs)) rest.
Proof.
  intros Hcr. unfold writerow_with.
  destruct row as [|f [|f' fs]]; rewrite chars_terminated_lf.
  - apply feed_LF_at_start.
  - cbn [forallb] in Hcr. apply andb_true_iff in Hcr as [Hf _].
    assert (Hq : needs_quote linesep f || String.eqb f "" = true
                 \/ needs_quote lineterminator f = false)
      by (destruct (quote_or_plain f Hf) as [-> | ->]; auto).
    destruct (feed_field (needs_quote linesep f || String.eqb f "") f
                START_RECORD [] recs (LF :: rest)
                (or_introl eq_refl) Hq ltac:(discriminate)) as (st' & -> & Hst').
    assert (Hready : st' = START_FIELD \/ st' = IN_FIELD \/ st' = QUOTE_IN_QUOTED_FIELD).
    { destruct Hst' as [->|[->|(_ & Hq' & ->)]]; auto.
      rewrite orb_true_r in Hq'. discriminate. }
    rewrite feed_LF_after_field by assumption.
    now rewrite (string_of_rev_rev f).
  - rewrite feed_fields_lf by (discriminate || auto).
    now rewrite app_nil_r, rev_involutive.
Qed.

Lemma feed_rows_lf rows : forall recs,
  forallb (forallb no_CR) rows = true ->
  feed (mkReader START_RECORD [] [] recs)
       (list_ascii_of_string (writerows_with linesep rows))
  = Some (mkReader START_RECORD [] [] (rev rows ++ recs)).
Proof.
  induction rows as [|row rows IH]; intros recs Hcr; [reflexivity|].
  cbn [forallb] in Hcr. apply andb_true_iff in Hcr as [Hrow Hcr].
  simpl writerows_with. rewrite chars_app.
  rewrite feed_row_lf, IH by assumption. simpl rev. now rewrite <- app_assoc.
Qed.

(** Rows in which no field holds a carriage return are read back from
    what [pandas] writes. *)
Lemma read_writerows_lf rows :
  forallb (forallb no_CR) rows = true ->
  read (writerows_with linesep rows) = Some rows.
Proof.
  intros Hcr. unfold read, reader0. rewrite feed_rows_lf by assumption.
  unfold finish. simpl. now rewrite app_nil_r, rev_involutive.
Qed.

(** *** The numbers of the summary hold digits, a sign and a point *)

Lemma no_CR_app a b : no_CR (a +:+ b) = no_CR a && no_CR b.
Proof. unfold no_CR. now rewrite in_string_app, negb_orb. Qed.

Lemma no_CR_digit d : Ascii.eqb CR (pretty_N_char d) = false.
Proof. unfold pretty_N_char. now repeat case_match. Qed.

Lemma no_CR_pretty_N_go x : forall s, no_CR s = true -> no_CR (pretty_N_go x s) = true.
Proof.
  induction (N.lt_wf_0 x) as [x _ IH]; intros s Hs.
  assert (x = 0 \/ 0 < x)%N as [->|Hx] by lia.
  - now rewrite pretty_N_go_0.
  - rewrite pretty_N_go_step by assumption. apply IH.
    + now apply N.div_lt.
    + unfold no_CR in *. now rewrite in_string_cons, no_CR_digit.
Qed.

Lemma no_CR_pretty_N (x : N) : no_CR (pretty x) = true.
Proof.
  unfold pretty, pretty_N. destruct (decide (x = 0%N)); [reflexivity|].
  now apply no_CR_pretty_N_go.
Qed.

Lemma no_CR_pretty_nat (n : nat) : no_CR (pretty n) = true.
Proof. apply no_CR_pretty_N. Qed.

Lemma no_CR_pretty_Z (z : Z) : no_CR (pretty z) = true.
Proof.
  destruct z as [|p|p]; [reflexivity|apply (no_CR_pretty_N (Npos p))|].
  change (pretty (Zneg p)) with ("-" +:+ pretty (Npos p)).
  rewrite no_CR_app, no_CR_pretty_N. reflexivity.
Qed.

Lemma no_CR_float_str h : no_CR (Script.float_str h) = true.
Proof.
  unfold Script.float_str. rewrite !no_CR_app, no_CR_pretty_Z.
  repeat case_match; rewrite ?no_CR_app, ?no_CR_pretty_Z; reflexivity.
Qed.

End CsvLfFacts.

(** ** The stages, one after the other *)

Module StageFacts.
Import Fs Run Script Histories Stages Edges.
Import FsFacts RunFacts ScriptFacts FolderFacts PhaseFacts.

(** A write below a missing directory, or onto a directory, is refused
    by the tree. *)
Lemma write_node_none p c t : writable t p = false -> write_node p c t = None.
Proof.
  intros H. destruct (write_node p c t) as [t'|] eqn:E; [|reflexivity].
  apply write_needs_folder in E. congruence.
Qed.

Lemma write_file_refused e p c w :
  writable (cwd w) p = false ->
  write_file e p c w
  = (mkWorld (cwd w) (ticks w) (trace w ++ [Failed p]), Raise (OSError p)).
Proof.
  intros H. unfold write_file, attempt. rewrite (write_node_none _ _ _ H).
  now destruct (fault e (length (trace w))).
Qed.

Lemma writable_same w w' p :
  same_dirs w w' -> writable (cwd w') p = writable (cwd w) p.
Proof.
  intros D. destruct (writable (cwd w) p) eqn:E.
  - apply writable_spec. rewrite !D. now apply writable_spec.
  - destruct (writable (cwd w') p) eqn:E'; [|reflexivity].
    apply writable_spec in E'. rewrite !D in E'. apply writable_spec in E'. congruence.
Qed.

Lemma generate_summary_report_dirs e w w' u :
  generate_summary_report e w = (w', Ok u) ->
  same_dirs w w' /\
  writable (cwd w) summary_path = true /\ writable (cwd w) executive_path = true.
Proof.
  unfold generate_summary_report. intros H.
  apply bind_ok_inv in H as (w0 & entries & H0 & H).
  injection H0 as <- <-.
  apply bind_ok_inv in H as (w1 & rowss & H1 & H).
  apply summarize_all_ok in H1 as (C1 & _).
  apply bind_ok_inv in H as (w2 & [] & H2 & H).
  apply bind_ok_inv in H as (w3 & ts & H3 & H).
  injection H3 as <- <-.
  apply write_file_dirs in H2 as (D2 & W2 & _).
  apply write_file_dirs in H as (D4 & W4 & _).
  unfold same_dirs in *. cbn [cwd] in *. rewrite C1 in *.
  split; [|split].
  - intros q. now rewrite D4, D2.
  - exact W2.
  - apply writable_spec in W4 as (N & A & B). apply writable_spec.
    rewrite !D2 in *. auto.
Qed.

Lemma create_zip_archive_dirs e w w' u :
  create_zip_archive e w = (w', Ok u) ->
  same_dirs w w' /\ writable (cwd w) zip_filename = true.
Proof.
  unfold create_zip_archive. intros H.
  apply bind_ok_inv in H as (w0 & entries & H0 & H).
  injection H0 as <- <-.
  apply bind_ok_inv in H as (w1 & members & H1 & H).
  apply zip_members_ok in H1 as (-> & _).
  now apply write_file_dirs in H as (D & W & _).
Qed.

Lemma create_zip_archive_total e w :
  wf (cwd w) = true ->
  writable (cwd w) zip_filename = true ->
  fault e (length (trace w)) = false ->
  exists w', create_zip_archive e w = (w', Ok tt).
Proof.
  intros Hwf Hzip Hfault.
  destruct (zip_members_total (Fs.walk_from [BASE_FOLDER] (cwd w)) w) as [members Hm].
  { intros root ds fs f Hin Hf. now apply (walk_files_readable _ [BASE_FOLDER] root ds fs). }
  destruct (write_file_total e zip_filename (ZipFile members) w Hfault Hzip) as [w' Hw'].
  exists w'. unfold create_zip_archive.
  rewrite (bind_ok _ _ w w (Fs.walk_from [BASE_FOLDER] (cwd w)) eq_refl).
  now rewrite (bind_ok _ _ _ _ _ Hm).
Qed.

Lemma extends_wf w w' W : extends w w' W -> wf (cwd w) = true -> wf (cwd w') = true.
Proof. intros (evs & _ & _ & R). now apply (wf_replay evs). Qed.

(** No file of a run is one of the folders or on the way to one. *)
Lemma outputs_off_folders p f :
  In p output_paths -> In f folder_paths -> ~ p `prefix_of` f.
Proof.
  intros Hp Hf.
  assert (H : forallb (fun p => forallb (fun f => negb (bool_decide (p `prefix_of` f)))
                                 folder_paths) output_paths = true)
    by (vm_compute; reflexivity).
  rewrite forallb_forall in H. specialize (H p Hp).
  rewrite forallb_forall in H. specialize (H f Hf).
  apply negb_true_iff, bool_decide_eq_false in H. exact H.
Qed.

Lemma In_output_paths p :
  In p output_paths <->
  (exists phase, In phase PHASES /\ In p (phase_paths_of phase)) \/
  p = summary_path \/ p = executive_path \/ p = zip_filename.
Proof.
  unfold output_paths, generated_paths, phase_paths_of.
  rewrite !in_app_iff, in_flat_map. simpl. intuition (subst; auto).
Qed.

Lemma output_parents :
  forall p, In p output_paths ->
    removelast p = [] \/ In (removelast p) folder_paths \/ removelast p = [BASE_FOLDER].
Proof.
  intros p Hp. apply In_output_paths in Hp as [(phase & Hin & Hp)|[->|[->| ->]]].
  - right. left. apply In_folder_paths. left. exists phase. split; [assumption|].
    destruct Hp as [<-|[<-|[<-|[]]]]; reflexivity.
  - right. left. apply In_folder_paths. now right.
  - right. now right.
  - now left.
Qed.

Lemma can_start_spec t :
  can_start t = true <->
  wf t = true /\ is_dir t = true /\
  (forall p, In p folder_paths -> free_way t p = true) /\
  (forall p, In p output_paths -> is_dir_at t p = false).
Proof.
  unfold can_start. rewrite !andb_true_iff, !forallb_forall.
  split; intros H; repeat split; try apply H.
  - intros p Hp. destruct H as (_ & H). apply H in Hp. now destruct (is_dir_at t p).
  - intros p Hp. destruct H as (_ & _ & _ & H). now rewrite (H p Hp).
Qed.

Lemma is_dir_root t : is_dir_at t [] = is_dir t.
Proof. now destruct t. Qed.

(** After the folder stage every file of a run can be written, if
    none of them was a directory before. *)
Lemma writable_after_folders e w w1 u p :
  create_phase_folders e w = (w1, Ok u) ->
  is_dir (cwd w) = true ->
  In p output_paths ->
  is_dir_at (cwd w) p = false ->
  writable (cwd w1) p = true.
Proof.
  intros H Hd Hp Hn.
  destruct (create_phase_folders_post _ _ _ _ H) as ((_ & D & _) & P).
  apply writable_spec. split; [|split].
  - apply In_output_paths in Hp as [(phase & _ & [<-|[<-|[<-|[]]]])|[->|[->| ->]]];
      discriminate.
  - destruct (output_parents p Hp) as [-> |[Hf| ->]].
    + apply D. now rewrite is_dir_root.
    + now apply P.
    + apply (dir_prefix _ [BASE_FOLDER] ["Supporting_Files"]).
      apply P, In_folder_paths. now right.
  - destruct (is_dir_at (cwd w1) p) eqn:E; [|reflexivity].
    destruct (create_phase_folders_new_dirs _ _ _ _ _ H E) as [E'|(f & Hf & Hpf)].
    + congruence.
    + now destruct (outputs_off_folders p f).
Qed.

Lemma phase_paths_outputs phase p :
  In phase PHASES -> In p (phase_paths_of phase) -> In p output_paths.
Proof. intros Hin Hp. apply In_output_paths. left. eauto. Qed.

(** The stages of a run that returned, and what they found. *)
Lemma main_stages e w w' u :
  main e w = (w', Ok u) ->
  exists w1 w2 w3,
    create_phase_folders e w = (w1, Ok tt) /\
    same_dirs w1 w2 /\ same_dirs w2 w3 /\ same_dirs w3 w' /\
    (forall p, In p output_paths -> writable (cwd w1) p = true).
Proof.
  intros H. destruct u.
  apply main_ok in H as (w1 & w2 & w3 & H1 & H2 & H3 & H4).
  exists w1, w2, w3.
  apply generate_phase_files_dirs in H2 as [D2 R2].
  apply generate_summary_report_dirs in H3 as (D3 & S3 & X3).
  apply create_zip_archive_dirs in H4 as (D4 & Z4).
  repeat split; try assumption.
  - intros p Hp. apply In_output_paths in Hp as [(phase & Hin & Hp)|[->|[->| ->]]].
    + now apply (proj1 (phase_ready_spec _ _) (R2 phase Hin)).
    + now rewrite <- (writable_same _ _ _ D2).
    + now rewrite <- (writable_same _ _ _ D2).
    + now rewrite <- (writable_same _ _ _ D2), <- (writable_same _ _ _ D3).
Qed.

(** A run that returned leaves a working directory a run can start
    in. *)
Lemma main_can_start e w w' u :
  wf (cwd w) = true -> main e w = (w', Ok u) -> can_start (cwd w') = true.
Proof.
  intros Hwf H. destruct u.
  pose proof (main_extends _ _ _ H) as (df & ts & members & E & _).
  apply main_stages in H as (w1 & w2 & w3 & H1 & D2 & D3 & D4 & Hw).
  destruct (create_phase_folders_post _ _ _ _ H1) as (_ & P).
  assert (D : forall q, is_dir_at (cwd w') q = is_dir_at (cwd w1) q)
    by (intros q; now rewrite D4, D3, D2).
  apply can_start_spec. split; [|split; [|split]].
  - exact (extends_wf _ _ _ E Hwf).
  - rewrite <- is_dir_root, D.
    apply (dir_prefix _ [] [BASE_FOLDER; "Supporting_Files"]).
    apply P, In_folder_paths. now right.
  - intros f Hf. apply free_way_spec. intros k Hk.
    specialize (P f Hf). rewrite <- D, <- (firstn_skipn k f) in P.
    apply dir_prefix in P. unfold is_dir_at in P. unfold read_file.
    destruct (lookup (firstn k f) (cwd w')) as [[?|?]|]; congruence.
  - intros p Hp. rewrite D. now apply Hw, writable_spec in Hp as (_ & _ & Hp).
Qed.

Lemma main_total e w :
  (forall i, fault e i = false) ->
  can_start (cwd w) = true ->
  exists w', main e w = (w', Ok tt).
Proof.
  intros Hf Hs. apply can_start_spec in Hs as (Hwf & Hd & Hfree & Hout).
  destruct (create_phase_folders_total e w Hf Hd Hfree) as [w1 H1].
  assert (Hw : forall p, In p output_paths -> writable (cwd w1) p = true).
  { intros p Hp. apply (writable_after_folders e w w1 tt); auto. }
  pose proof (create_phase_folders_ok _ _ _ H1) as [E1 _].
  pose proof (extends_wf _ _ _ E1 Hwf) as Hwf1.
  destruct (generate_phase_files_total e w1 Hf) as (w2 & H2 & D2).
  { intros phase Hin. apply phase_ready_spec. intros p Hp.
    apply Hw. now apply (phase_paths_outputs phase). }
  pose proof (generate_phase_files_ok _ _ _ H2) as [E2 _].
  pose proof (extends_wf _ _ _ E2 Hwf1) as Hwf2.
  destruct (generate_summary_report_total e w2) as [w3 H3]; auto.
  { rewrite (writable_same _ _ _ D2). apply Hw, In_output_paths. auto. }
  { rewrite (writable_same _ _ _ D2). apply Hw, In_output_paths. auto. }
  pose proof (generate_summary_report_ok _ _ _ H3) as (df & _ & E3 & _).
  pose proof (extends_wf _ _ _ E3 Hwf2) as Hwf3.
  pose proof (generate_summary_report_dirs _ _ _ _ H3) as (D3 & _).
  destruct (create_zip_archive_total e w3) as [w4 H4]; auto.
  { rewrite (writable_same _ _ _ D3), (writable_same _ _ _ D2).
    apply Hw, In_output_paths. auto. }
  exists w4. unfold main.
  rewrite (bind_ok _ _ _ _ _ H1), (bind_ok _ _ _ _ _ H2), (bind_ok _ _ _ _ _ H3).
  exact H4.
Qed.

(** *** The archive, again *)

Lemma set_entry_same x n es : lookup1 x es = Some n -> set_entry x n es = es.
Proof.
  induction es as [|[y m] es IH]; simpl; [discriminate|].
  destruct (String.eqb y x) eqn:E.
  - apply String.eqb_eq in E. subst y. intros H. now injection H as ->.
  - intros H. now rewrite IH.
Qed.

(** Putting at [p] what is there already changes nothing. *)
Lemma put_same new : forall p t,
  p <> [] -> lookup p t = Some new -> put p new t = Some t.
Proof.
  induction p as [|x p IH]; intros t Hne H; [contradiction|].
  destruct t as [c|es]; [discriminate|]. simpl in H.
  destruct (lookup1 x es) as [n|] eqn:E; [|discriminate].
  destruct p as [|y p].
  - simpl in H. injection H as ->. simpl. now rewrite set_entry_same.
  - rewrite put_cons2, E, (IH n) by (discriminate || assumption).
    now rewrite set_entry_same.
Qed.

Lemma write_node_same p c t :
  read_file p t = Some c -> p <> [] -> write_node p c t = Some t.
Proof.
  unfold read_file, write_node. intros H Hne.
  destruct (lookup p t) as [[c'|es]|] eqn:E; try discriminate.
  injection H as ->. now apply put_same.
Qed.

(** A write at the top level leaves every other top-level entry as it
    is, with all that is below it. *)
Lemma lookup_write_top z c x r t t' :
  write_node [z] c t = Some t' -> x <> z -> lookup (x :: r) t' = lookup (x :: r) t.
Proof.
  unfold write_node. intros H Hx.
  assert (Hput : put [z] (File c) t = Some t')
    by (destruct (lookup [z] t) as [[?|?]|]; congruence).
  destruct t as [c0|es]; [discriminate|]. simpl in Hput. injection Hput as <-.
  simpl. rewrite lookup1_set_other by congruence. reflexivity.
Qed.

Lemma zip_files_cong root files w w1 :
  (forall f, In f files ->
     read_file (root ++ [f]) (cwd w1) = read_file (root ++ [f]) (cwd w)) ->
  forall ms,
    map_m files (fun file =>
       c <- fetch (root ++ [file]) ;;
       ret (relpath (root ++ [file]) [BASE_FOLDER], c)) w = (w, Ok ms) ->
    map_m files (fun file =>
       c <- fetch (root ++ [file]) ;;
       ret (relpath (root ++ [file]) [BASE_FOLDER], c)) w1 = (w1, Ok ms).
Proof.
  induction files as [|f files IH]; intros Hall ms H; simpl in *.
  - injection H as <-. reflexivity.
  - apply bind_ok_inv in H as (wa & m & H1 & H).
    apply bind_ok_inv in H1 as (w0 & c & H0 & H1).
    apply fetch_ok in H0 as [-> E]. injection H1 as <- <-.
    apply bind_ok_inv in H as (w2 & rest & H2 & H).
    injection H as <- <-.
    apply (IH (fun f' Hf => Hall f' (or_intror Hf))) in H2.
    assert (H1 : (c <- fetch (root ++ [f]) ;;
                  ret (relpath (root ++ [f]) [BASE_FOLDER], c)) w1
                 = (w1, Ok (relpath (root ++ [f]) [BASE_FOLDER], c))).
    { unfold bind, fetch, ret. now rewrite (Hall f (or_introl eq_refl)), E. }
    rewrite (bind_ok _ _ _ _ _ H1), (bind_ok _ _ _ _ _ H2). reflexivity.
Qed.

Lemma zip_members_cong entries w w1 members :
  (forall root ds fs f, In (root, ds, fs) entries -> In f fs ->
     read_file (root ++ [f]) (cwd w1) = read_file (root ++ [f]) (cwd w)) ->
  zip_members entries w = (w, Ok members) ->
  zip_members entries w1 = (w1, Ok members).
Proof.
  unfold zip_members. intros Hall H.
  apply bind_ok_inv in H as (wa & mss & H & Hr). injection Hr as -> <-.
  enough (Hm : map_m entries (fun entry =>
              let '(root, _, files) := entry in
              map_m files (fun file =>
                c <- fetch (root ++ [file]) ;;
                ret (relpath (root ++ [file]) [BASE_FOLDER], c))) w1 = (w1, Ok mss))
    by now rewrite (bind_ok _ _ _ _ _ Hm).
  revert mss H.
  induction entries as [|[[root ds] fs] entries IH]; intros mss H; simpl in *.
  - injection H as <-. reflexivity.
  - apply bind_ok_inv in H as (w2 & ms & H2 & H).
    pose proof (zip_files_ok _ _ _ _ _ H2) as [-> _].
    apply bind_ok_inv in H as (w3 & rest & H3 & H).
    injection H as -> <-.
    apply (zip_files_cong root fs w w1) in H2;
      [|intros f Hf; exact (Hall root ds fs f (or_introl eq_refl) Hf)].
    apply (IH (fun r d fs' f Hin Hf => Hall r d fs' f (or_intror Hin) Hf)) in H3.
    rewrite (bind_ok _ _ _ _ _ H2), (bind_ok _ _ _ _ _ H3). reflexivity.
Qed.

(** *** The rows of the summary and their clock readings *)

Lemma rows_from_times e t entries : forall k n df,
  List.Forall2 (fun ie row => row_ok e t (n + fst ie) (snd ie) row)
               (combine (seq k (length entries)) entries) df ->
  length df = length entries /\
  forall i row, nth_error df i = Some row -> Last_Updated row = clock e (n + k + i).
Proof.
  induction entries as [|entry entries IH]; intros k n df H; simpl in H.
  - inversion H; subst. split; [reflexivity|]. intros [|i] row Hi; discriminate.
  - inversion H as [|ie row l df' Hrow Hrest]; subst.
    apply IH in Hrest as [Hlen Htimes]. split; [simpl; congruence|].
    intros [|i] r Hi; simpl in Hi.
    + injection Hi as <-. destruct Hrow as (_ & _ & Ht & _). simpl in Ht.
      now rewrite Nat.add_0_r.
    + rewrite (Htimes i r Hi). f_equal. lia.
Qed.

Lemma rows_ok_times e t n entries df :
  rows_ok e t n entries df ->
  length df = length entries /\
  forall i row, nth_error df i = Some row -> Last_Updated row = clock e (n + i).
Proof.
  intros H. apply rows_from_times in H as [Hlen Ht]. split; [assumption|].
  intros i row Hi. rewrite (Ht i row Hi). f_equal. lia.
Qed.

End StageFacts.

(** ** The workbook of any table *)

Module WorkbookFacts.
Import Openpyxl Script Sheets DashboardFacts.

Lemma statuses_of_short table :
  (exists r, In r (tl table) /\ (length r < 4)%nat) -> statuses_of table = None.
Proof.
  unfold statuses_of. intros (r & Hin & Hlen).
  destruct (mapM (fun r => nth_error r 3) (tl table)) as [l|] eqn:E; [|reflexivity].
  exfalso.
  assert (Hs : is_Some (mapM (fun r : list string => nth_error r 3) (tl table)))
    by (rewrite E; eauto).
  apply mapM_is_Some in Hs. rewrite Forall_forall in Hs.
  destruct (Hs r) as [x Hx].
  - now apply list_elem_of_In.
  - assert (Hn : nth_error r 3 = None) by (apply nth_error_None; lia).
    unfold compose in Hx. congruence.
Qed.

(** The charts of the workbook built from any table. *)
Lemma dashboard_of_charts table trend wb :
  dashboard_of table trend = Some wb ->
  forall ws c anchor,
    In ws wb -> In (c, anchor) (charts ws) ->
    data c = [(mkReference (title ws) 2 1 2 (length (rows ws)), true)] /\
    categories c = Some (mkReference (title ws) 1 2 1 (length (rows ws))).
Proof.
  unfold dashboard_of. destruct (statuses_of table) as [statuses|]; [|discriminate].
  intros H. injection H as <-.
  cbn [Workbook active on_sheet create_sheet alter list_alter app length fst snd].
  destruct (autosize_keeps
              (append_all (map (map CStr) table)
                 (set_sheet_title "Controls" (mkSheet "Sheet" [] [] [])))) as (_ & _ & H3).
  intros ws c anchor [<-|[<-|[<-|[]]]] Hc.
  - rewrite H3, append_all_charts in Hc. destruct Hc.
  - cbn [add_chart charts title rows] in *.
    rewrite append_all_charts in Hc. rewrite append_all_title, append_all_rows.
    cbn [append charts title rows app] in *.
    cbn [length]. rewrite <- (Nat.add_1_r (length (status_rows statuses))).
    destruct Hc as [E|[E|[]]]; injection E as <- <-; split; reflexivity.
  - cbn [add_chart charts title rows] in *.
    rewrite append_all_charts in Hc. rewrite append_all_title, append_all_rows.
    cbn [charts title rows app] in *.
    destruct Hc as [E|[]]; injection E as <- <-; split; reflexivity.
Qed.

(** *** One row for each status *)



(** *** Column letters and column widths *)












End WorkbookFacts.

(** ** What a run leaves alone *)

Module FrameFacts.
Import Fs Run Script Histories Stages Edges.
Import FsFacts RunFacts ScriptFacts FolderFacts.

Lemma frame_ret {A} S (a : A) : frame S (ret a).
Proof. now intros w q _. Qed.

Lemma frame_pure {A} S (f : world -> result A) : frame S (fun w => (w, f w)).
Proof. now intros w q _. Qed.

Lemma frame_bind {A B} S (m : M A) (k : A -> M B) :
  frame S m -> (forall a, frame S (k a)) -> frame S (bind m k).
Proof.
  intros Hm Hk w q Hq. specialize (Hm w q Hq). unfold bind.
  destruct (m w) as [w1 [a|x]]; simpl in *; [|assumption].
  now rewrite (Hk a w1 q Hq).
Qed.

Lemma frame_for_each {A} S (l : list A) (body : A -> M unit) :
  (forall x, frame S (body x)) -> frame S (for_each l body).
Proof.
  intros Hb. induction l as [|x l IH]; simpl; [apply frame_ret|].
  apply frame_bind; auto.
Qed.

Lemma frame_map_m {A B} S (l : list A) (f : A -> M B) :
  (forall x, frame S (f x)) -> frame S (map_m l f).
Proof.
  intros Hf. induction l as [|x l IH]; simpl; [apply frame_ret|].
  apply frame_bind; [auto|]. intros y.
  apply frame_bind; [assumption|]. intros ys. apply frame_ret.
Qed.

Lemma frame_now S e : frame S (now e).
Proof. now intros w q _. Qed.

Lemma frame_write_file S e p c : In p S -> frame S (write_file e p c).
Proof.
  intros Hp w q Hq. unfold write_file, attempt.
  destruct (fault e (length (trace w))); [reflexivity|].
  destruct (write_node p c (cwd w)) as [t'|] eqn:E; [|reflexivity].
  simpl. apply (read_write_other p c q (cwd w)); [assumption|].
  intros ->. contradiction.
Qed.

Lemma frame_mkdir S e p : frame S (mkdir e p).
Proof.
  intros w q _. unfold mkdir, attempt.
  destruct (fault e (length (trace w))); [reflexivity|].
  destruct (mkdir_node p (cwd w)) as [t'|] eqn:E; [|reflexivity].
  simpl. now apply (read_mkdir p).
Qed.

Lemma frame_makedirs_from S e todo : forall done, frame S (makedirs_from e done todo).
Proof.
  induction todo as [|x todo IH]; intros done; simpl; [apply frame_ret|].
  apply frame_bind; [apply frame_pure|]. intros there.
  apply frame_bind; [|intros _; apply IH].
  destruct there; [apply frame_ret|apply frame_mkdir].
Qed.

Lemma frame_create_phase_folders S e : frame S (create_phase_folders e).
Proof.
  unfold create_phase_folders. apply frame_bind.
  - apply frame_for_each. intros phase. apply frame_makedirs_from.
  - intros _. apply frame_makedirs_from.
Qed.

Lemma frame_generate_phase S e phase :
  In (doc_path phase) S -> In (xlsx_path phase) S -> In (csv_path phase) S ->
  frame S (generate_phase e phase).
Proof.
  intros Hd Hx Hc. unfold generate_phase.
  apply frame_bind; [apply frame_now|]. intros ts.
  apply frame_bind; [now apply frame_write_file|]. intros _.
  apply frame_bind; [destruct dashboard; [apply frame_ret|now intros w q _]|]. intros wb.
  apply frame_bind; [now apply frame_write_file|]. intros _.
  now apply frame_write_file.
Qed.

Lemma frame_generate_phase_files e : frame generated_paths (generate_phase_files e).
Proof.
  unfold generate_phase_files, PHASES, generated_paths.
  repeat (apply frame_bind; [apply frame_generate_phase; simpl; tauto|intros _]).
  apply frame_ret.
Qed.

Lemma frame_fetch S p : frame S (fetch p).
Proof. now intros w q _. Qed.

Lemma frame_summarize S e entry : frame S (summarize e entry).
Proof.
  destruct entry as [[root ds] files]. unfold summarize.
  destruct (negb (length files =? 0)%nat && contains "Phase_" (join_path root));
    [|apply frame_ret].
  apply frame_bind.
  - apply frame_map_m. intros f. unfold os_path_getsize.
    apply frame_bind; [apply frame_fetch|]. intros c. apply frame_ret.
  - intros sizes. apply frame_bind; [apply frame_now|]. intros ts. apply frame_ret.
Qed.

Lemma frame_generate_summary_report e : frame generated_paths (generate_summary_report e).
Proof.
  unfold generate_summary_report.
  apply frame_bind; [apply frame_pure|]. intros entries.
  apply frame_bind; [apply frame_map_m; intros x; apply frame_summarize|]. intros summary.
  apply frame_bind; [apply frame_write_file; unfold generated_paths; simpl; tauto|].
  intros _. apply frame_bind; [apply frame_now|]. intros ts.
  apply frame_write_file. unfold generated_paths. simpl. tauto.
Qed.

Lemma frame_zip_members S entries : frame S (zip_members entries).
Proof.
  unfold zip_members. apply frame_bind; [|intros ms; apply frame_ret].
  apply frame_map_m. intros [[root ds] files]. apply frame_map_m. intros f.
  apply frame_bind; [apply frame_fetch|]. intros c. apply frame_ret.
Qed.

Lemma frame_create_zip_archive e : frame [zip_filename] (create_zip_archive e).
Proof.
  unfold create_zip_archive.
  apply frame_bind; [apply frame_pure|]. intros entries.
  apply frame_bind; [apply frame_zip_members|]. intros members.
  apply frame_write_file. now left.
Qed.

Lemma frame_weaken {A} S S' (m : M A) : incl S S' -> frame S m -> frame S' m.
Proof. intros Hi Hm w q Hq. apply Hm. intros H. apply Hq, Hi, H. Qed.

Lemma frame_main e : frame output_paths (main e).
Proof.
  unfold main, output_paths.
  apply frame_bind; [apply frame_create_phase_folders|]. intros _.
  apply frame_bind;
    [apply (frame_weaken generated_paths); [apply incl_appl, incl_refl|];
     apply frame_generate_phase_files|]. intros _.
  apply frame_bind;
    [apply (frame_weaken generated_paths); [apply incl_appl, incl_refl|];
     apply frame_generate_summary_report|]. intros _.
  apply (frame_weaken [zip_filename]); [apply incl_appr, incl_refl|].
  apply frame_create_zip_archive.
Qed.

(** The three stages before the archiver. *)
Lemma frame_before_archive e :
  frame generated_paths
    (create_phase_folders e ;;; generate_phase_files e ;;; generate_summary_report e).
Proof.
  apply frame_bind; [apply frame_create_phase_folders|]. intros _.
  apply frame_bind; [apply frame_generate_phase_files|]. intros _.
  apply frame_generate_summary_report.
Qed.




(** *** Directories below a phase directory *)

Lemma append_assoc (a b c : string) : (a +:+ b) +:+ c = a +:+ (b +:+ c).
Proof.
  induction a as [|x a IH]; [reflexivity|].
  change (String x ((a +:+ b) +:+ c) = String x (a +:+ (b +:+ c))). now rewrite IH.
Qed.

Lemma append_empty_r (a : string) : a +:+ "" = a.
Proof.
  induction a as [|x a IH]; [reflexivity|].
  change (String x (a +:+ "") = String x a). now rewrite IH.
Qed.

Lemma prefix_app n : forall h s, String.prefix n h = true -> String.prefix n (h +:+ s) = true.
Proof.
  induction n as [|a n IH]; intros h s H; [now destruct (h +:+ s)|].
  destruct h as [|b h]; [discriminate|].
  change (String b h +:+ s) with (String b (h +:+ s)). simpl in *.
  destruct (ascii_dec a b); [|discriminate]. now apply IH.
Qed.

Lemma contains_app n h s : contains n h = true -> contains n (h +:+ s) = true.
Proof.
  induction h as [|b h IH]; intros H.
  - simpl in H. rewrite orb_false_r in H.
    destruct n; [|discriminate]. now destruct s.
  - cbn [contains] in H. apply orb_true_iff in H as [H|H].
    + change (String b h +:+ s) with (String b (h +:+ s)).
      cbn [contains].
      change (String b (h +:+ s)) with (String b h +:+ s).
      rewrite (prefix_app _ _ s H). reflexivity.
    + change (String b h +:+ s) with (String b (h +:+ s)).
      cbn [contains]. rewrite (IH H). apply orb_true_r.
Qed.

Lemma join_path_app d r : d <> [] -> exists s, join_path (d ++ r) = join_path d +:+ s.
Proof.
  induction d as [|x d IH]; intros Hne; [contradiction|].
  destruct d as [|y d].
  - destruct r as [|z r].
    + exists "". simpl. now rewrite append_empty_r.
    + exists ("/" +:+ join_path (z :: r)). reflexivity.
  - destruct (IH ltac:(discriminate)) as [s Hs]. exists s.
    change (join_path ((x :: y :: d) ++ r))
      with (x +:+ "/" +:+ join_path ((y :: d) ++ r)).
    rewrite Hs.
    change (join_path (x :: y :: d)) with (x +:+ "/" +:+ join_path (y :: d)).
    now rewrite !append_assoc.
Qed.

Lemma selects_below root ds fs r ds' fs' :
  selects (root, ds, fs) = true -> fs' <> [] -> selects (root ++ r, ds', fs') = true.
Proof.
  unfold selects. cbn [fst snd]. intros H Hne.
  apply andb_true_iff in H as [_ Hc]. apply andb_true_iff. split.
  - now destruct fs'.
  - destruct root as [|x root]; [discriminate|].
    destruct (join_path_app (x :: root) r ltac:(discriminate)) as [s ->].
    now apply contains_app.
Qed.

End FrameFacts.

(** ** What extraction makes *)

Module ExtractFacts.
Import Fs FsFacts.

(** Extracting a member makes nothing but the member and the
    directories on the way to it. *)
Lemma extract_new c : forall p q t t',
  extract p c t = Some t' ->
  is_Some (lookup q t') -> is_Some (lookup q t) \/ q `prefix_of` p.
Proof.
  induction p as [|x p IH]; intros q t t' H Hq.
  - destruct t; discriminate.
  - destruct t as [c0|es]; [discriminate|].
    destruct q as [|y q]; [left; simpl; eauto|].
    assert (Hsplit :
      exists n', t' = Dir (set_entry x n' es) /\
        ((p = [] /\ n' = File c) \/
         (p <> [] /\ extract p c (default (Dir []) (lookup1 x es)) = Some n'))).
    { destruct p as [|z p].
      - rewrite extract_one in H.
        destruct (lookup1 x es) as [[?|?]|]; try discriminate;
          injection H as <-; eexists; split; eauto.
      - rewrite extract_cons2 in H.
        destruct (extract (z :: p) c _) as [n'|] eqn:E; [|discriminate].
        injection H as <-. exists n'. split; [reflexivity|].
        right. split; [discriminate|reflexivity]. }
    destruct Hsplit as (n' & -> & Hn'). cbn [lookup] in Hq |- *.
    destruct (String.eqb_spec x y) as [<-|Hxy].
    + rewrite lookup1_set_same in Hq.
      destruct Hn' as [[-> ->]|[Hne He]].
      * destruct q as [|z q]; [|destruct Hq; discriminate].
        right. now exists [].
      * destruct (IH q _ _ He Hq) as [Hs|[r ->]].
        -- destruct (lookup1 x es) as [m|]; [now left|]. simpl in Hs.
           destruct q as [|z q]; [|destruct Hs; discriminate].
           right. now exists p.
        -- right. now exists r.
    + rewrite lookup1_set_other in Hq by assumption. now left.
Qed.

Lemma extractall_new members : forall q t t',
  extractall members t = Some t' ->
  is_Some (lookup q t') ->
  is_Some (lookup q t) \/ exists p c, In (p, c) members /\ q `prefix_of` p.
Proof.
  induction members as [|[p c] ms IH]; intros q t t' H Hq; simpl in H.
  - injection H as <-. now left.
  - destruct (extract p c t) as [t1|] eqn:E; [|discriminate].
    destruct (IH q t1 t' H Hq) as [H1|(p' & c' & Hin & Hp)].
    + destruct (extract_new c p q t t1 E H1) as [H0|Hp]; [now left|].
      right. exists p, c. split; [now left|assumption].
    + right. exists p', c'. split; [now right|assumption].
Qed.

End ExtractFacts.

Import Edges.
Import FolderFacts PhaseFacts StageFacts CsvLfFacts WorkbookFacts FrameFacts ExtractFacts.

(** * Further statements about the code *)

(** ** The folder structure *)

(** X1.  When the folder stage returns, the five phase folders and the
    folder of the supporting files are directories.  Every directory
    that was there is still one, a directory that was not there is on
    the way to one of the six, no file was changed, made or removed, and
    the clock was not read. *)
Theorem folders_made e w w' :
  create_phase_folders e w = (w', Ok tt) ->
  (forall p, In p folder_paths -> is_dir_at (cwd w') p = true) /\
  (forall q, is_dir_at (cwd w) q = true -> is_dir_at (cwd w') q = true) /\
  (forall q, is_dir_at (cwd w') q = true ->
     is_dir_at (cwd w) q = true \/ exists p, In p folder_paths /\ q `prefix_of` p) /\
  (forall q, read_file q (cwd w') = read_file q (cwd w)) /\
  ticks w' = ticks w.
Proof.
  intros H.
  destruct (create_phase_folders_post _ _ _ _ H) as ((R & D & K) & P).
  repeat split; auto.
  intros q. now apply (create_phase_folders_new_dirs e w w' tt).
Qed.

Lemma folders_made_witness :
  is_dir_at (cwd stale_prepared) [BASE_FOLDER; "Supporting_Files"] = true /\
  read_file [BASE_FOLDER; "Phase_1_Governance_Risk_SOC"; "notes.txt"] (cwd stale_prepared)
    = Some (Bytes "keep").
Proof.
  destruct (folders_made sample_env stale stale_prepared) as (P & _ & _ & R & _).
  - vm_compute. reflexivity.
  - split.
    + apply P. vm_compute. auto 10.
    + rewrite R. vm_compute. reflexivity.
Defined.

(** X2.  Where the working directory is a directory, no write is
    refused and no file stands at one of the six folders or on the way to
    it, the folder stage returns. *)
Theorem folders_can_be_made e w :
  is_dir (cwd w) = true ->
  (forall i, fault e i = false) ->
  forallb (free_way (cwd w)) folder_paths = true ->
  exists w', create_phase_folders e w = (w', Ok tt).
Proof.
  intros Hd Hf Hfree. apply create_phase_folders_total; try assumption.
  now apply forallb_forall.
Qed.

Lemma folders_can_be_made_witness :
  exists w', create_phase_folders sample_env stale = (w', Ok tt).
Proof.
  apply (folders_can_be_made sample_env stale).
  - reflexivity.
  - reflexivity.
  - vm_compute. reflexivity.
Defined.

(** X3.  The folder stage can be run again: after a call that returned,
    a second call changes nothing and returns, whatever the platform
    would refuse. *)
Theorem folders_second_call e e' w w' :
  create_phase_folders e w = (w', Ok tt) ->
  create_phase_folders e' w' = (w', Ok tt).
Proof.
  intros H. apply create_phase_folders_noop.
  now destruct (create_phase_folders_post _ _ _ _ H) as (_ & P).
Qed.

Lemma folders_second_call_witness :
  create_phase_folders failing_env prepared = (prepared, Ok tt).
Proof.
  apply (folders_second_call sample_env failing_env fresh prepared).
  vm_compute. reflexivity.
Defined.

(** X4.  Where a file stands at one of the six folders or on the way to
    it, the folder stage ends with an [OSError], whatever the platform
    refuses or allows. *)
Theorem folders_blocked_by_file e w p :
  In p folder_paths ->
  free_way (cwd w) p = false ->
  exists w' q, create_phase_folders e w = (w', Raise (OSError q)).
Proof.
  intros Hp Hfree.
  destruct (create_phase_folders e w) as [w' [[]|x]] eqn:H.
  - exfalso.
    destruct (create_phase_folders_post _ _ _ _ H) as ((R & _) & P).
    specialize (P p Hp).
    assert (Hno : free_way (cwd w) p = true); [|congruence].
    apply free_way_spec. intros k Hk. rewrite <- R.
    rewrite <- (firstn_skipn k p) in P. apply dir_prefix in P.
    unfold is_dir_at in P. unfold read_file.
    destruct (lookup (firstn k p) (cwd w')) as [[?|?]|]; congruence.
  - destruct (create_phase_folders_raise _ _ _ _ H) as [q ->]. now exists w', q.
Qed.

Lemma folders_blocked_by_file_witness :
  exists w' q, create_phase_folders sample_env blocked = (w', Raise (OSError q)).
Proof.
  apply (folders_blocked_by_file sample_env blocked [BASE_FOLDER; "Supporting_Files"]).
  - vm_compute. auto 10.
  - vm_compute. reflexivity.
Defined.

(** ** The files of the phases *)

(** X5.  The per-phase stage makes no directory.  When it returns, the
    folder of every phase was a directory before the call and none of
    the three files of a phase was one, and the directories after the
    call are the directories before it. *)
Theorem phase_files_need_folders e w w' :
  generate_phase_files e w = (w', Ok tt) ->
  forallb (phase_ready (cwd w)) PHASES = true /\
  forall q, is_dir_at (cwd w') q = is_dir_at (cwd w) q.
Proof.
  intros H. apply generate_phase_files_dirs in H as [D R].
  split; [now apply forallb_forall|exact D].
Qed.

Lemma phase_files_need_folders_witness :
  forallb (phase_ready (cwd prepared)) PHASES = true /\
  is_dir_at (cwd generated) (doc_path "Phase_4_Compliance_Audit") = false.
Proof.
  destruct (phase_files_need_folders sample_env prepared generated) as [R D].
  - vm_compute. reflexivity.
  - split; [exact R|]. rewrite D. vm_compute. reflexivity.
Defined.

(** X6.  Where no write is refused, the folder of every phase is a
    directory and none of the three files of a phase is one, the
    per-phase stage returns. *)
Theorem phase_files_can_be_written e w :
  (forall i, fault e i = false) ->
  forallb (phase_ready (cwd w)) PHASES = true ->
  exists w', generate_phase_files e w = (w', Ok tt).
Proof.
  intros Hf Hr.
  destruct (generate_phase_files_total e w Hf) as (w' & H & _).
  - now apply forallb_forall.
  - now exists w'.
Qed.

Lemma phase_files_can_be_written_witness :
  exists w', generate_phase_files sample_env stale_prepared = (w', Ok tt).
Proof.
  apply (phase_files_can_be_written sample_env stale_prepared).
  - reflexivity.
  - vm_compute. reflexivity.
Defined.

(** X7.  When the per-phase stage returns, the document of the [i]-th
    phase (from 0) is the template of that phase with the [i]-th reading
    of the clock since the start of the stage, whatever the file held
    before, and the stage has read the clock once for each phase. *)
Theorem phase_documents e w w' i phase :
  generate_phase_files e w = (w', Ok tt) ->
  nth_error PHASES i = Some phase ->
  read_file (doc_path phase) (cwd w')
    = Some (DocxFile (phase_document phase (clock e (ticks w + i)))) /\
  ticks w' = (ticks w + length PHASES)%nat.
Proof.
  intros H Hi. apply generate_phase_files_ok in H as [(evs & T & W & R) K].
  split; [|exact K].
  apply (read_replay_written evs (cwd w)); [assumption| |]; rewrite W.
  - apply phase_paths. exists phase. split; [|now left].
    eapply nth_error_In; eassumption.
  - intros c' Hc. now apply (doc_written e (ticks w) i phase).
Qed.

Lemma phase_documents_witness :
  read_file (doc_path "Phase_3_Threat_Intel_Automation") (cwd generated)
    = Some (DocxFile (phase_document "Phase_3_Threat_Intel_Automation"
                        "2025-11-04 12:00:02")) /\
  ticks generated = 5%nat.
Proof.
  apply (phase_documents sample_env prepared generated 2).
  - vm_compute. reflexivity.
  - reflexivity.
Defined.

(** ** The summary without its folder *)

(** X8.  Where the summary CSV cannot be written, because the folder of
    the supporting files is missing or a directory has the name of the
    file, the summary stage ends with an [OSError] for that file after
    one failed attempt: the tree is as it was and the executive summary
    is not written. *)
Theorem summary_needs_its_folder e w :
  wf (cwd w) = true ->
  writable (cwd w) summary_path = false ->
  exists w',
    generate_summary_report e w = (w', Raise (OSError summary_path)) /\
    cwd w' = cwd w /\
    trace w' = trace w ++ [Failed summary_path].
Proof.
  intros Hwf Hs. unfold generate_summary_report.
  rewrite (bind_ok _ _ w w (Fs.walk_from [BASE_FOLDER] (cwd w)) eq_refl).
  destruct (summarize_all_total e (Fs.walk_from [BASE_FOLDER] (cwd w)) w)
    as (w1 & rowss & H1).
  { intros root ds fs f Hin Hf. now apply (walk_files_readable _ [BASE_FOLDER] root ds fs). }
  rewrite (bind_ok _ _ _ _ _ H1).
  apply summarize_all_ok in H1 as (C1 & T1 & _).
  rewrite <- C1 in Hs.
  eexists. split.
  - apply bind_raise. apply (write_file_refused e _ _ w1 Hs).
  - simpl. split; congruence.
Qed.

Lemma summary_needs_its_folder_witness :
  exists w',
    generate_summary_report sample_env fresh = (w', Raise (OSError summary_path)) /\
    cwd w' = cwd fresh /\
    trace w' = trace fresh ++ [Failed summary_path].
Proof.
  apply (summary_needs_its_folder sample_env fresh).
  - reflexivity.
  - reflexivity.
Defined.

(** ** A whole run *)

(** X9.  A run returns where no write is refused and the working
    directory is one a run can start in: a directory in which no file
    stands at one of the six folders or on the way to it and no
    directory has the name of a file the run writes. *)
Theorem whole_run_returns e w :
  (forall i, fault e i = false) ->
  can_start (cwd w) = true ->
  exists w', main e w = (w', Ok tt).
Proof. apply main_total. Qed.

Lemma whole_run_returns_witness :
  exists w', main sample_env stale = (w', Ok tt).
Proof.
  apply (whole_run_returns sample_env stale).
  - reflexivity.
  - vm_compute. reflexivity.
Defined.

(** X10.  The script can be run again on what it left: after a run that
    returned, the working directory is one a run can start in, and a
    second run returns if no write is refused. *)
Theorem run_can_be_repeated e e' w w' :
  wf (cwd w) = true ->
  main e w = (w', Ok tt) ->
  (forall i, fault e' i = false) ->
  can_start (cwd w') = true /\ exists w'', main e' w' = (w'', Ok tt).
Proof.
  intros Hwf H Hf. pose proof (main_can_start _ _ _ _ Hwf H) as Hs.
  split; [assumption|]. now apply main_total.
Qed.

Lemma run_can_be_repeated_witness :
  can_start (cwd (fst (main sample_env fresh))) = true /\
  exists w'', main later_env (fst (main sample_env fresh)) = (w'', Ok tt).
Proof.
  apply (run_can_be_repeated sample_env later_env fresh).
  - reflexivity.
  - vm_compute. reflexivity.
  - reflexivity.
Defined.

(** ** The archive *)

(** X11.  Where the output root is missing or is a file, the archiver
    still writes an archive: one without members.  No other file is
    changed. *)
Theorem archive_without_root e w :
  is_dir_at (cwd w) [BASE_FOLDER] = false ->
  writable (cwd w) zip_filename = true ->
  fault e (length (trace w)) = false ->
  exists w',
    create_zip_archive e w = (w', Ok tt) /\
    read_file zip_filename (cwd w') = Some (ZipFile []) /\
    forall q, q <> zip_filename -> read_file q (cwd w') = read_file q (cwd w).
Proof.
  intros Hd Hz Hf.
  assert (Hwalk : Fs.walk_from [BASE_FOLDER] (cwd w) = []).
  { unfold Fs.walk_from. unfold is_dir_at in Hd.
    destruct (lookup [BASE_FOLDER] (cwd w)) as [[c|es]|]; [reflexivity|discriminate|reflexivity]. }
  destruct (write_file_total e zip_filename (ZipFile []) w Hf Hz) as [w' Hw'].
  exists w'. split.
  - unfold create_zip_archive.
    rewrite (bind_ok _ _ w w (Fs.walk_from [BASE_FOLDER] (cwd w)) eq_refl), Hwalk.
    now rewrite (bind_ok _ _ w w [] eq_refl).
  - apply attempt_ok in Hw' as (_ & Hn & _). split.
    + now apply (read_write_same _ _ (cwd w)).
    + intros q Hq. now apply (read_write_other zip_filename (ZipFile []) q (cwd w)).
Qed.

Lemma archive_without_root_witness :
  exists w',
    create_zip_archive sample_env blocked = (w', Ok tt) /\
    read_file zip_filename (cwd w') = Some (ZipFile []) /\
    forall q, q <> zip_filename -> read_file q (cwd w') = read_file q (cwd blocked).
Proof.
  apply (archive_without_root sample_env blocked).
  - reflexivity.
  - reflexivity.
  - reflexivity.
Defined.

(** X12.  The archive is written beside the output root, so it is not a
    member of itself: archiving a second time, where the write is not
    refused, returns and leaves the tree, the archive included, exactly
    as the first call left it. *)
Theorem archive_again e e' w w' :
  create_zip_archive e w = (w', Ok tt) ->
  fault e' (length (trace w')) = false ->
  exists w'', create_zip_archive e' w' = (w'', Ok tt) /\ cwd w'' = cwd w'.
Proof.
  intros H Hf. unfold create_zip_archive in H.
  apply bind_ok_inv in H as (w0 & entries & H0 & H).
  injection H0 as <- <-.
  apply bind_ok_inv in H as (w1 & members & H1 & H).
  pose proof (zip_members_ok _ _ _ _ H1) as (-> & _).
  apply attempt_ok in H as (_ & Hn & _ & _).
  assert (Hlook : forall r, lookup (BASE_FOLDER :: r) (cwd w')
                            = lookup (BASE_FOLDER :: r) (cwd w)).
  { intros r. apply (lookup_write_top _ _ _ _ _ _ Hn). discriminate. }
  assert (Hwalk : Fs.walk_from [BASE_FOLDER] (cwd w') = Fs.walk_from [BASE_FOLDER] (cwd w))
    by (unfold Fs.walk_from; now rewrite Hlook).
  assert (Hm : zip_members (Fs.walk_from [BASE_FOLDER] (cwd w)) w' = (w', Ok members)).
  { apply (zip_members_cong _ w); [|assumption].
    intros root ds fs f Hin _. unfold Fs.walk_from in Hin.
    destruct (lookup [BASE_FOLDER] (cwd w)) as [n|]; [|destruct Hin].
    apply walk_roots_prefix in Hin as [r Hr]. simpl in Hr. subst root.
    unfold read_file. cbn [app]. now rewrite Hlook. }
  pose proof (write_node_same zip_filename (ZipFile members) (cwd w')
                (read_write_same _ _ _ _ Hn) ltac:(discriminate)) as Hsame.
  exists (mkWorld (cwd w') (ticks w') (trace w' ++ [Wrote zip_filename (ZipFile members)])).
  split; [|reflexivity].
  unfold create_zip_archive.
  rewrite (bind_ok _ _ w' w' (Fs.walk_from [BASE_FOLDER] (cwd w')) eq_refl), Hwalk.
  rewrite (bind_ok _ _ _ _ _ Hm).
  unfold write_file, attempt. now rewrite Hf, Hsame.
Qed.

Lemma archive_again_witness :
  exists w'',
    create_zip_archive later_env (fst (create_zip_archive sample_env summarized))
      = (w'', Ok tt) /\
    cwd w'' = cwd (fst (create_zip_archive sample_env summarized)).
Proof.
  apply (archive_again sample_env later_env summarized).
  - vm_compute. reflexivity.
  - reflexivity.
Defined.

(** ** The summary files *)

(** X13.  A summary table with at least one row, in which no directory
    name and no clock reading holds a carriage return, is read back by
    the CSV reader from the text [to_csv] writes: the header, then one
    record of four fields for each row. *)
Theorem summary_csv_reads_back df :
  (0 < length df)%nat ->
  forallb (fun r => no_CR (Phase r) && no_CR (Last_Updated r)) df = true ->
  Csv.read (to_csv df) = Some (summary_header :: map summary_fields df).
Proof.
  intros Hne Hcr. unfold to_csv. destruct df as [|r df]; [simpl in Hne; lia|].
  apply read_writerows_lf. cbn [forallb].
  apply andb_true_iff. split; [reflexivity|].
  rewrite forallb_forall in Hcr. apply forallb_forall.
  intros fs Hfs. apply in_map_iff in Hfs as (row & <- & Hrow).
  specialize (Hcr row Hrow). apply andb_true_iff in Hcr as [H1 H2].
  unfold summary_fields. cbn [forallb].
  now rewrite H1, H2, no_CR_pretty_nat, no_CR_float_str.
Qed.

Lemma summary_csv_reads_back_witness :
  Csv.read (to_csv [mkRow "Phase_4_Compliance_Audit" 3 7129 "2025-11-04 12:00:08"])
  = Some [ ["Phase"; "Files"; "Total_Size_KB"; "Last_Updated"];
           ["Phase_4_Compliance_Audit"; "3"; "71.29"; "2025-11-04 12:00:08"] ].
Proof.
  apply (summary_csv_reads_back
           [mkRow "Phase_4_Compliance_Audit" 3 7129 "2025-11-04 12:00:08"]).
  - simpl. lia.
  - reflexivity.
Defined.

(** X14.  When the summary stage returns, the summary CSV and the
    executive summary are made from the same table.  The clock was read
    once for each row, in the order of the rows, and once more for the
    date of the executive summary. *)
Theorem executive_summary_written e w w' :
  generate_summary_report e w = (w', Ok tt) ->
  exists df,
    read_file summary_path (cwd w') = Some (Bytes (to_csv df)) /\
    read_file executive_path (cwd w')
      = Some (DocxFile (executive_document (clock e (ticks w + length df)) df)) /\
    (forall i row, nth_error df i = Some row -> Last_Updated row = clock e (ticks w + i)) /\
    ticks w' = (ticks w + length df + 1)%nat.
Proof.
  intros H. apply generate_summary_report_ok in H as (df & Hrows & Hext & K).
  apply rows_ok_times in Hrows as [Hlen Htimes].
  rewrite <- Hlen in *. exists df.
  destruct Hext as (evs & T & W & R).
  split; [|split; [|split; assumption]].
  - apply (read_replay_written evs (cwd w)); [assumption| |]; rewrite W; simpl.
    + now left.
    + intros c' [E|[E|[]]]; [now injection E as <-|discriminate].
  - apply (read_replay_written evs (cwd w)); [assumption| |]; rewrite W; simpl.
    + right. now left.
    + intros c' [E|[E|[]]]; [discriminate|now injection E as <-].
Qed.

Lemma executive_summary_written_witness :
  exists df,
    read_file summary_path (cwd summarized) = Some (Bytes (to_csv df)) /\
    read_file executive_path (cwd summarized)
      = Some (DocxFile (executive_document
                          (clock sample_env (ticks generated + length df)) df)) /\
    (forall i row, nth_error df i = Some row ->
       Last_Updated row = clock sample_env (ticks generated + i)) /\
    ticks summarized = (ticks generated + length df + 1)%nat.
Proof.
  apply (executive_summary_written sample_env generated summarized).
  vm_compute. reflexivity.
Defined.

(** X15.  A directory below a directory that gets a row of the summary
    gets a row of its own as soon as it holds a file: the path of a
    directory is searched for [Phase_] as a whole.  The row is named
    after the last component of the path and counts the files of that
    directory alone. *)
Theorem rows_below_phase_directories e w root ds fs r ds' fs' :
  selects (root, ds, fs) = true ->
  (0 < length fs')%nat ->
  (forall f, In f fs' -> is_Some (read_file (root ++ r ++ [f]) (cwd w))) ->
  exists w' row,
    summarize e (root ++ r, ds', fs') w = (w', Ok [row]) /\
    Phase row = basename (root ++ r) /\ Files row = length fs'.
Proof.
  intros Hsel Hne Hread.
  assert (Hne' : fs' <> []) by (destruct fs'; [simpl in Hne; lia|discriminate]).
  pose proof (selects_below root ds fs r ds' fs' Hsel Hne') as Hsel'.
  destruct (summarize_total e (root ++ r, ds', fs') w) as (w' & rows & H).
  { cbn [fst snd]. intros f Hf. destruct (Hread f Hf) as [c Hc].
    exists c. now rewrite <- app_assoc. }
  exists w'. pose proof (summarize_ok _ _ _ _ _ H) as (_ & _ & Hrow).
  rewrite Hsel' in Hrow. destruct Hrow as (_ & row & -> & Hn & Hf & _).
  exists row. now repeat split.
Qed.

Lemma rows_below_phase_directories_witness :
  exists w' row,
    summarize sample_env
      ([BASE_FOLDER; "Phase_1_Governance_Risk_SOC"] ++ ["evidence"], [], ["scan.txt"])
      nested = (w', Ok [row]) /\
    Phase row = basename ([BASE_FOLDER; "Phase_1_Governance_Risk_SOC"] ++ ["evidence"]) /\
    Files row = length ["scan.txt"].
Proof.
  apply (rows_below_phase_directories sample_env nested
           [BASE_FOLDER; "Phase_1_Governance_Risk_SOC"] ["evidence"] ["notes.txt"]).
  - reflexivity.
  - simpl. lia.
  - intros f [<-|[]]. vm_compute. eauto.
Defined.

(** ** The workbook of any table *)

(** X16.  A data row with fewer than four entries, the header row
    apart, leaves no workbook: reading its status raises. *)
Theorem dashboard_needs_four_columns table trend r :
  In r (tl table) -> (length r < 4)%nat -> dashboard_of table trend = None.
Proof.
  intros Hin Hlen. unfold dashboard_of.
  rewrite (statuses_of_short table); [reflexivity|]. eauto.
Qed.

Lemma dashboard_needs_four_columns_witness :
  dashboard_of [["Control ID"]; ["CTRL-001"; "Firewall"; "Network Team"]] TREND_DATA = None.
Proof.
  apply (dashboard_needs_four_columns _ _ ["CTRL-001"; "Firewall"; "Network Team"]).
  - simpl. auto.
  - simpl. lia.
Defined.

(** X17.  Whatever the table and the trend, every chart of the workbook
    reads the sheet it is placed on: its one data series is the second
    column from the first row to the last row of the sheet, with the
    title taken from the first row, and its categories are the first
    column from the second row to the last. *)
Theorem charts_span_their_sheets table trend wb ws c anchor :
  dashboard_of table trend = Some wb ->
  In ws wb -> In (c, anchor) (Openpyxl.charts ws) ->
  Openpyxl.data c
    = [(Openpyxl.mkReference (Openpyxl.title ws) 2 1 2 (length (Openpyxl.rows ws)), true)] /\
  Openpyxl.categories c
    = Some (Openpyxl.mkReference (Openpyxl.title ws) 1 2 1 (length (Openpyxl.rows ws))).
Proof. intros H. now apply (dashboard_of_charts table trend wb). Qed.

Lemma charts_span_their_sheets_witness :
  Openpyxl.data (fst (nth 0 (Openpyxl.charts (sheet 2)) (Openpyxl.new_chart Openpyxl.PieChart, "")))
    = [(Openpyxl.mkReference "Compliance Trend" 2 1 2 7, true)].
Proof.
  destruct (charts_span_their_sheets SAMPLE_DATA TREND_DATA the_dashboard (sheet 2)
              (fst (nth 0 (Openpyxl.charts (sheet 2))
                      (Openpyxl.new_chart Openpyxl.PieChart, "")))
              "D4") as [H _].
  - reflexivity.
  - vm_compute. auto.
  - vm_compute. auto.
  - exact H.
Defined.

(** ** What a run leaves alone *)

(** X18.  Whether it returns or fails, and whatever the platform
    refuses, a run changes no file but the seventeen it writes below the
    output root and the archive: every other file holds at the end what
    it held at the start, and a path that named no file names none. *)
Theorem run_touches_only_its_outputs e w q :
  ~ In q output_paths ->
  read_file q (cwd (fst (main e w))) = read_file q (cwd w).
Proof. intros Hq. now apply frame_main. Qed.

Lemma run_touches_only_its_outputs_witness :
  read_file [BASE_FOLDER; "Phase_1_Governance_Risk_SOC"; "notes.txt"]
            (cwd (fst (main failing_env stale)))
  = Some (Bytes "keep").
Proof.
  rewrite (run_touches_only_its_outputs failing_env stale).
  - reflexivity.
  - vm_compute. intuition discriminate.
Defined.



(** ** Directories without files are not archived *)

(** X20.  The archive has files as members, no directories.  A
    directory below the output root with no file in it or below it
    leaves no member, and extracting the archive into an empty directory
    does not make it. *)
Theorem empty_directories_not_archived e w w' members d t' :
  create_zip_archive e w = (w', Ok tt) ->
  read_file zip_filename (cwd w') = Some (ZipFile members) ->
  (0 < length d)%nat ->
  (forall r, read_file (BASE_FOLDER :: d ++ r) (cwd w) = None) ->
  extractall members (Dir []) = Some t' ->
  (forall r c, ~ In (d ++ r, c) members) /\ lookup d t' = None.
Proof.
  intros H Hz Hd Hempty Hx.
  apply create_zip_archive_ok in H as (members' & Hm & (evs & T & W & R) & _).
  assert (members' = members) as ->.
  { assert (Hr : read_file zip_filename (cwd w') = Some (ZipFile members')).
    { apply (read_replay_written evs (cwd w)); [assumption| |]; rewrite W; simpl.
      - now left.
      - intros c' [E|[]]. now injection E as <-. }
    congruence. }
  pose proof (members_spec _ _ Hm) as Hspec.
  assert (Hno : forall r c, ~ In (d ++ r, c) members).
  { intros r c Hin. apply Hspec in Hin as [_ Hin]. now rewrite Hempty in Hin. }
  split; [exact Hno|].
  destruct (lookup d t') as [n|] eqn:E; [|reflexivity]. exfalso.
  destruct (extractall_new members d (Dir []) t' Hx) as [Hs|(p & c & Hin & [r ->])].
  - rewrite E. eauto.
  - destruct d; [simpl in Hd; lia|]. destruct Hs. discriminate.
  - now apply (Hno r c).
Qed.

Lemma empty_directories_not_archived_witness :
  exists members t',
    read_file zip_filename (cwd (fst (create_zip_archive sample_env generated)))
      = Some (ZipFile members) /\
    extractall members (Dir []) = Some t' /\
    lookup ["Supporting_Files"] t' = None /\
    is_dir_at (cwd generated) [BASE_FOLDER; "Supporting_Files"] = true.
Proof.
  eexists. eexists.
  split; [vm_compute; reflexivity|].
  split; [vm_compute; reflexivity|].
  split; [|reflexivity].
  eapply (empty_directories_not_archived sample_env generated
            (fst (create_zip_archive sample_env generated)) _ ["Supporting_Files"]).
  - vm_compute. reflexivity.
  - vm_compute. reflexivity.
  - simpl. lia.
  - intros [|x r]; vm_compute; reflexivity.
  - vm_compute. reflexivity.
Defined.

(** ** Tables other than the configured ones *)





